(** * simplecoin_rpc_client: the payout state machine of [rpc.py]

    A shallow embedding of [RPCClient] (src/simplecoin_rpc_client/rpc.py):
    the [payouts] table, the SQLAlchemy session in front of it, and the
    commands [pull_payouts], [payout], [confirm_trans], [associate_all]
    and [reset_all_locked], run the way [entry] runs them: one command per
    process, through [call].

    The wallet (coinserver), the remote ledger, the clock and the terminal
    are outside the program; their answers are the fields of an
    [environment], and every call the program makes to them is written to
    a journal together with the answer it got. *)

From Stdlib Require Import ZArith List String Bool Lia.
From stdpp Require Import base option list gmap strings.

Local Open Scope Z_scope.

(** ** Values *)

(** [datetime.datetime.utcnow()] readings. *)
Definition datetime := nat.

(** [decimal.Decimal]: [coefficient * 10 ^ exponent].  The wallet proxy
    parses every JSON float into one.  Products are taken exactly, that
    is, within the precision of the decimal context (28 digits). *)
Record Decimal := mkDecimal { coefficient : Z; exponent : Z }.

(** [int(d * 100000000)]: scale, then truncate towards zero. *)
Definition satoshi (d : Decimal) : Z :=
  let c := coefficient d * 100000000 in
  if 0 <=? exponent d then c * 10 ^ exponent d
  else c ÷ 10 ^ (- exponent d).

(** A number as Python holds it in the recipient dict: the table's integer
    amounts, or a binary float [mantissa * 2 ^ exp2]. *)
Inductive pynum :=
| PyInt (n : Z)
| PyFloat (mantissa exp2 : Z).

(** The float literal [1.1] (0x3FF199999999999A). *)
Definition float_1_1 : pynum := PyFloat 2476979795053773 (-51).

(** What a command hands back to [call]. *)
Inductive pyval :=
| PyTrue
| PyFalse
| PyNone
| PyStr (s : string).

(** A JSON value of the remote's transaction object, with Python's
    truth value ([not obj.get("fee")]). *)
Inductive json :=
| JNull
| JBool (b : bool)
| JInt (n : Z)
| JFloat (mantissa exp2 : Z)
| JStr (s : string).

Definition truthy (v : json) : bool :=
  match v with
  | JNull => false
  | JBool b => b
  | JInt n => negb (n =? 0)
  | JFloat m _ => negb (m =? 0)
  | JStr s => negb (String.eqb s "")
  end.

(** ** The table *)

(** [class Payout(base)].  The primary key [id] is the position of the
    row in the table: rows are appended and never deleted. *)
Record Payout := mkPayout {
  pid : string;
  user : string;
  amount : Z;
  txid : option string;
  associated : bool;
  locked : bool;
  lock_time : option datetime;
  paid_time : option datetime;
  assoc_time : option datetime;
  pull_time : option datetime
}.

(** [Payout(pid=pid, user=user, amount=amount, pull_time=...)] with the
    column defaults. *)
Definition new_payout (p u : string) (a : Z) (t : datetime) : Payout :=
  {| pid := p; user := u; amount := a; txid := None;
     associated := false; locked := false;
     lock_time := None; paid_time := None; assoc_time := None;
     pull_time := Some t |}.

Definition set_locked (b : bool) (r : Payout) : Payout :=
  {| pid := pid r; user := user r; amount := amount r; txid := txid r;
     associated := associated r; locked := b;
     lock_time := lock_time r; paid_time := paid_time r;
     assoc_time := assoc_time r; pull_time := pull_time r |}.

Definition set_lock_time (t : datetime) (r : Payout) : Payout :=
  {| pid := pid r; user := user r; amount := amount r; txid := txid r;
     associated := associated r; locked := locked r;
     lock_time := Some t; paid_time := paid_time r;
     assoc_time := assoc_time r; pull_time := pull_time r |}.

Definition set_txid (x : string) (r : Payout) : Payout :=
  {| pid := pid r; user := user r; amount := amount r; txid := Some x;
     associated := associated r; locked := locked r;
     lock_time := lock_time r; paid_time := paid_time r;
     assoc_time := assoc_time r; pull_time := pull_time r |}.

Definition set_paid_time (t : datetime) (r : Payout) : Payout :=
  {| pid := pid r; user := user r; amount := amount r; txid := txid r;
     associated := associated r; locked := locked r;
     lock_time := lock_time r; paid_time := Some t;
     assoc_time := assoc_time r; pull_time := pull_time r |}.

Definition set_associated (b : bool) (r : Payout) : Payout :=
  {| pid := pid r; user := user r; amount := amount r; txid := txid r;
     associated := b; locked := locked r;
     lock_time := lock_time r; paid_time := paid_time r;
     assoc_time := assoc_time r; pull_time := pull_time r |}.

Definition set_assoc_time (t : datetime) (r : Payout) : Payout :=
  {| pid := pid r; user := user r; amount := amount r; txid := txid r;
     associated := associated r; locked := locked r;
     lock_time := lock_time r; paid_time := paid_time r;
     assoc_time := Some t; pull_time := pull_time r |}.

(** ** The outside world *)

Inductive exn :=
| CoinRPCException      (* subclass of JSONRPCException *)
| JSONRPCException
| RPCException
| AssertionError
| OtherException.

Inductive reply (A : Type) :=
| Ok (a : A)
| Fails (e : exn).
Arguments Ok {A} a.
Arguments Fails {A} e.

(** [trans_data]: the wallet's answer to [gettransaction].  An integer
    JSON literal comes back as an [int], a float as a [Decimal]. *)
Inductive wallet_num :=
| WDecimal (d : Decimal)
| WInt (n : Z).

Record wallet_tx := mkWalletTx {
  confirmations : Z;
  fee : option wallet_num          (* None: no 'fee' key *)
}.

(** [obj]: one of the remote's unconfirmed transaction objects. *)
Record remote_tx := mkRemoteTx {
  obj_txid : string;
  obj_fee : option json            (* None: no 'fee' key *)
}.

(** The body of the remote's answer to the unconfirmed-transactions
    query. *)
Record unconfirmed := mkUnconfirmed {
  success : bool;
  objects : list remote_tx
}.

Record environment := mkEnv {
  utcnow : nat → datetime;                 (* n-th reading of the clock *)
  getinfo : reply unit;
  getbalance_before : reply Decimal;       (* line 299 *)
  getbalance_after : reply Decimal;        (* line 340 *)
  walletpassphrase : reply unit;
  settxfee : reply unit;
  sendmany : gmap string pynum → reply string;
  gettransaction : nat → string → reply wallet_tx;   (* n-th lookup *)
  get_payouts : reply (list (string * Z * string));
  get_unconfirmed : reply unconfirmed;
  confirm_transactions : list string → gmap string Z → reply bool;
  update_payouts : string → list string → reply bool;
  raw_input : string
}.

(** The configuration keys the commands read, together with cryptokit's
    [get_bcaddress_version], which is not part of this repository: the
    version byte of an address that decodes, [None] of one that does
    not. *)
Record config := mkConfig {
  get_bcaddress_version : string → option Z;
  valid_address_versions : list Z;
  trans_confirmations : Z;
  wallet_pass : string
}.

(** [get_bcaddress_version(user) in config['valid_address_versions']]. *)
Definition address_ok (cfg : config) (user : string) : bool :=
  match get_bcaddress_version cfg user with
  | Some version => bool_decide (version ∈ valid_address_versions cfg)
  | None => false
  end.

(** What the process did to the outside, and every commit. *)
Inductive event :=
| GetInfo (r : reply unit)
| GetBalance (r : reply Decimal)
| WalletPassphrase (r : reply unit)
| SetTxFee (r : reply unit)
| SendMany (recip : gmap string pynum) (r : reply string)
| GetTransaction (t : string) (r : reply wallet_tx)
| GetPayouts (r : reply (list (string * Z * string)))
| GetUnconfirmed (r : reply unconfirmed)
| ConfirmTransactions (tids : list string) (fees : gmap string Z)
                      (r : reply bool)
| UpdatePayouts (coin_txid : string) (pids : list string) (r : reply bool)
| RawInput (answer : string)
| Commit (table : list Payout)
| Rollback
| PullSummary (new repeat invalid : nat).

(** ** The process state and its monad *)

Record world := mkWorld {
  durable : list Payout;      (* the committed table in the sqlite file *)
  session : list Payout;      (* the session's view: durable + pending *)
  clock : nat;                (* readings of the clock taken so far *)
  journal : list event        (* oldest first *)
}.

Inductive outcome (A : Type) :=
| Returns (a : A)
| Raises (e : exn)
| Exits (code : Z).
Arguments Returns {A} a.
Arguments Raises {A} e.
Arguments Exits {A} code.

Definition M (A : Type) : Type := world → outcome A * world.

Definition ret {A} (a : A) : M A := λ w, (Returns a, w).

Definition bind {A B} (m : M A) (f : A → M B) : M B :=
  λ w, match m w with
       | (Returns a, w') => f a w'
       | (Raises e, w') => (Raises e, w')
       | (Exits c, w') => (Exits c, w')
       end.

Definition raise {A} (e : exn) : M A := λ w, (Raises e, w).

Definition sys_exit {A} (c : Z) : M A := λ w, (Exits c, w).

Global Instance M_ret : MRet M := @ret.
Global Instance M_bind : MBind M := λ A B f m, bind m f.

Definition emit (ev : event) : M unit :=
  λ w, (Returns tt,
        {| durable := durable w; session := session w; clock := clock w;
           journal := journal w ++ [ev] |}).

(** A call to the outside: journal it, then return or raise. *)
Definition ask {A} (r : reply A) (ev : reply A → event) : M A :=
  emit (ev r) ;;
  match r with
  | Ok a => ret a
  | Fails e => raise e
  end.

Definition now (env : environment) : M datetime :=
  λ w, (Returns (utcnow env (clock w)),
        {| durable := durable w; session := session w;
           clock := S (clock w); journal := journal w |}).

(** [for x in xs: body]. *)
Fixpoint for_each {A} (xs : list A) (body : A → M unit) : M unit :=
  match xs with
  | [] => ret tt
  | x :: xs' => body x ;; for_each xs' body
  end.

(** ** The session *)

(** A mapped object: the row's identity and the attributes it was loaded
    with. *)
Abbreviation object := (nat * Payout)%type (only parsing).

(** [session.query(Payout).filter(...)]: the rows of the session's view
    that pass, in table order. *)
Definition select (P : Payout → bool) (t : list Payout) : list object :=
  filter (λ o : object, P o.2 = true) (imap pair t).

Definition query (P : Payout → bool) : M (list object) :=
  λ w, (Returns (select P (session w)), w).

(** [obj.attr = v]: the row is dirty in the session, not yet in the file. *)
Definition setattr (o : object) (f : Payout → Payout) : M unit :=
  λ w, (Returns tt,
        {| durable := durable w; session := alter f o.1 (session w);
           clock := clock w; journal := journal w |}).

Definition add (r : Payout) : M unit :=
  λ w, (Returns tt,
        {| durable := durable w; session := session w ++ [r];
           clock := clock w; journal := journal w |}).

Definition commit : M unit :=
  λ w, (Returns tt,
        {| durable := session w; session := session w; clock := clock w;
           journal := journal w ++ [Commit (session w)] |}).

(** [sa.BigInteger] in the sqlite file: an integer of 64 bits with its
    sign. *)
Definition fits_bigint (a : Z) : bool :=
  (-9223372036854775808 <=? a) && (a <=? 9223372036854775807).

(** The rows added to the session and not yet committed. *)
Definition pending (w : world) : list Payout :=
  drop (length (durable w)) (session w).

(** The flush with which a query (the session autoflushes) and a commit
    begin: the pending rows are inserted.  An amount that is no signed
    64-bit integer cannot be bound to the statement: OverflowError, and
    the session's transaction is rolled back.  Only [pull_payouts] adds
    rows, so the flush is written out there and nowhere else: what the
    other commands set on a row (flags, txid, times) always binds. *)
Definition flush : M unit :=
  λ w, if forallb (λ r, fits_bigint (amount r)) (pending w)
       then (Returns tt, w)
       else (Raises OtherException,
             {| durable := durable w; session := durable w;
                clock := clock w; journal := journal w |}).

Definition rollback : M unit :=
  λ w, (Returns tt,
        {| durable := durable w; session := durable w; clock := clock w;
           journal := journal w ++ [Rollback] |}).

(** [session.query(Payout).update({...})] on a filtered query: a bulk
    UPDATE of the rows that pass. *)
Definition update_where (P : Payout → bool) (f : Payout → Payout) : M unit :=
  λ w, (Returns tt,
        {| durable := durable w;
           session := (λ r, if P r then f r else r) <$> session w;
           clock := clock w; journal := journal w |}).

(** ** Control flow *)

(** A loop that carries local variables. *)
Fixpoint fold_each {A S} (xs : list A) (s : S) (body : S → A → M S) : M S :=
  match xs with
  | [] => mret s
  | x :: xs' => s' ← body s x; fold_each xs' s' body
  end.

(** [try: body / except E: handler]. *)
Definition try_except {A} (body : M A) (caught : exn → bool)
    (handler : M A) : M A :=
  λ w, match body w with
       | (Raises e, w') => if caught e then handler w' else (Raises e, w')
       | r => r
       end.

Definition is_CoinRPCException (e : exn) : bool :=
  match e with CoinRPCException => true | _ => false end.

Definition is_JSONRPCException (e : exn) : bool :=
  match e with CoinRPCException | JSONRPCException => true | _ => false end.

Definition is_Exception (e : exn) : bool := true.

(** ** [RPCClient] *)

Definition poke_rpc (env : environment) : M unit :=
  try_except (ask (getinfo env) GetInfo) is_JSONRPCException
             (raise RPCException).

(** *** [payout_many] *)

Definition payout_many (cfg : config) (env : environment)
    (recip : gmap string pynum) : M string :=
  (if negb (String.eqb (wallet_pass cfg) "")
   then ask (walletpassphrase env) WalletPassphrase
   else mret tt) ;;
  ask (settxfee env) SetTxFee ;;
  ask (sendmany env recip) (SendMany recip).

(** *** [payout] *)

Definition unpaid_unlocked (r : Payout) : bool :=
  bool_decide (txid r = None) && negb (locked r).

(** [d.setdefault(k, 0); d[k] += a]. *)
Definition add_amount (k : string) (a : Z) (d : gmap string Z)
    : gmap string Z :=
  <[k := default 0 (d !! k) + a]> d.

(** [d.setdefault(k, []); d[k].append(x)]. *)
Definition append_to {A} (k : string) (x : A) (d : gmap string (list A))
    : gmap string (list A) :=
  <[k := default [] (d !! k) ++ [x]]> d.

(** [sum(d.values())]. *)
Definition sum_values (d : gmap string Z) : Z :=
  map_fold (λ _ v acc, acc + v) 0 d.

Definition fake_txid : string :=
  "1111111111111111111111111111111111111111111111111111111111111111".

(** The body of the first loop of [payout]. *)
Definition tally_and_lock (env : environment)
    (acc : gmap string Z * gmap string (list string)) (payout : object)
    : M (gmap string Z * gmap string (list string)) :=
  let user_payout_amounts :=
    add_amount (user payout.2) (amount payout.2) acc.1 in
  let pids := append_to (user payout.2) (pid payout.2) acc.2 in
  setattr payout (set_locked true) ;;
  t ← now env;
  setattr payout (set_lock_time t) ;;
  mret (user_payout_amounts, pids).

(** The body of the success loop of [payout]. *)
Definition record_paid (env : environment) (coin_txid : string)
    (payout : object) : M unit :=
  setattr payout (set_locked false) ;;
  setattr payout (set_txid coin_txid) ;;
  t ← now env;
  setattr payout (set_paid_time t).

(** [user_payout_amounts["test"] = 1.1], the dict as [payout_many]
    receives it. *)
Definition recipients (user_payout_amounts : gmap string Z)
    : gmap string pynum :=
  <["test"%string := float_1_1]> (PyInt <$> user_payout_amounts).

(** Log lines and the payment summary table (lines 300-301, 314-324) touch
    neither the table nor the outside and are left out.  The [try] block
    hands back either the value of a [return] inside it or [coin_txid]
    for the [else] block. *)
Definition payout (cfg : config) (env : environment) (simulate : bool)
    : M pyval :=
  poke_rpc env ;;
  payouts ← query unpaid_unlocked;
  match payouts with
  | [] => mret PyTrue
  | _ :: _ =>
    acc ← fold_each payouts (∅, ∅) (tally_and_lock env);
    let user_payout_amounts := acc.1 in
    let total_out := sum_values user_payout_amounts in
    b ← ask (getbalance_before env) GetBalance;
    let balance := satoshi b in
    if balance <? total_out then
      rollback ;; mret PyFalse
    else
      (if negb simulate then commit else rollback) ;;
      r ← try_except
            (if simulate then
               res ← ask (Ok (raw_input env)) (λ _, RawInput (raw_input env));
               if negb (String.eqb res "y") then mret (inl PyTrue)
               else mret (inr fake_txid)
             else
               coin_txid ← payout_many cfg env
                             (recipients user_payout_amounts);
               mret (inr coin_txid))
            is_CoinRPCException
            (nb ← ask (getbalance_after env) GetBalance;
             let new_balance := satoshi nb in
             if negb (new_balance =? balance) then mret (inl PyFalse)
             else
               for_each payouts (λ payout, setattr payout (set_locked false)) ;;
               mret (inl PyNone));
      match r with
      | inl v => mret v
      | inr coin_txid =>
        for_each payouts (record_paid env coin_txid) ;;
        commit ;;
        mret (PyStr coin_txid)
      end
  end.

(** *** [reset_all_locked] *)

Definition reset_all_locked (simulate : bool) : M pyval :=
  (if simulate then sys_exit 0 else mret tt) ;;
  update_where locked (set_locked false) ;;
  commit ;;
  mret PyNone.

(** *** [pull_payouts] *)

Definition has_pid (p : string) (r : Payout) : bool :=
  bool_decide (pid r = p).

(** The body of the loop of [pull_payouts]; the counters are
    [(new, repeat, invalid)].  The query for the pid flushes the rows
    added so far before it looks. *)
Definition pull_one (cfg : config) (env : environment)
    (cnt : nat * nat * nat) (item : string * Z * string)
    : M (nat * nat * nat) :=
  let '(new, repeat, invalid) := cnt in
  let '(user, amount, pid) := item in
  if address_ok cfg user then
    flush ;;
    found ← query (has_pid pid);
    match found with
    | [] =>
      t ← now env;
      add (new_payout pid user amount t) ;;
      mret (S new, repeat, invalid)
    | _ :: _ => mret (new, S repeat, invalid)
    end
  else mret (new, repeat, S invalid).

(** [session.commit()] begins with the flush of the rows still
    pending. *)
Definition pull_payouts (cfg : config) (env : environment) (simulate : bool)
    : M pyval :=
  payouts ← ask (get_payouts env) GetPayouts;
  cnt ← (if negb simulate then
           cnt ← fold_each payouts (0, 0, 0)%nat (pull_one cfg env);
           flush ;;
           commit ;;
           mret cnt
         else mret (0, 0, 0)%nat);
  emit (PullSummary cnt.1.1 cnt.1.2 cnt.2) ;;
  mret PyTrue.

(** *** [confirm_trans] *)

(** ['fee' in trans_data and not obj.get("fee") and 'fee' in obj]. *)
Definition wants_fee (trans_data : wallet_tx) (obj : remote_tx) : bool :=
  bool_decide (is_Some (fee trans_data))
  && negb (truthy (default JNull (obj_fee obj)))
  && bool_decide (is_Some (obj_fee obj)).

(** The body of the loop of [confirm_trans]; [n] counts the lookups. *)
Definition confirm_one (cfg : config) (env : environment)
    (acc : list string * gmap string Z) (item : nat * remote_tx)
    : M (list string * gmap string Z) :=
  let '(tids, fees) := acc in
  let '(n, obj) := item in
  r ← try_except
        (trans_data ← ask (gettransaction env n (obj_txid obj))
                          (GetTransaction (obj_txid obj));
         mret (Some trans_data))
        is_Exception
        (mret None);
  match r with
  | None => mret (tids, fees)
  | Some trans_data =>
    let tids :=
      if confirmations trans_data >? trans_confirmations cfg
      then tids ++ [obj_txid obj] else tids in
    if wants_fee trans_data obj then
      match fee trans_data with
      | Some (WDecimal d) => mret (tids, <[obj_txid obj := satoshi d]> fees)
      | _ => raise AssertionError
      end
    else mret (tids, fees)
  end.

Definition confirm_trans (cfg : config) (env : environment)
    (simulate : bool) : M pyval :=
  poke_rpc env ;;
  res ← ask (get_unconfirmed env) GetUnconfirmed;
  if negb (success res) then mret PyNone
  else
    acc ← fold_each (imap pair (objects res)) ([], ∅) (confirm_one cfg env);
    let '(tids, fees) := acc in
    if negb (bool_decide (tids = [])) || negb (bool_decide (fees = ∅)) then
      res ← ask (confirm_transactions env tids fees)
                (ConfirmTransactions tids fees);
      if res : bool then mret PyTrue else mret PyFalse
    else mret PyNone.

(** *** [associate] and [associate_all] *)

Definition unassociated_paid (r : Payout) : bool :=
  negb (associated r) && negb (bool_decide (txid r = None)).

Definition mark_associated (env : environment) (payout : object) : M unit :=
  setattr payout (set_associated true) ;;
  t ← now env;
  setattr payout (set_assoc_time t) ;;
  commit.

Definition associate (env : environment) (txid : string)
    (payouts : list object) : M pyval :=
  let pids := (λ p : object, pid p.2) <$> payouts in
  res ← ask (update_payouts env txid pids) (UpdatePayouts txid pids);
  if res : bool then
    for_each payouts (mark_associated env) ;;
    mret PyTrue
  else mret PyFalse.

(** The first loop of [associate_all]: group the objects by txid. *)
Definition group_by_txid (payouts : list object)
    : gmap string (list object) :=
  foldl (λ txids payout,
           match txid payout.2 with
           | Some t => append_to t payout txids
           | None => txids
           end) ∅ payouts.

(** The order of [txids.iteritems()] is the dict's own; [map_to_list]
    stands for it. *)
Definition associate_all (env : environment) (simulate : bool) : M pyval :=
  payouts ← query unassociated_paid;
  let txids := group_by_txid payouts in
  for_each (map_to_list txids)
    (λ '(txid, payouts),
       if simulate then mret tt
       else associate env txid payouts ;; mret tt) ;;
  mret PyNone.

(** *** [call] and [entry] *)

(** [except Exception: ... return False]; [SystemExit] is not caught. *)
Definition call (command : M pyval) : M pyval :=
  λ w, match command w with
       | (Raises _, w') => (Returns PyFalse, w')
       | r => r
       end.

Inductive action :=
| ConfirmTrans
| DoPayout
| PullPayouts
| ResetAllLocked
| DumpIncomplete
| AssociateAll.

(** [getattr(self, command)] applied to the flags; [dump_incomplete]
    only prints. *)
Definition command (cfg : config) (env : environment) (a : action)
    (simulate : bool) : M pyval :=
  match a with
  | ConfirmTrans => confirm_trans cfg env simulate
  | DoPayout => payout cfg env simulate
  | PullPayouts => pull_payouts cfg env simulate
  | ResetAllLocked => reset_all_locked simulate
  | DumpIncomplete => mret PyNone
  | AssociateAll => associate_all env simulate
  end.

(** A fresh process on the table [db]: nothing pending, clock and journal
    at their start. *)
Definition boot (db : list Payout) : world :=
  {| durable := db; session := db; clock := 0; journal := [] |}.

Definition entry (cfg : config) (env : environment) (a : action)
    (simulate : bool) (db : list Payout) : outcome pyval * world :=
  call (command cfg env a simulate) (boot db).

(** What is left when the process is gone: the committed table. *)
Definition store_after (r : outcome pyval * world) : list Payout :=
  durable r.2.

Definition returned (r : outcome pyval * world) : outcome pyval := r.1.

Definition journal_of (r : outcome pyval * world) : list event :=
  journal r.2.

(** ** The loops in closed form *)

(** What a loop over the objects [os] leaves in the session: the row of
    the k-th object is rewritten by [f (c + k)], [c] being the clock when
    the loop starts. *)
Fixpoint update_rows (f : nat → Payout → Payout) (c : nat)
    (os : list object) (t : list Payout) : list Payout :=
  match os with
  | [] => t
  | o :: os' => update_rows f (S c) os' (alter (f c) o.1 t)
  end.

Definition lock_row (env : environment) (c : nat) (r : Payout) : Payout :=
  set_lock_time (utcnow env c) (set_locked true r).

Definition unlock_row (c : nat) (r : Payout) : Payout := set_locked false r.

Definition paid_row (env : environment) (coin_txid : string) (c : nat)
    (r : Payout) : Payout :=
  set_paid_time (utcnow env c) (set_txid coin_txid (set_locked false r)).

Definition assoc_row (env : environment) (c : nat) (r : Payout) : Payout :=
  set_assoc_time (utcnow env c) (set_associated true r).

(** The two dicts of the first loop of [payout]. *)
Definition tally (acc : gmap string Z * gmap string (list string))
    (o : object) : gmap string Z * gmap string (list string) :=
  (add_amount (user o.2) (amount o.2) acc.1,
   append_to (user o.2) (pid o.2) acc.2).

(** The snapshot [payout] works on, and the dict it aggregates. *)
Definition batch (db : list Payout) : list object :=
  select unpaid_unlocked db.

Definition user_payout_amounts (db : list Payout) : gmap string Z :=
  (foldl tally (∅, ∅) (batch db)).1.

(** ** Reading the journal *)

(** The balances the wallet reported, in satoshi, in the order read. *)
Definition balance_reads (j : list event) : list Z :=
  omap (λ ev, match ev with
              | GetBalance (Ok d) => Some (satoshi d)
              | _ => None
              end) j.

(** The recipient dicts handed to [sendmany]. *)
Definition sends (j : list event) : list (gmap string pynum) :=
  omap (λ ev, match ev with
              | SendMany recip _ => Some recip
              | _ => None
              end) j.

(** A call of [payout_many] that raised. *)
Definition failed_send (ev : event) : bool :=
  match ev with
  | WalletPassphrase (Fails _) | SetTxFee (Fails _)
  | SendMany _ (Fails _) => true
  | _ => false
  end.

Definition send_failed (j : list event) : bool := existsb failed_send j.

(** The tables the process committed, in order. *)
Definition commits (j : list event) : list (list Payout) :=
  omap (λ ev, match ev with Commit t => Some t | _ => None end) j.

(** ** How a stored row may change *)

(** [r'] is what the command [a] may leave of the stored row [r]. *)
Record evolves (a : action) (r r' : Payout) : Prop := mkEvolves {
  same_pid : pid r' = pid r;
  same_user : user r' = user r;
  same_amount : amount r' = amount r;
  same_pull_time : pull_time r' = pull_time r;
  txid_kept : txid r ≠ None → txid r' = txid r;
  associated_sound :
    associated r' = true → associated r = true ∨ txid r ≠ None;
  lock_kept : a ≠ ResetAllLocked → locked r = true → locked r' = true
}.

(** A computation that leaves both the file and the session alone. *)
Definition keeps_tables {A} (m : M A) : Prop :=
  ∀ w, durable (m w).2 = durable w ∧ session (m w).2 = session w.

(** One turn of the loop of [pull_payouts] on the session's table [t],
    the clock [c] and the counters, when its flush passes. *)
Definition pull_step (cfg : config) (env : environment)
    (st : list Payout * nat * (nat * nat * nat))
    (item : string * Z * string) : list Payout * nat * (nat * nat * nat) :=
  let '(t, c, (new, repeat, invalid)) := st in
  let '(user, amount, pid) := item in
  if address_ok cfg user then
    match select (has_pid pid) t with
    | [] => (t ++ [new_payout pid user amount (utcnow env c)], S c,
             (S new, repeat, invalid))
    | _ :: _ => (t, c, (new, S repeat, invalid))
    end
  else (t, c, (new, repeat, S invalid)).

(** Every row that a real [pull_payouts] adds to the table [db] for the
    list [items] fits its column: no flush of the run fails. *)
Definition pull_fits (cfg : config) (env : environment) (db : list Payout)
    (items : list (string * Z * string)) : bool :=
  forallb (λ r, fits_bigint (amount r))
    (drop (length db)
       (foldl (pull_step cfg env) (db, 0%nat, (0, 0, 0)%nat) items).1.1).

(** The outside of [env], with a remote that offers the list [items]. *)
Definition offering (env : environment) (items : list (string * Z * string))
    : environment :=
  {| utcnow := utcnow env;
     getinfo := getinfo env;
     getbalance_before := getbalance_before env;
     getbalance_after := getbalance_after env;
     walletpassphrase := walletpassphrase env;
     settxfee := settxfee env;
     sendmany := sendmany env;
     gettransaction := gettransaction env;
     get_payouts := Ok items;
     get_unconfirmed := get_unconfirmed env;
     confirm_transactions := confirm_transactions env;
     update_payouts := update_payouts env;
     raw_input := raw_input env |}.

(** A row as [pull_payouts] inserts it. *)
Definition fresh_row (r : Payout) : Prop :=
  txid r = None ∧ associated r = false ∧ locked r = false.

(** A property [T] of tables that holds of the file and of the session,
    and a computation that keeps it so. *)
Definition tables_inv (T : list Payout → Prop) (w : world) : Prop :=
  T (durable w) ∧ T (session w).

Definition preserves {A} (T : list Payout → Prop) (m : M A) : Prop :=
  ∀ w, tables_inv T w → tables_inv T (m w).2.

(** What [associate_all], started on [db], may have made of it: a row is
    as it was, or it was paid and unassociated and is now marked. *)
Definition assoc_table (env : environment) (db t : list Payout) : Prop :=
  length t = length db
  ∧ ∀ i r, db !! i = Some r →
      ∃ r', t !! i = Some r'
            ∧ (r' = r
               ∨ (unassociated_paid r = true ∧ ∃ n, r' = assoc_row env n r)).

(** [t'] is [t] with rows appended as [pull_payouts] appends them: fresh,
    with pids that are new to the table and differ from one another. *)
Definition pulled_onto (t t' : list Payout) : Prop :=
  ∃ added, t' = t ++ added
           ∧ Forall fresh_row added
           ∧ (∀ r, r ∈ added → pid r ∉ pid <$> t)
           ∧ NoDup (pid <$> added).

(** The counters [pull_payouts] logs. *)
Definition pull_summary (j : list event) : option (nat * nat * nat) :=
  head (omap (λ ev, match ev with
                    | PullSummary n r i => Some (n, r, i)
                    | _ => None
                    end) j).

(** The stored rows that carry the external id [p]. *)
Definition rows_with (p : string) (t : list Payout) : list Payout :=
  filter (λ r, pid r = p) t.

(** ** Runs of several processes *)

(** One process: its configuration, what the outside answers it, the
    command and the [--simulate] flag. *)
Record invocation := mkInvocation {
  inv_cfg : config;
  inv_env : environment;
  inv_action : action;
  inv_simulate : bool
}.

Definition invoke (db : list Payout) (x : invocation) : list Payout :=
  store_after (entry (inv_cfg x) (inv_env x) (inv_action x)
                     (inv_simulate x) db).

(** The table after the processes [xs] ran one after the other. *)
Definition run (xs : list invocation) (db : list Payout) : list Payout :=
  foldl invoke db xs.

(** [associated = True] only on rows that carry a txid. *)
Definition coherent (t : list Payout) : Prop :=
  ∀ r, r ∈ t → associated r = true → txid r ≠ None.

(** ** Reading [confirm_trans] *)

(** The remote's object has a 'fee' key and nothing in it: null, zero,
    false or the empty string. *)
Definition fee_unpopulated (obj : remote_tx) : Prop :=
  ∃ v, obj_fee obj = Some v ∧ truthy v = false.

Definition is_lookup (ev : event) : Prop :=
  ∃ t r, ev = GetTransaction t r.

(** ** The aggregation, as the specification words it *)

Definition zsum (l : list Z) : Z := foldr Z.add 0 l.

(** The amount owed to the beneficiary [u] by the records of a snapshot:
    the sum of the amounts of that beneficiary's records, and nothing for
    a beneficiary without a record. *)
Definition spec_amount (snapshot : list Payout) (u : string) : option Z :=
  if bool_decide (u ∈ user <$> snapshot)
  then Some (zsum (amount <$> filter (λ r, user r = u) snapshot))
  else None.

(** A recipient dict that is exactly that aggregation: one entry per
    beneficiary of the snapshot, and no other. *)
Definition is_aggregation (snapshot : list Payout)
    (recip : gmap string pynum) : Prop :=
  ∀ u, recip !! u = PyInt <$> spec_amount snapshot u.

(** ** Sample data *)

Definition demo_cfg : config :=
  {| get_bcaddress_version :=
       λ u, if String.prefix "1" u then Some 0 else None;
     valid_address_versions := [0];
     trans_confirmations := 6;
     wallet_pass := "" |}.

(** Two obligations of one beneficiary, as [pull_payouts] stored them. *)
Definition demo_db : list Payout :=
  [ new_payout "ext-1" "1ABC" 500000000 0%nat;
    new_payout "ext-2" "1ABC" 250000000 1%nat ].

(** The same two after a payout in the transaction "tx-1". *)
Definition demo_paid_db : list Payout :=
  [ set_txid "tx-1" (new_payout "ext-1" "1ABC" 500000000 0%nat);
    set_txid "tx-1" (new_payout "ext-2" "1ABC" 250000000 1%nat) ].

(** A wallet that answers the two balance queries with [before] and
    [after] and the send with [sent]; a remote that offers the payout
    list [offered] and the unconfirmed objects [unconf], and accepts
    what is pushed to it. *)
Definition demo_env (before after : Decimal) (sent : reply string)
    (offered : list (string * Z * string)) (unconf : list remote_tx)
    (lookup : reply wallet_tx) : environment :=
  {| utcnow := λ n, n;
     getinfo := Ok tt;
     getbalance_before := Ok before;
     getbalance_after := Ok after;
     walletpassphrase := Ok tt;
     settxfee := Ok tt;
     sendmany := λ _, sent;
     gettransaction := λ _ _, lookup;
     get_payouts := Ok offered;
     get_unconfirmed := Ok {| success := true; objects := unconf |};
     confirm_transactions := λ _ _, Ok true;
     update_payouts := λ _ _, Ok true;
     raw_input := "n" |}.

(** 20, 12.5 and 5 coins. *)
Definition coins_20 : Decimal := mkDecimal 2000000000 (-8).
Definition coins_12_5 : Decimal := mkDecimal 125 (-1).
Definition coins_5 : Decimal := mkDecimal 5 0.

(** A fee of 0.0001 coins, as the wallet reports it. *)
Definition demo_lookup : wallet_tx :=
  {| confirmations := 10; fee := Some (WDecimal (mkDecimal (-1) (-4))) |}.

Definition env_send_ok : environment :=
  demo_env coins_20 coins_20 (Ok "tx-1"%string) [] [] (Fails CoinRPCException).

Definition env_send_fails_unchanged : environment :=
  demo_env coins_20 coins_20 (Fails CoinRPCException) [] []
           (Fails CoinRPCException).

Definition env_send_fails_changed : environment :=
  demo_env coins_20 coins_12_5 (Fails CoinRPCException) [] []
           (Fails CoinRPCException).

Definition env_low_balance : environment :=
  demo_env coins_5 coins_5 (Ok "tx-1"%string) [] [] (Fails CoinRPCException).

(** The remote offers "ext-1" again, once with its address and once with
    an address that fails the version check. *)
Definition env_offers_again : environment :=
  demo_env coins_20 coins_20 (Ok "tx-1"%string)
           [("1ABC"%string, 500000000, "ext-1"%string)] []
           (Fails CoinRPCException).

Definition env_offers_bad_address : environment :=
  demo_env coins_20 coins_20 (Ok "tx-1"%string)
           [("xyz"%string, 500000000, "ext-1"%string)] []
           (Fails CoinRPCException).

(** One unconfirmed transaction; the remote's object has no 'fee' key in
    the first and an empty one in the second. *)
Definition env_no_fee_key : environment :=
  demo_env coins_20 coins_20 (Ok "tx-1"%string) []
           [ {| obj_txid := "tx-1"; obj_fee := None |} ] (Ok demo_lookup).

Definition env_empty_fee : environment :=
  demo_env coins_20 coins_20 (Ok "tx-1"%string) []
           [ {| obj_txid := "tx-1"; obj_fee := Some JNull |} ]
           (Ok demo_lookup).

(** Processes that may follow a payout: a pull, another payout, an
    association, a confirmation. *)
Definition demo_later : list invocation :=
  [ mkInvocation demo_cfg env_offers_again PullPayouts false;
    mkInvocation demo_cfg env_send_ok DoPayout false;
    mkInvocation demo_cfg env_send_ok AssociateAll false;
    mkInvocation demo_cfg env_empty_fee ConfirmTrans false ].

Definition demo_pulls : list invocation :=
  [ mkInvocation demo_cfg env_offers_again PullPayouts false;
    mkInvocation demo_cfg env_offers_bad_address PullPayouts false;
    mkInvocation demo_cfg env_offers_again PullPayouts false ].

(** The two obligations locked by a payout whose outcome is unknown. *)
Definition demo_locked_db : list Payout :=
  [ lock_row env_send_ok 0
      (new_payout "ext-1" "1ABC" 500000000 0%nat);
    new_payout "ext-2" "1ABC" 250000000 1%nat ].

(** ** More ways to read the journal *)

(** The journal up to the first [sendmany]. *)
Fixpoint before_send (j : list event) : list event :=
  match j with
  | [] => []
  | SendMany _ _ :: _ => []
  | ev :: j' => ev :: before_send j'
  end.

(** A wallet call that prepares or makes a payment. *)
Definition is_wallet_write (ev : event) : bool :=
  match ev with
  | WalletPassphrase _ | SetTxFee _ | SendMany _ _ => true
  | _ => false
  end.

(** An operator who accepts the simulated payout at the prompt. *)
Definition env_simulate_yes : environment :=
  {| utcnow := λ n, n;
     getinfo := Ok tt;
     getbalance_before := Ok coins_20;
     getbalance_after := Ok coins_20;
     walletpassphrase := Ok tt;
     settxfee := Ok tt;
     sendmany := λ _, Ok "tx-1"%string;
     gettransaction := λ _ _, Fails CoinRPCException;
     get_payouts := Ok [];
     get_unconfirmed := Fails RPCException;
     confirm_transactions := λ _ _, Ok true;
     update_payouts := λ _ _, Ok true;
     raw_input := "y" |}.

(** A wallet whose send times out, and one that cannot be asked its
    balance. *)
Definition env_send_times_out : environment :=
  demo_env coins_20 coins_20 (Fails OtherException) [] []
           (Fails CoinRPCException).

Definition env_balance_unreadable : environment :=
  {| utcnow := λ n, n;
     getinfo := Ok tt;
     getbalance_before := Fails CoinRPCException;
     getbalance_after := Fails CoinRPCException;
     walletpassphrase := Ok tt;
     settxfee := Ok tt;
     sendmany := λ _, Ok "tx-1"%string;
     gettransaction := λ _ _, Fails CoinRPCException;
     get_payouts := Ok [];
     get_unconfirmed := Fails RPCException;
     confirm_transactions := λ _ _, Ok true;
     update_payouts := λ _ _, Ok true;
     raw_input := "n" |}.

(** The wallet lookups [confirm_trans] made, with their answers. *)
Definition lookups (j : list event) : list (string * reply wallet_tx) :=
  omap (λ ev, match ev with
              | GetTransaction t r => Some (t, r)
              | _ => None
              end) j.

(** The pushes [confirm_trans] made. *)
Definition confirm_pushes (j : list event)
    : list (list string * gmap string Z * reply bool) :=
  omap (λ ev, match ev with
              | ConfirmTransactions tids fees r => Some (tids, fees, r)
              | _ => None
              end) j.

(** The state of a run of [associate_all] on [db] in which the objects at
    the places [done] have been marked: nothing is pending, every row
    keeps its txid and an associated row stays so, and the rows at
    [done] are associated. *)
Definition marked (db : list Payout) (done : list nat) (w : world) : Prop :=
  durable w = session w
  ∧ length (session w) = length db
  ∧ (∀ i r, db !! i = Some r →
       ∃ r', session w !! i = Some r' ∧ txid r' = txid r
             ∧ (associated r = true → associated r' = true))
  ∧ (∀ i, i ∈ done → ∃ r', session w !! i = Some r' ∧ associated r' = true).

(** The pushes [associate_all] made. *)
Definition association_pushes (j : list event)
    : list (string * list string * reply bool) :=
  omap (λ ev, match ev with
              | UpdatePayouts t pids r => Some (t, pids, r)
              | _ => None
              end) j.

(** A remote that refuses every association. *)
Definition env_refuses : environment :=
  {| utcnow := λ n, n;
     getinfo := Ok tt;
     getbalance_before := Ok coins_20;
     getbalance_after := Ok coins_20;
     walletpassphrase := Ok tt;
     settxfee := Ok tt;
     sendmany := λ _, Ok "tx-1"%string;
     gettransaction := λ _ _, Fails CoinRPCException;
     get_payouts := Ok [];
     get_unconfirmed := Fails RPCException;
     confirm_transactions := λ _ _, Ok false;
     update_payouts := λ _ _, Ok false;
     raw_input := "n" |}.

(** ** The reports *)

Module Report.

(** A value in a cell of a table. *)
Inductive cell :=
| CStr (s : string)
| CInt (n : Z)
| CBool (b : bool).

(** What a report writes to the standard output: a line of text, or the
    grid that [tabulate(data, headers=headers, tablefmt="grid")] draws. *)
Inductive printed :=
| Line (s : string)
| Grid (headers : list string) (data : list (list cell)).

(** [Payout.trans_id]. *)
Definition trans_id (r : Payout) : string :=
  match txid r with
  | None => "NULL"
  | Some t => t
  end.

(** [Payout.amount_float]: [/] between two integers of Python 2 is the
    floor division. *)
Definition amount_float (r : Payout) : Z := amount r / 100000000.

(** The columns [_tabulate] shows when it is given none, which is how
    every report calls it. *)
Definition headers : list string :=
  ["pid"; "user"; "amount_float"; "associated"; "locked"; "trans_id"].

(** [p.tabulize(headers)] on these columns. *)
Definition tabulize (r : Payout) : list cell :=
  [CStr (pid r); CStr (user r); CInt (amount_float r);
   CBool (associated r); CBool (locked r); CStr (trans_id r)].

Definition _tabulate (title : string) (query : list object) : list printed :=
  let data := (λ p : object, tabulize p.2) <$> query in
  [ Line ("@@ " +:+ title +:+ " @@");
    match data with
    | [] => Line "-- Nothing to display --"
    | _ => Grid headers data
    end;
    Line "" ].

(** [filter_by(txid=None, locked=True)]. *)
Definition is_unpaid_locked (r : Payout) : bool :=
  bool_decide (txid r = None) && locked r.

Definition unpaid_locked (t : list Payout) : list printed :=
  _tabulate "Unpaid locked payouts" (select is_unpaid_locked t).

Definition paid_unassoc (t : list Payout) : list printed :=
  _tabulate "Paid un-associated payouts" (select unassociated_paid t).

Definition unpaid_unlocked (t : list Payout) : list printed :=
  _tabulate "Payouts ready to payout" (select unpaid_unlocked t).

(** [dump_incomplete] on the session's table [t]; the reports read and
    print, and write nothing. *)
Definition dump_incomplete (unpaid_locked paid_unassoc unpaid_unlocked : bool)
    (t : list Payout) : list printed :=
  (if unpaid_locked then Report.unpaid_locked t else [])
  ++ (if paid_unassoc then Report.paid_unassoc t else [])
  ++ (if unpaid_unlocked then Report.unpaid_unlocked t else []).

(** The rows of the grids of a printout, from top to bottom. *)
Definition listed (out : list printed) : list (list cell) :=
  out ≫= (λ p, match p with
               | Line _ => []
               | Grid _ data => data
               end).

End Report.

(** A row whose payout is over: it has a txid and the remote knows it. *)
Definition closed (r : Payout) : bool :=
  negb (bool_decide (txid r = None)) && associated r.

(** ** The configuration *)

Module Config.

(** The values of a configuration file: scalars, lists of scalars and
    mappings to scalars. *)
Inductive scalar :=
| SNone
| SInt (n : Z)
| SStr (s : string).

Inductive value :=
| VScalar (a : scalar)
| VList (l : list scalar)
| VDict (d : list (string * scalar)).

Definition VNone : value := VScalar SNone.
Definition VInt (n : Z) : value := VScalar (SInt n).
Definition VStr (s : string) : value := VScalar (SStr s).

(** How [_set_config] ends. *)
Inductive result :=
| Configured (config : gmap string value)
| Exit (code : Z).

(** The defaults; [base] is the directory above the module's. *)
Definition defaults (base : string) : gmap string value :=
  {[ "coinserv"%string := VNone;
     "valid_address_versions"%string := VList [];
     "max_age"%string := VInt 10;
     "logger_name"%string := VStr "rpc";
     "log_level"%string := VStr "INFO";
     "database_path"%string := VStr (base +:+ "/rpc.sqlite");
     "log_path"%string := VStr (base +:+ "/rpc.log") ]}.

Definition required_conf : list string :=
  ["coinserv"; "valid_address_versions"; "currency_code";
   "rpc_signature"; "rpc_url"]%string.

(** [d.update(kwargs)]. *)
Definition update (d kwargs : gmap string value) : gmap string value :=
  kwargs ∪ d.

(** [_set_config]: the lines printed and the end. *)
Definition _set_config (base : string) (kwargs : gmap string value)
    : list string * result :=
  let config := update (defaults base) kwargs in
  let st :=
    foldl (λ (st : list string * bool) req,
             if bool_decide (config !! req = None)
             then (st.1 ++ [req +:+ " is a required configuration variable"],
                   true)
             else st)
          ([], false) required_conf in
  (st.1, if st.2 then Exit 1 else Configured config).

End Config.

(** ** More sample data *)

(** A wallet that does not answer. *)
Definition env_wallet_down : environment :=
  {| utcnow := λ n, n;
     getinfo := Fails CoinRPCException;
     getbalance_before := Fails CoinRPCException;
     getbalance_after := Fails CoinRPCException;
     walletpassphrase := Fails CoinRPCException;
     settxfee := Fails CoinRPCException;
     sendmany := λ _, Fails CoinRPCException;
     gettransaction := λ _ _, Fails CoinRPCException;
     get_payouts := Ok [];
     get_unconfirmed := Ok {| success := true; objects := [] |};
     confirm_transactions := λ _ _, Ok true;
     update_payouts := λ _ _, Ok true;
     raw_input := "n" |}.

(** One unconfirmed transaction with an empty fee on the remote, for
    which the wallet reports the fee as the integer 0. *)
Definition env_integer_fee : environment :=
  demo_env coins_20 coins_20 (Ok "tx-1"%string) []
           [ {| obj_txid := "tx-1"; obj_fee := Some JNull |} ]
           (Ok {| confirmations := 10; fee := Some (WInt 0) |}).

(** A configuration file with the three keys that have no default, and
    a log level of its own. *)
Definition demo_kwargs : gmap string Config.value :=
  {[ "currency_code"%string := Config.VStr "BTC";
     "rpc_signature"%string := Config.VStr "secret";
     "rpc_url"%string := Config.VStr "http://localhost:9000";
     "log_level"%string := Config.VStr "DEBUG" ]}.

(** * Properties *)

(** ** Rows and selections *)

Lemma length_update_rows f c os t :
  length (update_rows f c os t) = length t.
Proof.
  revert c t. induction os as [|o os IH]; intros c t; simpl; [done|].
  by rewrite IH, length_alter.
Qed.

Lemma update_rows_lookup_other f c os t i :
  i ∉ os.*1 → update_rows f c os t !! i = t !! i.
Proof.
  revert c t. induction os as [|o os IH]; intros c t Hi; simpl; [done|].
  rewrite fmap_cons, not_elem_of_cons in Hi. destruct Hi as [Hne Hi].
  rewrite IH by done. by apply list_lookup_alter_ne.
Qed.

Lemma update_rows_lookup f c os t k o :
  NoDup os.*1 → os !! k = Some o →
  update_rows f c os t !! o.1 = f (c + k)%nat <$> t !! o.1.
Proof.
  revert c t k. induction os as [|o' os IH]; intros c t k Hnd Hk; [done|].
  rewrite fmap_cons in Hnd. apply NoDup_cons in Hnd as [Hnotin Hnd].
  destruct k as [|k]; simpl in *.
  - injection Hk as ->. rewrite update_rows_lookup_other by done.
    rewrite list_lookup_alter_eq. by rewrite Nat.add_0_r.
  - rewrite (IH (S c) _ k) by done.
    rewrite list_lookup_alter_ne.
    + by rewrite Nat.add_succ_r.
    + intros Heq. apply Hnotin. apply list_elem_of_fmap.
      exists o. split; [done|]. by eapply list_elem_of_lookup_2.
Qed.

Lemma elem_of_select P t i r :
  (i, r) ∈ select P t ↔ t !! i = Some r ∧ P r = true.
Proof.
  unfold select. rewrite list_elem_of_filter, elem_of_lookup_imap.
  simpl. split.
  - intros (HP & i' & r' & [= -> ->] & H). done.
  - intros [H HP]. split; [done|]. by exists i, r.
Qed.

Lemma select_lookup P t k o :
  select P t !! k = Some o → t !! o.1 = Some o.2 ∧ P o.2 = true.
Proof.
  intros H. apply list_elem_of_lookup_2 in H.
  destruct o as [i r]. by apply elem_of_select in H.
Qed.

Lemma fst_imap_pair {A} (t : list A) : (imap pair t).*1 = seq 0 (length t).
Proof.
  assert (∀ n, (imap (λ i, pair (n + i)%nat) t).*1 = seq n (length t)) as H.
  { induction t as [|x t IH]; intros n; simpl; [done|].
    rewrite Nat.add_0_r. f_equal. rewrite <- IH.
    f_equal. apply imap_ext. intros i y _. simpl. f_equal. lia. }
  apply (H 0%nat).
Qed.

Lemma select_NoDup P t : NoDup (select P t).*1.
Proof.
  unfold select. apply (sublist_NoDup _ (imap pair t).*1).
  - rewrite fst_imap_pair. apply NoDup_seq.
  - apply fmap_sublist, sublist_filter.
Qed.

(** A row outside the selection is not touched by a loop over it. *)
Lemma update_select_other f c P t i r :
  t !! i = Some r → P r = false →
  update_rows f c (select P t) t !! i = Some r.
Proof.
  intros Hi HP. rewrite update_rows_lookup_other; [done|].
  intros Hin. apply list_elem_of_fmap in Hin as ([i' r'] & -> & Hin).
  apply elem_of_select in Hin as [Hi' HP']. simpl in *. congruence.
Qed.

(** A selected row is rewritten once, by the loop's step at its place. *)
Lemma update_select_lookup f c P t i r :
  t !! i = Some r → P r = true →
  ∃ k, select P t !! k = Some (i, r)
       ∧ update_rows f c (select P t) t !! i = Some (f (c + k)%nat r).
Proof.
  intros Hi HP.
  assert ((i, r) ∈ select P t) as Hin by by apply elem_of_select.
  apply list_elem_of_lookup_1 in Hin as [k Hk]. exists k. split; [done|].
  rewrite (update_rows_lookup f c _ t k (i, r)); [|apply select_NoDup|done].
  simpl. by rewrite Hi.
Qed.

(** ** The loops, run *)

Lemma run_lock_loop env os acc w :
  fold_each os acc (tally_and_lock env) w =
  (Returns (foldl tally acc os),
   {| durable := durable w;
      session := update_rows (lock_row env) (clock w) os (session w);
      clock := (clock w + length os)%nat;
      journal := journal w |}).
Proof.
  revert acc w. induction os as [|o os IH]; intros acc [d s c j]; simpl.
  - by rewrite Nat.add_0_r.
  - unfold mbind, M_bind, bind at 1. simpl. rewrite IH. simpl.
    rewrite list_alter_alter_eq. do 3 f_equal. lia.
Qed.

Lemma run_unlock_loop os w :
  for_each os (λ payout, setattr payout (set_locked false)) w =
  (Returns tt,
   {| durable := durable w;
      session := update_rows unlock_row 0 os (session w);
      clock := clock w;
      journal := journal w |}).
Proof.
  assert (∀ n, for_each os (λ payout, setattr payout (set_locked false)) w =
    (Returns tt,
     {| durable := durable w;
        session := update_rows unlock_row n os (session w);
        clock := clock w; journal := journal w |})) as H; [|apply H].
  revert w. induction os as [|o os IH]; intros [d s c j] n; simpl; [done|].
  unfold mbind, M_bind, bind at 1. simpl. by rewrite (IH _ (S n)).
Qed.

Lemma run_paid_loop env coin_txid os w :
  for_each os (record_paid env coin_txid) w =
  (Returns tt,
   {| durable := durable w;
      session := update_rows (paid_row env coin_txid) (clock w) os (session w);
      clock := (clock w + length os)%nat;
      journal := journal w |}).
Proof.
  revert w. induction os as [|o os IH]; intros [d s c j]; simpl.
  - by rewrite Nat.add_0_r.
  - unfold mbind, M_bind, bind at 1. simpl. rewrite IH. simpl.
    rewrite !list_alter_alter_eq. do 3 f_equal. lia.
Qed.

(** ** Running [payout] by cases *)

Arguments fold_each : simpl never.
Arguments for_each : simpl never.
Arguments update_rows : simpl never.
Arguments select : simpl never.
Arguments sum_values : simpl never.
Arguments recipients : simpl never.
Arguments satoshi : simpl never.
Arguments String.eqb : simpl never.
Arguments address_ok : simpl never.

Ltac unfold_monad :=
  unfold mbind, M_bind, bind, mret, M_ret, ret, raise, sys_exit, ask, emit,
    query, commit, rollback, try_except, now, add, setattr, update_where in *.

(** One step of the run recorded in [H : r = ...]: a loop is replaced by
    its closed form, or the next answer of the outside is split. *)
Ltac step_in H :=
  first
  [ progress unfold_monad
  | rewrite run_lock_loop in H
  | rewrite run_unlock_loop in H
  | rewrite run_paid_loop in H
  | progress simpl in H
  | match type of H with
    | context [match ?x with _ => _ end] =>
        lazymatch x with
        | context [match _ with _ => _ end] => fail
        | _ => destruct x eqn:?
        end
    end ].

Lemma list_nil_or_cons {A} (l : list A) : l = [] ∨ ∃ x l', l = x :: l'.
Proof. destruct l; eauto. Qed.

(** Every path of [payout] from a fresh process, one goal each. *)
Ltac payout_cases H :=
  unfold entry, call, command, payout, payout_many, boot, poke_rpc in H;
  unfold_monad; simpl in H;
  destruct (getinfo _) as [[]|[]] eqn:?; simpl in H;
  [ match type of H with
    | context [select unpaid_unlocked ?db] =>
        change (select unpaid_unlocked db) with (batch db) in H;
        let o := fresh "o" in
        let os := fresh "os" in
        let Hb := fresh "Hbatch" in
        destruct (list_nil_or_cons (batch db)) as [Hb|(o & os & Hb)];
        rewrite Hb in H; simpl in H;
        [ | rewrite <- Hb in H;
            assert (batch db ≠ []) by (rewrite Hb; discriminate);
            clear Hb o os; repeat step_in H;
            repeat match goal with
                   | E : negb _ = _ |- _ => progress simpl in E
                   end;
            try match goal with
                | E : true = false |- _ => discriminate E
                | E : false = true |- _ => discriminate E
                end;
            change (foldl tally (∅, ∅) (batch db)).1
              with (user_payout_amounts db) in * ]
    end
  | .. ].

(** Membership in a journal that is written out. *)
Ltac inv_elem H :=
  repeat (apply elem_of_cons in H as [H|H];
          [ try discriminate H; try (injection H as H); subst | ]);
  try (by apply elem_of_nil in H).

Lemma batch_lookup db k o :
  batch db !! k = Some o → db !! o.1 = Some o.2 ∧ unpaid_unlocked o.2 = true.
Proof. apply select_lookup. Qed.

Lemma batch_update_lookup f c db t k o :
  batch db !! k = Some o →
  update_rows f c (batch db) t !! o.1 = f (c + k)%nat <$> t !! o.1.
Proof. apply update_rows_lookup, select_NoDup. Qed.

Lemma unpaid_unlocked_true r :
  unpaid_unlocked r = true ↔ txid r = None ∧ locked r = false.
Proof.
  unfold unpaid_unlocked.
  rewrite andb_true_iff, bool_decide_eq_true, negb_true_iff. done.
Qed.

Lemma evolves_refl a r : evolves a r r.
Proof. by constructor; auto. Qed.

(** A row that is neither paid nor locked may get any lock and txid. *)
Lemma evolves_unpaid a r r' :
  txid r = None → locked r = false →
  pid r' = pid r → user r' = user r → amount r' = amount r →
  pull_time r' = pull_time r → associated r' = associated r →
  evolves a r r'.
Proof.
  intros Htx Hl ? ? ? ? Ha. constructor; try done.
  - rewrite Ha. auto.
  - rewrite Hl. done.
Qed.

Lemma batch_cases db i r :
  db !! i = Some r →
  (unpaid_unlocked r = false ∧ i ∉ (batch db).*1)
  ∨ (unpaid_unlocked r = true ∧ ∃ k, batch db !! k = Some (i, r)).
Proof.
  intros Hi. destruct (unpaid_unlocked r) eqn:Hu; [right|left]; split; try done.
  - apply list_elem_of_lookup_1. by apply elem_of_select.
  - intros Hin. apply list_elem_of_fmap in Hin as ([i' r'] & -> & Hin).
    apply elem_of_select in Hin as [Hi' HP']. simpl in *. congruence.
Qed.

(** [payout] rewrites no row outside its batch, and of a batch row only
    the lock, the lock and paid times and the unset txid. *)
Lemma payout_rows cfg env simulate db i r :
  db !! i = Some r →
  ∃ r', store_after (entry cfg env DoPayout simulate db) !! i = Some r'
        ∧ evolves DoPayout r r'
        ∧ (unpaid_unlocked r = false → r' = r).
Proof.
  intros Hi. remember (entry cfg env DoPayout simulate db) as res eqn:Hr.
  destruct (batch_cases db i r Hi) as [[Hu Hni]|[Hu [k Hk]]].
  - exists r. split; [|split; [apply evolves_refl|done]].
    payout_cases Hr; subst res; unfold store_after; simpl;
      rewrite ?update_rows_lookup_other by done; done.
  - destruct (proj1 (unpaid_unlocked_true r) Hu) as [Htx Hl].
    payout_cases Hr; subst res; unfold store_after; simpl;
      rewrite ?(batch_update_lookup _ _ _ _ _ _ Hk); simpl; rewrite ?Hi;
      simpl; (eexists; split; [done|]); (split; [|intros; congruence]);
      by apply evolves_unpaid.
Qed.

Lemma payout_length cfg env simulate db :
  length (store_after (entry cfg env DoPayout simulate db)) = length db.
Proof.
  remember (entry cfg env DoPayout simulate db) as res eqn:Hr.
  payout_cases Hr; subst res; unfold store_after; simpl;
    rewrite ?length_update_rows; done.
Qed.

(** ** [confirm_trans] leaves the table alone *)

Lemma keeps_ret {A} (a : A) : keeps_tables (mret a : M A).
Proof. done. Qed.

Lemma keeps_raise {A} e : keeps_tables (raise e : M A).
Proof. done. Qed.

Lemma keeps_bind {A B} (m : M A) (f : A → M B) :
  keeps_tables m → (∀ a, keeps_tables (f a)) → keeps_tables (m ≫= f).
Proof.
  intros Hm Hf w. unfold mbind, M_bind, bind.
  destruct (Hm w) as [Hd Hs]. destruct (m w) as [[a|e|c] w']; simpl in *;
    [|done..].
  destruct (Hf a w') as [Hd' Hs']. split; congruence.
Qed.

Lemma keeps_emit ev : keeps_tables (emit ev).
Proof. done. Qed.

Lemma keeps_ask {A} (r : reply A) ev : keeps_tables (ask r ev).
Proof.
  unfold ask. apply keeps_bind; [apply keeps_emit|].
  intros _. destruct r; [apply keeps_ret|apply keeps_raise].
Qed.

Lemma keeps_try_except {A} (body handler : M A) caught :
  keeps_tables body → keeps_tables handler →
  keeps_tables (try_except body caught handler).
Proof.
  intros Hb Hh w. unfold try_except.
  destruct (Hb w) as [Hd Hs]. destruct (body w) as [[a|e|c] w']; simpl in *;
    [done| |done].
  destruct (caught e); [|done].
  destruct (Hh w') as [Hd' Hs']. split; congruence.
Qed.

Lemma keeps_fold_each {A S} (xs : list A) (s : S) body :
  (∀ s x, keeps_tables (body s x)) → keeps_tables (fold_each xs s body).
Proof.
  intros Hbody. revert s. induction xs as [|x xs IH]; intros s.
  - apply keeps_ret.
  - apply keeps_bind; [apply Hbody|]. intros s'. apply IH.
Qed.

Lemma keeps_poke_rpc env : keeps_tables (poke_rpc env).
Proof.
  apply keeps_try_except; [apply keeps_ask|apply keeps_raise].
Qed.

Lemma keeps_confirm_one cfg env acc item :
  keeps_tables (confirm_one cfg env acc item).
Proof.
  unfold confirm_one. destruct acc as [tids fees], item as [n obj].
  apply keeps_bind.
  - apply keeps_try_except; [|apply keeps_ret].
    apply keeps_bind; [apply keeps_ask|]. intros ?. apply keeps_ret.
  - intros [trans_data|]; [|apply keeps_ret].
    destruct (wants_fee trans_data obj); [|apply keeps_ret].
    destruct (fee trans_data) as [[d|n']|];
      [apply keeps_ret|apply keeps_raise..].
Qed.

Lemma keeps_confirm_trans cfg env simulate :
  keeps_tables (confirm_trans cfg env simulate).
Proof.
  unfold confirm_trans.
  apply keeps_bind; [apply keeps_poke_rpc|]. intros _.
  apply keeps_bind; [apply keeps_ask|]. intros res.
  destruct (negb (success res)); [apply keeps_ret|].
  apply keeps_bind; [apply keeps_fold_each, keeps_confirm_one|].
  intros [tids fees].
  destruct (_ || _); [|apply keeps_ret].
  apply keeps_bind; [apply keeps_ask|].
  intros []; apply keeps_ret.
Qed.

Lemma call_durable (command : M pyval) w :
  durable (call command w).2 = durable (command w).2.
Proof. unfold call. by destruct (command w) as [[?|?|?] ?]. Qed.

Lemma confirm_trans_store cfg env simulate db :
  store_after (entry cfg env ConfirmTrans simulate db) = db.
Proof.
  unfold store_after, entry. rewrite call_durable. simpl.
  apply (keeps_confirm_trans cfg env simulate (boot db)).
Qed.

(** ** [reset_all_locked] *)

Lemma reset_all_locked_store cfg env simulate db :
  store_after (entry cfg env ResetAllLocked simulate db) =
  if simulate then db
  else (λ r, if locked r then set_locked false r else r) <$> db.
Proof. by destruct simulate. Qed.

(** ** [associate_all] *)

Lemma preserves_keeps {A} T (m : M A) : keeps_tables m → preserves T m.
Proof.
  intros Hm w [Hd Hs]. destruct (Hm w) as [Ed Es].
  unfold tables_inv. by rewrite Ed, Es.
Qed.

Lemma preserves_bind {A B} T (m : M A) (f : A → M B) :
  preserves T m → (∀ a, preserves T (f a)) → preserves T (m ≫= f).
Proof.
  intros Hm Hf w Hw. unfold mbind, M_bind, bind.
  specialize (Hm w Hw). destruct (m w) as [[a|e|c] w']; simpl in *;
    [|done..].
  by apply Hf.
Qed.

Lemma preserves_for_each {A} T (Q : A → Prop) (xs : list A) body :
  (∀ x, Q x → preserves T (body x)) → Forall Q xs →
  preserves T (for_each xs body).
Proof.
  intros Hbody Hxs. induction Hxs as [|x xs Hx Hxs IH].
  - by apply preserves_keeps.
  - apply preserves_bind; [by apply Hbody|]. intros _. apply IH.
Qed.

Lemma assoc_row_idem env c n r :
  assoc_row env c (assoc_row env n r) = assoc_row env c r.
Proof. done. Qed.

Lemma assoc_table_refl env db : assoc_table env db db.
Proof. split; [done|]. intros i r Hi. exists r. auto. Qed.

Lemma assoc_table_alter env db t c o :
  o ∈ select unassociated_paid db →
  assoc_table env db t →
  assoc_table env db (alter (assoc_row env c) o.1 t).
Proof.
  destruct o as [j ro]. intros Ho [Hlen Hrows].
  apply elem_of_select in Ho as [Hj Hsel]. simpl.
  split; [by rewrite length_alter|].
  intros i r Hi. destruct (Hrows i r Hi) as (r' & Hi' & Hr').
  destruct (decide (j = i)) as [->|Hne].
  - rewrite list_lookup_alter_eq, Hi'. simpl.
    exists (assoc_row env c r'). split; [done|]. right.
    assert (r = ro) as -> by congruence. split; [done|]. exists c.
    destruct Hr' as [->|(_ & n & ->)]; done.
  - rewrite list_lookup_alter_ne by done. eauto.
Qed.

Lemma preserves_mark_associated env db o :
  o ∈ select unassociated_paid db →
  preserves (assoc_table env db) (mark_associated env o).
Proof.
  intros Ho [d s c j] [Hd Hs]. unfold mark_associated. unfold_monad. simpl in *.
  rewrite list_alter_alter_eq.
  pose proof (assoc_table_alter env db s c o Ho Hs) as H.
  split; exact H.
Qed.

Lemma preserves_associate env db txid os :
  Forall (λ o, o ∈ select unassociated_paid db) os →
  preserves (assoc_table env db) (associate env txid os).
Proof.
  intros Hos. unfold associate.
  apply preserves_bind; [apply preserves_keeps, keeps_ask|].
  intros []; [|apply preserves_keeps, keeps_ret].
  apply preserves_bind; [|intros; apply preserves_keeps, keeps_ret].
  apply (preserves_for_each _ _ _ _ (preserves_mark_associated env db) Hos).
Qed.

(** Every object of a group was one of the objects grouped. *)
Lemma group_by_txid_elem (l : list object) t os o :
  group_by_txid l !! t = Some os → o ∈ os → o ∈ l.
Proof.
  unfold group_by_txid.
  assert (∀ g : gmap string (list object),
    (∀ t os o, g !! t = Some os → o ∈ os → o ∈ l) →
    ∀ l', l' ⊆ l →
    ∀ t os o,
      foldl (λ txids payout,
               match txid payout.2 with
               | Some t => append_to t payout txids
               | None => txids
               end) g l' !! t = Some os → o ∈ os → o ∈ l) as H.
  { intros g Hg l'. revert g Hg.
    induction l' as [|x l' IH]; intros g Hg Hsub t' os' o'; simpl; [apply Hg|].
    apply IH; [|set_solver].
    intros t1 os1 o1. destruct (txid x.2) as [tx|]; [|apply Hg].
    unfold append_to. destruct (decide (tx = t1)) as [->|Hne].
    - rewrite lookup_insert_eq. intros [= <-] Hin.
      apply elem_of_app in Hin as [Hin|Hin].
      + destruct (g !! t1) as [os0|] eqn:Hg0; simpl in Hin.
        * exact (Hg _ _ _ Hg0 Hin).
        * by apply elem_of_nil in Hin.
      + apply list_elem_of_singleton in Hin as ->. set_solver.
    - rewrite lookup_insert_ne by done. apply Hg. }
  apply (H ∅); [|done]. intros ? ? ?. by rewrite lookup_empty.
Qed.

Lemma associate_all_inv env simulate db :
  tables_inv (assoc_table env db) (associate_all env simulate (boot db)).2.
Proof.
  assert (preserves (assoc_table env db)
            (for_each (map_to_list (group_by_txid (select unassociated_paid db)))
               (λ '(txid, payouts),
                  if simulate then mret tt
                  else associate env txid payouts ;; mret tt) ;;
             mret PyNone)) as H.
  { apply preserves_bind; [|intros; apply preserves_keeps, keeps_ret].
    apply (preserves_for_each _
             (λ g : string * list object,
                Forall (λ o, o ∈ select unassociated_paid db) g.2)).
    - intros [t os] Hos. destruct simulate; [apply preserves_keeps, keeps_ret|].
      apply preserves_bind; [by apply preserves_associate|].
      intros; apply preserves_keeps, keeps_ret.
    - apply Forall_forall. intros [t os] Hin. simpl.
      apply elem_of_map_to_list in Hin. apply Forall_forall. intros o Ho.
      by eapply group_by_txid_elem. }
  apply (H (boot db)). split; apply assoc_table_refl.
Qed.

Lemma associate_all_rows cfg env simulate db i r :
  db !! i = Some r →
  ∃ r', store_after (entry cfg env AssociateAll simulate db) !! i = Some r'
        ∧ evolves AssociateAll r r'.
Proof.
  intros Hi. unfold store_after, entry. rewrite call_durable. simpl.
  destruct (associate_all_inv env simulate db) as [[_ Hrows] _].
  destruct (Hrows i r Hi) as (r' & Hi' & Hr'). exists r'. split; [done|].
  destruct Hr' as [->|(Hsel & n & ->)]; [apply evolves_refl|].
  unfold unassociated_paid in Hsel.
  apply andb_true_iff in Hsel as [_ Htx].
  apply negb_true_iff, bool_decide_eq_false in Htx.
  constructor; simpl; auto.
Qed.

Lemma associate_all_length cfg env simulate db :
  length (store_after (entry cfg env AssociateAll simulate db)) = length db.
Proof.
  unfold store_after, entry. rewrite call_durable. simpl.
  by destruct (associate_all_inv env simulate db) as [[Hlen _] _].
Qed.

Lemma select_nil P t :
  select P t = [] → ∀ r, r ∈ t → P r = false.
Proof.
  intros Hnil r Hr. apply list_elem_of_lookup_1 in Hr as [i Hi].
  destruct (P r) eqn:HP; [|done].
  assert ((i, r) ∈ select P t) as Hin by by apply elem_of_select.
  rewrite Hnil in Hin. by apply elem_of_nil in Hin.
Qed.

Lemma select_cons P t o os :
  select P t = o :: os → ∃ r, r ∈ t ∧ P r = true.
Proof.
  intros Hsel. destruct o as [i r].
  assert ((i, r) ∈ select P t) as Hin by (rewrite Hsel; left).
  apply elem_of_select in Hin as [Hi HP]. exists r. split; [|done].
  by eapply list_elem_of_lookup_2.
Qed.

Lemma has_pid_absent p t :
  select (has_pid p) t = [] → p ∉ pid <$> t.
Proof.
  intros Hnil Hin. apply list_elem_of_fmap in Hin as (r & -> & Hr).
  pose proof (select_nil _ _ Hnil r Hr) as H.
  unfold has_pid in H. by apply bool_decide_eq_false in H.
Qed.

Lemma has_pid_present p t o os :
  select (has_pid p) t = o :: os → p ∈ pid <$> t.
Proof.
  intros Hsel. destruct (select_cons _ _ _ _ Hsel) as (r & Hr & HP).
  unfold has_pid in HP. apply bool_decide_eq_true in HP as <-.
  apply list_elem_of_fmap. eauto.
Qed.

Lemma pulled_onto_refl t : pulled_onto t t.
Proof.
  exists []. rewrite app_nil_r. repeat split; try done.
  - intros r Hr. by apply elem_of_nil in Hr.
  - constructor.
Qed.

Lemma pulled_onto_snoc t t' p u a n :
  pulled_onto t t' → p ∉ pid <$> t' →
  pulled_onto t (t' ++ [new_payout p u a n]).
Proof.
  intros (added & -> & Hfresh & Hnew & Hnd) Hp.
  rewrite fmap_app, not_elem_of_app in Hp. destruct Hp as [Hpt Hpa].
  exists (added ++ [new_payout p u a n]). rewrite app_assoc.
  repeat split; try done.
  - apply Forall_app. split; [done|]. by repeat constructor.
  - intros r Hr. apply elem_of_app in Hr as [Hr|Hr]; [by apply Hnew|].
    by apply list_elem_of_singleton in Hr as ->.
  - rewrite fmap_app. apply NoDup_app. repeat split; [done| |].
    + intros q Hq Hq'. simpl in Hq'.
      by apply list_elem_of_singleton in Hq' as ->.
    + simpl. apply NoDup_singleton.
Qed.

Lemma pull_step_pulled cfg env t t' c cnt item :
  pulled_onto t t' →
  pulled_onto t (pull_step cfg env (t', c, cnt) item).1.1.
Proof.
  intros H. destruct cnt as [[new repeat] invalid], item as [[u a] p].
  simpl. destruct (address_ok cfg u); [|done].
  destruct (select (has_pid p) t') eqn:Hsel; [|done]. simpl.
  apply pulled_onto_snoc; [done|]. by apply has_pid_absent.
Qed.

Lemma pull_fold_pulled cfg env t items st :
  pulled_onto t st.1.1 →
  pulled_onto t (foldl (pull_step cfg env) st items).1.1.
Proof.
  revert st. induction items as [|item items IH]; intros [[t' c] cnt] H;
    [done|].
  simpl. apply IH. by apply pull_step_pulled.
Qed.

(** The loop of [pull_payouts] only appends to the table. *)
Lemma pull_fold_extends cfg env items st :
  ∃ added, (foldl (pull_step cfg env) st items).1.1 = st.1.1 ++ added.
Proof.
  destruct (pull_fold_pulled cfg env st.1.1 items st (pulled_onto_refl _))
    as (added & Heq & _).
  by exists added.
Qed.

Lemma forallb_drop_app {A} (f : A → bool) n (l k : list A) :
  forallb f (drop n (l ++ k)) = true → forallb f (drop n l) = true.
Proof.
  rewrite drop_app, forallb_app. by intros [H _]%andb_true_iff.
Qed.

(** One turn of the loop: its flush raises when the address passes and
    a pending row does not fit; otherwise it goes as [pull_step] has
    it. *)
Lemma pull_one_run cfg env cnt item w :
  pull_one cfg env cnt item w
  = if address_ok cfg item.1.1
       && negb (forallb (λ r, fits_bigint (amount r)) (pending w))
    then (Raises OtherException,
          {| durable := durable w; session := durable w; clock := clock w;
             journal := journal w |})
    else let st := pull_step cfg env (session w, clock w, cnt) item in
         (Returns st.2,
          {| durable := durable w; session := st.1.1; clock := st.1.2;
             journal := journal w |}).
Proof.
  destruct cnt as [[new repeat] invalid], item as [[u a] p], w as [d s c j].
  unfold pull_one, pull_step. simpl.
  destruct (address_ok cfg u); simpl; [|done].
  unfold mbind, M_bind, bind, flush. simpl.
  destruct (forallb _ (pending _)); simpl; [|done].
  unfold query. simpl. by destruct (select (has_pid p) s).
Qed.

Arguments pull_one : simpl never.

(** The loop of [pull_payouts] and the flush that follows it, in closed
    form: when every pending row of the end fits, all the flushes of the
    run passed and the loop went as [pull_step] has it; otherwise one of
    them raised, and the session was rolled back. *)
Lemma run_pull_loop {B} cfg env items cnt (k : nat * nat * nat → M B) w :
  let st := foldl (pull_step cfg env) (session w, clock w, cnt) items in
  (forallb (λ r, fits_bigint (amount r)) (drop (length (durable w)) st.1.1)
   = true →
   bind (fold_each items cnt (pull_one cfg env))
        (λ cnt', bind flush (λ _, k cnt')) w
   = k st.2 {| durable := durable w; session := st.1.1; clock := st.1.2;
               journal := journal w |})
  ∧ (forallb (λ r, fits_bigint (amount r)) (drop (length (durable w)) st.1.1)
     = false →
     ∃ c, bind (fold_each items cnt (pull_one cfg env))
               (λ cnt', bind flush (λ _, k cnt')) w
          = (Raises OtherException,
             {| durable := durable w; session := durable w; clock := c;
                journal := journal w |})).
Proof.
  unfold bind. revert cnt w. induction items as [|item items IH];
    intros cnt [d s c j]; cbn [foldl durable session clock journal].
  - unfold fold_each, mret, M_ret, ret, flush, pending. simpl.
    destruct (forallb _ (drop (length d) s)); split; try done.
    intros _. by exists c.
  - unfold fold_each; fold (@fold_each (string * Z * string) (nat * nat * nat)).
    unfold mbind, M_bind, bind. rewrite pull_one_run. unfold pending.
    cbn [durable session clock journal].
    destruct (address_ok cfg item.1.1
              && negb (forallb (λ r, fits_bigint (amount r))
                         (drop (length d) s))) eqn:Hstop.
    + apply andb_true_iff in Hstop as [_ Hpend].
      apply negb_true_iff in Hpend.
      destruct (pull_fold_extends cfg env (item :: items) (s, c, cnt))
        as (added & Heq).
      cbn [foldl fst snd] in Heq. rewrite Heq.
      split; [|intros _; by exists c].
      intros Hall. apply forallb_drop_app in Hall. congruence.
    + cbv zeta.
      destruct (pull_step cfg env (s, c, cnt) item) as [[s1 c1] cnt1].
      apply (IH cnt1 {| durable := d; session := s1; clock := c1;
                        journal := j |}).
Qed.

Lemma pull_payouts_unfetched cfg env simulate db e :
  get_payouts env = Fails e →
  entry cfg env PullPayouts simulate db
  = (Returns PyFalse,
     {| durable := db; session := db; clock := 0;
        journal := [GetPayouts (Fails e)] |}).
Proof.
  intros Hget. unfold entry, call, command, pull_payouts, boot.
  unfold_monad. simpl. by rewrite Hget.
Qed.

Lemma pull_payouts_simulated cfg env db items :
  get_payouts env = Ok items →
  entry cfg env PullPayouts true db
  = (Returns PyTrue,
     {| durable := db; session := db; clock := 0;
        journal := [GetPayouts (Ok items); PullSummary 0 0 0] |}).
Proof.
  intros Hget. unfold entry, call, command, pull_payouts, boot.
  unfold_monad. simpl. by rewrite Hget.
Qed.

(** A real [pull_payouts] from a fresh process, when the rows it adds
    fit their column, and when one does not. *)
Lemma pull_payouts_run cfg env db items :
  get_payouts env = Ok items →
  pull_fits cfg env db items = true →
  entry cfg env PullPayouts false db
  = let st := foldl (pull_step cfg env) (db, 0%nat, (0, 0, 0)%nat) items in
    (Returns PyTrue,
     {| durable := st.1.1; session := st.1.1; clock := st.1.2;
        journal := [GetPayouts (Ok items); Commit st.1.1;
                    PullSummary st.2.1.1 st.2.1.2 st.2.2] |}).
Proof.
  intros Hget Hfits. unfold entry, call, command, pull_payouts, boot.
  unfold mbind, M_bind, ask. unfold bind at 1 2. unfold emit at 1.
  rewrite Hget. simpl. unfold bind at 1.
  pose proof (proj1 (run_pull_loop cfg env items (0, 0, 0)%nat
                       (λ cnt, bind commit (λ _, mret cnt))
                       {| durable := db; session := db; clock := 0;
                          journal := [GetPayouts (Ok items)] |}) Hfits)
    as Hrun.
  unfold bind at 1 in Hrun. rewrite Hrun. by unfold_monad.
Qed.

Lemma pull_payouts_overflow cfg env db items :
  get_payouts env = Ok items →
  pull_fits cfg env db items = false →
  ∃ c, entry cfg env PullPayouts false db
       = (Returns PyFalse,
          {| durable := db; session := db; clock := c;
             journal := [GetPayouts (Ok items)] |}).
Proof.
  intros Hget Hfits. unfold entry, call, command, pull_payouts, boot.
  unfold mbind, M_bind, ask. unfold bind at 1 2. unfold emit at 1.
  rewrite Hget. simpl. unfold bind at 1.
  destruct (proj2 (run_pull_loop cfg env items (0, 0, 0)%nat
                     (λ cnt, bind commit (λ _, mret cnt))
                     {| durable := db; session := db; clock := 0;
                        journal := [GetPayouts (Ok items)] |}) Hfits)
    as (c & Hrun).
  unfold bind at 1 in Hrun. rewrite Hrun. by exists c.
Qed.

Lemma pull_payouts_store cfg env simulate db :
  pulled_onto db (store_after (entry cfg env PullPayouts simulate db)).
Proof.
  destruct (get_payouts env) as [items|e] eqn:Hget;
    [|rewrite (pull_payouts_unfetched _ _ _ _ _ Hget); apply pulled_onto_refl].
  destruct simulate;
    [rewrite (pull_payouts_simulated _ _ _ _ Hget); apply pulled_onto_refl|].
  destruct (pull_fits cfg env db items) eqn:Hfits.
  - rewrite (pull_payouts_run _ _ _ _ Hget Hfits). unfold store_after. simpl.
    apply pull_fold_pulled. apply pulled_onto_refl.
  - destruct (pull_payouts_overflow _ _ _ _ Hget Hfits) as (c & ->).
    apply pulled_onto_refl.
Qed.

Lemma pull_payouts_returned cfg env simulate db :
  returned (entry cfg env PullPayouts simulate db) = Returns PyTrue
  ∨ returned (entry cfg env PullPayouts simulate db) = Returns PyFalse.
Proof.
  destruct (get_payouts env) as [items|e] eqn:Hget;
    [|rewrite (pull_payouts_unfetched _ _ _ _ _ Hget); by right].
  destruct simulate;
    [rewrite (pull_payouts_simulated _ _ _ _ Hget); by left|].
  destruct (pull_fits cfg env db items) eqn:Hfits.
  - rewrite (pull_payouts_run _ _ _ _ Hget Hfits). by left.
  - destruct (pull_payouts_overflow _ _ _ _ Hget Hfits) as (c & ->).
    by right.
Qed.

(** ** Every command, row by row *)

Lemma entry_rows cfg env a simulate db i r :
  db !! i = Some r →
  ∃ r', store_after (entry cfg env a simulate db) !! i = Some r'
        ∧ evolves a r r'.
Proof.
  intros Hi. destruct a.
  - rewrite confirm_trans_store. exists r. split; [done|apply evolves_refl].
  - destruct (payout_rows cfg env simulate db i r Hi) as (r' & ? & ? & _).
    eauto.
  - destruct (pull_payouts_store cfg env simulate db)
      as (added & -> & _). exists r. split; [|apply evolves_refl].
    by apply lookup_app_l_Some.
  - rewrite reset_all_locked_store. destruct simulate.
    + exists r. split; [done|apply evolves_refl].
    + rewrite list_lookup_fmap, Hi. simpl. eexists. split; [done|].
      destruct (locked r); [|apply evolves_refl]. by constructor; simpl; auto.
  - exists r. split; [done|apply evolves_refl].
  - by apply associate_all_rows.
Qed.

(** Rows are never deleted, and a row that was not there before is a
    fresh one. *)
Lemma entry_new_rows cfg env a simulate db i r' :
  store_after (entry cfg env a simulate db) !! i = Some r' →
  db !! i = None → fresh_row r'.
Proof.
  intros Hi' Hi. apply lookup_ge_None in Hi.
  assert (∀ t : list Payout, length t = length db → t !! i = Some r' → False)
    as Hlen.
  { intros t Ht Hti. apply lookup_lt_Some in Hti. lia. }
  destruct a.
  - rewrite confirm_trans_store in Hi'. exfalso. by eapply Hlen.
  - exfalso. eapply Hlen; [|done]. apply payout_length.
  - destruct (pull_payouts_store cfg env simulate db)
      as (added & Heq & Hfresh & _).
    rewrite Heq in Hi'. rewrite lookup_app_r in Hi' by done.
    rewrite Forall_forall in Hfresh. apply Hfresh.
    by eapply list_elem_of_lookup_2.
  - rewrite reset_all_locked_store in Hi'. exfalso.
    destruct simulate; (eapply Hlen; [|done]); [done|].
    by rewrite length_fmap.
  - exfalso. by eapply Hlen.
  - exfalso. eapply Hlen; [|done]. apply associate_all_length.
Qed.

(** ** Sequences of commands *)

Lemma run_keeps_lock xs db i r :
  Forall (λ x, inv_action x ≠ ResetAllLocked) xs →
  db !! i = Some r → locked r = true →
  ∃ r', run xs db !! i = Some r' ∧ locked r' = true.
Proof.
  intros Hxs. revert db r.
  induction Hxs as [|x xs Hx Hxs IH]; intros db r Hi Hl; simpl; [eauto|].
  destruct (entry_rows (inv_cfg x) (inv_env x) (inv_action x)
              (inv_simulate x) db i r Hi) as (r1 & Hi1 & Hev).
  apply (IH _ r1); [done|]. by apply (lock_kept _ _ _ Hev).
Qed.

Lemma invoke_coherent db x : coherent db → coherent (invoke db x).
Proof.
  intros Hdb r' Hr' Ha. apply list_elem_of_lookup_1 in Hr' as [i Hi'].
  unfold invoke in Hi'. destruct (db !! i) as [r|] eqn:Hi.
  - destruct (entry_rows (inv_cfg x) (inv_env x) (inv_action x)
                (inv_simulate x) db i r Hi) as (r1 & Hi1 & Hev).
    assert (r1 = r') as -> by congruence.
    assert (txid r ≠ None) as Htx.
    { destruct (associated_sound _ _ _ Hev Ha) as [Har|]; [|done].
      apply Hdb; [|done]. by eapply list_elem_of_lookup_2. }
    by rewrite (txid_kept _ _ _ Hev Htx).
  - destruct (entry_new_rows _ _ _ _ _ _ _ Hi' Hi) as (_ & Hna & _).
    congruence.
Qed.

Lemma run_coherent xs db : coherent db → coherent (run xs db).
Proof.
  revert db. induction xs as [|x xs IH]; intros db Hdb; [done|].
  simpl. by apply IH, invoke_coherent.
Qed.

Lemma run_keeps_txid xs db i r :
  db !! i = Some r → txid r ≠ None →
  ∃ r', run xs db !! i = Some r' ∧ txid r' = txid r.
Proof.
  revert db r. induction xs as [|x xs IH]; intros db r Hi Htx; simpl;
    [eauto|].
  destruct (entry_rows (inv_cfg x) (inv_env x) (inv_action x)
              (inv_simulate x) db i r Hi) as (r1 & Hi1 & Hev).
  pose proof (txid_kept _ _ _ Hev Htx) as H1.
  destruct (IH _ r1 Hi1) as (r' & Hr' & Htx'); [congruence|].
  exists r'. split; [done|]. congruence.
Qed.

(** ** Repeated pulls *)

Lemma pulled_onto_trans t1 t2 t3 :
  pulled_onto t1 t2 → pulled_onto t2 t3 → pulled_onto t1 t3.
Proof.
  intros (a1 & -> & Hf1 & Hn1 & Hd1) (a2 & -> & Hf2 & Hn2 & Hd2).
  exists (a1 ++ a2). rewrite app_assoc. repeat split; try done.
  - by apply Forall_app.
  - intros r Hr. apply elem_of_app in Hr as [Hr|Hr]; [by apply Hn1|].
    specialize (Hn2 r Hr). rewrite fmap_app, not_elem_of_app in Hn2.
    by destruct Hn2.
  - rewrite fmap_app. apply NoDup_app. repeat split; [done| |done].
    intros q Hq1 Hq2. apply list_elem_of_fmap in Hq2 as (r & -> & Hr).
    specialize (Hn2 r Hr). rewrite fmap_app, not_elem_of_app in Hn2.
    by destruct Hn2.
Qed.

Lemma run_pulls_onto xs db :
  Forall (λ x, inv_action x = PullPayouts) xs → pulled_onto db (run xs db).
Proof.
  intros Hxs. revert db.
  induction Hxs as [|x xs Hx Hxs IH]; intros db; [apply pulled_onto_refl|].
  simpl. eapply pulled_onto_trans; [|apply IH].
  unfold invoke. rewrite Hx. apply pull_payouts_store.
Qed.

Lemma rows_with_absent p t : p ∉ pid <$> t → rows_with p t = [].
Proof.
  unfold rows_with. induction t as [|r t IH]; intros Hp; [done|].
  rewrite fmap_cons, not_elem_of_cons in Hp. destruct Hp as [Hne Hp].
  rewrite filter_cons. destruct (decide (pid r = p)); [congruence|].
  by apply IH.
Qed.

Lemma rows_with_unique p t :
  NoDup (pid <$> t) → p ∈ pid <$> t → length (rows_with p t) = 1%nat.
Proof.
  unfold rows_with. induction t as [|r t IH]; intros Hnd Hin.
  - by apply elem_of_nil in Hin.
  - rewrite fmap_cons in Hnd, Hin. apply NoDup_cons in Hnd as [Hr Hnd].
    rewrite filter_cons. destruct (decide (pid r = p)) as [<-|Hne].
    + simpl. f_equal. apply length_zero_iff_nil.
      by apply (rows_with_absent (pid r) t).
    + apply IH; [done|]. apply elem_of_cons in Hin as [Heq|Hin]; [|done].
      congruence.
Qed.

Lemma rows_with_pulled p t t' :
  pulled_onto t t' → p ∈ pid <$> t → rows_with p t' = rows_with p t.
Proof.
  intros (added & -> & _ & Hnew & _) Hp. unfold rows_with.
  rewrite filter_app.
  assert (filter (λ r, pid r = p) added = []) as ->; [|by rewrite app_nil_r].
  apply (rows_with_absent p added). intros Hin.
  apply list_elem_of_fmap in Hin as (r & -> & Hr). by apply (Hnew r Hr).
Qed.

(** ** [confirm_trans] and its fee dict *)

Lemma wants_fee_spec trans_data obj :
  wants_fee trans_data obj = true
  ↔ is_Some (fee trans_data) ∧ fee_unpopulated obj.
Proof.
  unfold wants_fee, fee_unpopulated.
  rewrite !andb_true_iff, !bool_decide_eq_true, negb_true_iff. split.
  - intros [[Hf Ht] [v Hv]]. split; [done|]. exists v.
    rewrite Hv in Ht. done.
  - intros [Hf (v & Hv & Ht)]. rewrite Hv. simpl. eauto.
Qed.

Lemma confirm_one_run cfg env tids fees n obj w :
  confirm_one cfg env (tids, fees) (n, obj) w =
  let w1 := {| durable := durable w; session := session w; clock := clock w;
               journal := journal w ++
                 [GetTransaction (obj_txid obj)
                    (gettransaction env n (obj_txid obj))] |} in
  match gettransaction env n (obj_txid obj) with
  | Fails _ => (Returns (tids, fees), w1)
  | Ok trans_data =>
      let tids' := if confirmations trans_data >? trans_confirmations cfg
                   then tids ++ [obj_txid obj] else tids in
      if wants_fee trans_data obj then
        match fee trans_data with
        | Some (WDecimal d) =>
            (Returns (tids', <[obj_txid obj := satoshi d]> fees), w1)
        | _ => (Raises AssertionError, w1)
        end
      else (Returns (tids', fees), w1)
  end.
Proof.
  unfold confirm_one. unfold_monad. simpl.
  destruct (gettransaction env n (obj_txid obj)) as [td|e]; simpl; [|done].
  destruct (wants_fee td obj); [|done].
  by destruct (fee td) as [[d|z]|].
Qed.

Lemma confirm_loop cfg env items acc w acc' w' :
  fold_each items acc (confirm_one cfg env) w = (Returns acc', w') →
  (∃ evs, journal w' = journal w ++ evs ∧ Forall is_lookup evs)
  ∧ (∀ t v, acc'.2 !! t = Some v →
       acc.2 !! t = Some v
       ∨ ∃ n obj trans_data d,
           (n, obj) ∈ items ∧ obj_txid obj = t
           ∧ gettransaction env n t = Ok trans_data
           ∧ fee trans_data = Some (WDecimal d)
           ∧ fee_unpopulated obj ∧ v = satoshi d)
  ∧ (∀ t, is_Some (acc.2 !! t) → is_Some (acc'.2 !! t))
  ∧ (∀ n obj trans_data,
       (n, obj) ∈ items →
       gettransaction env n (obj_txid obj) = Ok trans_data →
       is_Some (fee trans_data) → fee_unpopulated obj →
       is_Some (acc'.2 !! obj_txid obj)).
Proof.
  revert acc w. induction items as [|[n obj] items IH]; intros [tids fees] w.
  - intros [= <- <-]. split; [|split; [|split]].
    + exists []. by rewrite app_nil_r.
    + auto.
    + auto.
    + intros ? ? ? Hin. by apply elem_of_nil in Hin.
  - unfold fold_each; fold (@fold_each (nat * remote_tx)
                                       (list string * gmap string Z)).
    unfold mbind, M_bind, bind at 1. rewrite confirm_one_run.
    set (ev := GetTransaction (obj_txid obj)
                 (gettransaction env n (obj_txid obj))).
    assert (is_lookup ev) as Hev by (by eexists _, _).
    simpl.
    destruct (gettransaction env n (obj_txid obj)) as [td|e] eqn:Hget.
    + destruct (wants_fee td obj) eqn:Hw.
      * destruct (fee td) as [[d|z]|] eqn:Hfee; try done.
        intros Hrun. apply IH in Hrun as (Hj & Hval & Hmono & Hall).
        simpl in *. apply wants_fee_spec in Hw as [_ Hun].
        split; [|split; [|split]].
        -- destruct Hj as (evs & -> & Hevs). exists (ev :: evs).
           rewrite <- app_assoc. split; [done|]. by constructor.
        -- intros t v Hv. destruct (Hval t v Hv) as [Hold|Hnew].
           ++ destruct (decide (obj_txid obj = t)) as [<-|Hne].
              ** rewrite lookup_insert_eq in Hold. injection Hold as <-.
                 right. exists n, obj, td, d. repeat split; try done. left.
              ** rewrite lookup_insert_ne in Hold by done. by left.
           ++ right. destruct Hnew as (n' & obj' & td' & d' & Hin & Hrest).
              exists n', obj', td', d'. split; [by right|done].
        -- intros t Ht. apply Hmono.
           destruct (decide (obj_txid obj = t)) as [<-|Hne].
           ++ rewrite lookup_insert_eq. eauto.
           ++ by rewrite lookup_insert_ne.
        -- intros n' obj' td' Hin Hget' Hfee' Hun'.
           apply elem_of_cons in Hin as [[= -> ->]|Hin]; [|by eapply Hall].
           apply Hmono. rewrite lookup_insert_eq. eauto.
      * intros Hrun. apply IH in Hrun as (Hj & Hval & Hmono & Hall).
        simpl in *. split; [|split; [|split]].
        -- destruct Hj as (evs & -> & Hevs). exists (ev :: evs).
           rewrite <- app_assoc. split; [done|]. by constructor.
        -- intros t v Hv. destruct (Hval t v Hv) as [Hold|Hnew]; [by left|].
           right. destruct Hnew as (n' & obj' & td' & d' & Hin & Hrest).
           exists n', obj', td', d'. split; [by right|done].
        -- done.
        -- intros n' obj' td' Hin Hget' Hfee' Hun'.
           apply elem_of_cons in Hin as [[= -> ->]|Hin]; [|by eapply Hall].
           exfalso. assert (td' = td) as -> by congruence.
           assert (wants_fee td obj = true) by by apply wants_fee_spec.
           congruence.
    + intros Hrun. apply IH in Hrun as (Hj & Hval & Hmono & Hall).
      simpl in *. split; [|split; [|split]].
      * destruct Hj as (evs & -> & Hevs). exists (ev :: evs).
        rewrite <- app_assoc. split; [done|]. by constructor.
      * intros t v Hv. destruct (Hval t v Hv) as [Hold|Hnew]; [by left|].
        right. destruct Hnew as (n' & obj' & td' & d' & Hin & Hrest).
        exists n', obj', td', d'. split; [by right|done].
      * done.
      * intros n' obj' td' Hin Hget' Hfee' Hun'.
        apply elem_of_cons in Hin as [[= -> ->]|Hin]; [|by eapply Hall].
        congruence.
Qed.

Lemma not_lookup_in evs tids fees ans :
  Forall is_lookup evs → ConfirmTransactions tids fees ans ∉ evs.
Proof.
  intros Hevs Hin. rewrite Forall_forall in Hevs.
  by destruct (Hevs _ Hin) as (t & r & ?).
Qed.

Lemma confirm_loop_journal cfg env items acc w out w' :
  fold_each items acc (confirm_one cfg env) w = (out, w') →
  ∃ evs, journal w' = journal w ++ evs ∧ Forall is_lookup evs.
Proof.
  revert acc w. induction items as [|[n obj] items IH]; intros [tids fees] w.
  - intros [= <- <-]. exists []. by rewrite app_nil_r.
  - unfold fold_each; fold (@fold_each (nat * remote_tx)
                                       (list string * gmap string Z)).
    unfold mbind, M_bind, bind at 1. rewrite confirm_one_run.
    set (ev := GetTransaction (obj_txid obj)
                 (gettransaction env n (obj_txid obj))).
    assert (is_lookup ev) as Hev by (by eexists _, _).
    assert (∀ acc1 d s c,
      fold_each items acc1 (confirm_one cfg env)
        {| durable := d; session := s; clock := c;
           journal := journal w ++ [ev] |} = (out, w') →
      ∃ evs, journal w' = journal w ++ evs ∧ Forall is_lookup evs) as Hnext.
    { intros acc1 d s c Hrun. apply IH in Hrun as (evs & -> & Hevs).
      simpl. exists (ev :: evs). rewrite <- app_assoc.
      split; [done|]. by constructor. }
    assert (∀ (o : outcome (list string * gmap string Z)) d s c,
      (o, {| durable := d; session := s; clock := c;
             journal := journal w ++ [ev] |}) = (out, w') →
      ∃ evs, journal w' = journal w ++ evs ∧ Forall is_lookup evs) as Hstop.
    { intros o d s c [= <- <-]. simpl. exists [ev]. split; [done|].
      by constructor. }
    simpl.
    destruct (gettransaction env n (obj_txid obj)) as [td|e]; [|apply Hnext].
    destruct (wants_fee td obj); [|apply Hnext].
    destruct (fee td) as [[d|z]|]; [apply Hnext|apply Hstop..].
Qed.

(** ** The aggregation of [payout] *)

Lemma filter_user_absent u (l : list Payout) :
  u ∉ user <$> l → filter (λ r, user r = u) l = [].
Proof.
  induction l as [|r l IH]; intros Hu; [done|].
  rewrite fmap_cons, not_elem_of_cons in Hu. destruct Hu as [Hne Hu].
  rewrite filter_cons. destruct (decide (user r = u)); [congruence|].
  by apply IH.
Qed.

Lemma tally_lookup os acc u :
  (foldl tally acc os).1 !! u =
  if bool_decide (u ∈ user <$> os.*2)
  then Some (default 0 (acc.1 !! u)
             + zsum (amount <$> filter (λ r, user r = u) os.*2))
  else acc.1 !! u.
Proof.
  revert acc. induction os as [|[i r] os IH]; intros acc; [done|].
  change (foldl tally acc ((i, r) :: os))
    with (foldl tally (tally acc (i, r)) os).
  rewrite IH, !fmap_cons, filter_cons. unfold tally, add_amount.
  cbn [fst snd].
  destruct (decide (user r = u)) as [<-|Hne].
  - rewrite lookup_insert_eq.
    rewrite (bool_decide_eq_true_2 (user r ∈ user r :: _)) by left.
    case_bool_decide as Hin.
    + rewrite fmap_cons. unfold zsum. cbn [foldr default]. unfold id.
      f_equal. lia.
    + rewrite (filter_user_absent _ _ Hin). cbn. unfold id. f_equal. lia.
  - rewrite lookup_insert_ne by done.
    case_bool_decide as H1; case_bool_decide as H2; try done.
    + exfalso. apply H2. by right.
    + exfalso. apply elem_of_cons in H2 as [?|?]; [congruence|done].
Qed.

(** Before the "test" entry is put in, the dict is the aggregation. *)
Lemma user_payout_amounts_is_aggregation db :
  is_aggregation (batch db).*2 (PyInt <$> user_payout_amounts db).
Proof.
  intros u. rewrite lookup_fmap. unfold user_payout_amounts, spec_amount.
  rewrite tally_lookup. simpl. rewrite lookup_empty. simpl.
  by case_bool_decide.
Qed.

Lemma sum_values_add_amount k a d :
  sum_values (add_amount k a d) = sum_values d + a.
Proof.
  unfold sum_values, add_amount.
  assert (∀ (m : gmap string Z) i x, m !! i = None →
    map_fold (λ _ v acc, acc + v) 0 (<[i:=x]> m)
    = map_fold (λ _ v acc, acc + v) 0 m + x) as Hins.
  { intros m i x Hi. rewrite map_fold_insert_L; [done| |done].
    intros. lia. }
  destruct (d !! k) as [v|] eqn:Hk; simpl.
  - rewrite <- (insert_delete_id d k v Hk) at 2.
    rewrite <- (insert_delete_eq d k (v + a)).
    rewrite !Hins by apply lookup_delete_eq. lia.
  - by rewrite Hins.
Qed.

(** [total_out] is the sum of the amounts of the batch. *)
Lemma total_out_is_sum db :
  sum_values (user_payout_amounts db) = zsum (amount <$> (batch db).*2).
Proof.
  unfold user_payout_amounts.
  assert (∀ os acc,
    sum_values (foldl tally acc os).1
    = sum_values acc.1 + zsum (amount <$> os.*2)) as H.
  { induction os as [|[i r] os IH]; intros acc; [simpl; lia|].
    change (foldl tally acc ((i, r) :: os))
      with (foldl tally (tally acc (i, r)) os).
    rewrite IH, !fmap_cons. unfold tally, zsum. cbn [fst snd foldr].
    rewrite sum_values_add_amount. lia. }
  rewrite H. simpl. unfold sum_values. by rewrite map_fold_empty.
Qed.

(** ** The failure paths on every input *)

(** Whenever two balances were read and agree (the send raised and the
    wallet is as it was), [payout] returns [None] and the batch is still
    locked in the file: the unlock stays in the session. *)
Lemma payout_clean_failure_general cfg env simulate db b :
  balance_reads (journal_of (entry cfg env DoPayout simulate db)) = [b; b] →
  returned (entry cfg env DoPayout simulate db) = Returns PyNone
  ∧ ∀ k o, batch db !! k = Some o →
      ∃ r', store_after (entry cfg env DoPayout simulate db) !! o.1 = Some r'
            ∧ locked r' = true.
Proof.
  intros Hreads.
  remember (entry cfg env DoPayout simulate db) as res eqn:Hr.
  payout_cases Hr; subst res;
    unfold journal_of, returned, store_after in *; simpl in *;
    try discriminate Hreads.
  all: injection Hreads as <- Heq.
  all: try match goal with
           | E : negb (_ =? _) = true |- _ =>
               apply negb_true_iff, Z.eqb_neq in E; congruence
           end.
  all: split; [done|]; intros k p Hk;
    destruct (batch_lookup _ _ _ Hk) as [Hp _];
    rewrite (batch_update_lookup _ _ _ _ _ _ Hk), Hp; simpl; eauto.
Qed.

(** [associate_all] changes a row only if it is paid and not yet
    associated, and then only [associated] and [assoc_time]. *)
Lemma associate_all_frame cfg env simulate db i r :
  db !! i = Some r →
  ∃ r', store_after (entry cfg env AssociateAll simulate db) !! i = Some r'
        ∧ (r' = r
           ∨ (unassociated_paid r = true ∧ ∃ n, r' = assoc_row env n r)).
Proof.
  intros Hi. unfold store_after, entry. rewrite call_durable. simpl.
  destruct (associate_all_inv env simulate db) as [[_ Hrows] _].
  by apply Hrows.
Qed.

(** ** The properties of the specification *)

(** C1.  If the wallet's multi-recipient send fails and the balance read
    again differs from the balance read before the send, [payout] returns
    [False] and every record of the batch is locked in the committed
    table; and whatever commands run afterwards, in whatever processes,
    as long as none of them is [reset_all_locked], those records stay
    locked. *)
Theorem payout_ambiguous_failure_stays_locked
    cfg env simulate db b0 b1 later :
  send_failed (journal_of (entry cfg env DoPayout simulate db)) = true →
  balance_reads (journal_of (entry cfg env DoPayout simulate db))
    = [b0; b1] →
  b1 ≠ b0 →
  Forall (λ x, inv_action x ≠ ResetAllLocked) later →
  returned (entry cfg env DoPayout simulate db) = Returns PyFalse
  ∧ ∀ k o, batch db !! k = Some o →
      (∃ r', store_after (entry cfg env DoPayout simulate db) !! o.1
               = Some r'
             ∧ locked r' = true)
      ∧ (∃ r', run later (store_after (entry cfg env DoPayout simulate db))
                 !! o.1 = Some r'
               ∧ locked r' = true).
Proof.
  intros Hfail Hreads Hne Hlater.
  assert (returned (entry cfg env DoPayout simulate db) = Returns PyFalse
          ∧ ∀ k o, batch db !! k = Some o →
              ∃ r', store_after (entry cfg env DoPayout simulate db) !! o.1
                      = Some r'
                    ∧ locked r' = true) as [Hret Hlocked].
  { clear Hfail Hlater.
    remember (entry cfg env DoPayout simulate db) as res eqn:Hr.
    payout_cases Hr; subst res;
      unfold journal_of, returned, store_after in *; simpl in *;
      try discriminate Hreads.
    all: injection Hreads as <- <-.
    all: try match goal with
             | E : negb (_ =? _) = false |- _ =>
                 apply negb_false_iff, Z.eqb_eq in E; congruence
             end.
    all: split; [done|]; intros k p Hk;
      destruct (batch_lookup _ _ _ Hk) as [Hp _];
      rewrite (batch_update_lookup _ _ _ _ _ _ Hk), Hp; simpl; eauto. }
  split; [done|]. intros k o Hk.
  destruct (Hlocked k o Hk) as (r' & Hr' & Hl). split; [eauto|].
  by apply (run_keeps_lock later _ _ r').
Qed.

(** C2.  If the balance [payout] reads is strictly below the total of the
    aggregated amounts, no [sendmany] call is made, [payout] returns
    [False], and in the committed table every record of the snapshot is
    unlocked with its txid unset. *)
Theorem payout_insufficient_funds cfg env simulate db b :
  head (balance_reads (journal_of (entry cfg env DoPayout simulate db)))
    = Some b →
  b < sum_values (user_payout_amounts db) →
  sends (journal_of (entry cfg env DoPayout simulate db)) = []
  ∧ returned (entry cfg env DoPayout simulate db) = Returns PyFalse
  ∧ ∀ k o, batch db !! k = Some o →
      ∃ r', store_after (entry cfg env DoPayout simulate db) !! o.1
              = Some r'
            ∧ locked r' = false ∧ txid r' = None.
Proof.
  intros Hread Hlt.
  remember (entry cfg env DoPayout simulate db) as res eqn:Hr.
  payout_cases Hr; subst res;
    unfold journal_of, returned, store_after in *; simpl in *;
    try discriminate Hread.
  all: injection Hread as <-.
  all: try match goal with
           | E : (_ <? _) = false |- _ => apply Z.ltb_ge in E; lia
           end.
  split; [done|]. split; [done|]. intros k p Hk.
  destruct (batch_lookup _ _ _ Hk) as [Hp Hu].
  apply unpaid_unlocked_true in Hu as [Htx Hl]. eauto.
Qed.

(** C3.  The clean failure, run: the send raises CoinRPCException and the
    balance read again is the 20 coins read before.  [payout] unlocks the
    two objects in the session only; no commit follows, it returns [None],
    and the committed table keeps both rows locked. *)
Theorem payout_clean_failure_not_committed :
  send_failed
    (journal_of (entry demo_cfg env_send_fails_unchanged DoPayout false
                       demo_db)) = true
  ∧ balance_reads
      (journal_of (entry demo_cfg env_send_fails_unchanged DoPayout false
                         demo_db)) = [2000000000; 2000000000]
  ∧ returned (entry demo_cfg env_send_fails_unchanged DoPayout false demo_db)
    = Returns PyNone
  ∧ locked <$> session (entry demo_cfg env_send_fails_unchanged DoPayout
                              false demo_db).2 = [false; false]
  ∧ locked <$> store_after (entry demo_cfg env_send_fails_unchanged DoPayout
                                  false demo_db) = [true; true]
  ∧ length (commits (journal_of (entry demo_cfg env_send_fails_unchanged
                                       DoPayout false demo_db))) = 1%nat.
Proof. vm_compute. repeat split; reflexivity. Qed.

(** C4.  If the wallet's multi-recipient send succeeds and returns the
    transaction id [t], then [payout] returns [t], and in the committed
    table every record of the batch has [txid = t], [paid_time] set to the
    clock reading taken for it in the success loop and [locked = False];
    that commit is the last thing the process does. *)
Theorem payout_success_recorded cfg env simulate db recip t :
  SendMany recip (Ok t) ∈ journal_of (entry cfg env DoPayout simulate db) →
  returned (entry cfg env DoPayout simulate db) = Returns (PyStr t)
  ∧ (∀ k o, batch db !! k = Some o →
       ∃ r', store_after (entry cfg env DoPayout simulate db) !! o.1 = Some r'
             ∧ txid r' = Some t
             ∧ paid_time r'
               = Some (utcnow env (length (batch db) + k)%nat)
             ∧ locked r' = false)
  ∧ last (journal_of (entry cfg env DoPayout simulate db))
    = Some (Commit (store_after (entry cfg env DoPayout simulate db))).
Proof.
  remember (entry cfg env DoPayout simulate db) as r eqn:Hr.
  intros Hsend. payout_cases Hr; subst r;
    unfold journal_of, returned, store_after in *; simpl in *;
    inv_elem Hsend.
  all: split; [done|]; split; [|done].
  all: intros k p Hk; destruct (batch_lookup _ _ _ Hk) as [Hp _].
  all: rewrite !(batch_update_lookup _ _ _ _ _ _ Hk).
  all: rewrite Hp; simpl; eauto.
Qed.

(** C5.  A successful payout of the two records of "1ABC", run: the dict
    handed to [sendmany] is the aggregation {"1ABC": 750000000} with the
    entry "test": 1.1 added, which is not the aggregation. *)
Theorem payout_sends_test_entry :
  sends (journal_of (entry demo_cfg env_send_ok DoPayout false demo_db))
    = [ <["test"%string := float_1_1]>
          {["1ABC"%string := PyInt 750000000]} ]
  ∧ is_aggregation (batch demo_db).*2 {["1ABC"%string := PyInt 750000000]}
  ∧ ¬ is_aggregation (batch demo_db).*2
        (<["test"%string := float_1_1]>
           {["1ABC"%string := PyInt 750000000]}).
Proof.
  split; [by vm_compute|]. split.
  - assert ({["1ABC"%string := PyInt 750000000]}
            = PyInt <$> user_payout_amounts demo_db) as -> by by vm_compute.
    apply user_payout_amounts_is_aggregation.
  - intros H. specialize (H "test"%string). vm_compute in H. discriminate H.
Qed.

Lemma has_pid_known p t :
  p ∈ pid <$> t → select (has_pid p) t ≠ [].
Proof. intros Hp Hsel. by apply has_pid_absent in Hsel. Qed.

(** A counter raised before the loop goes on is raised at its end. *)
Lemma pull_fold_bump cfg env (b : bool) items t c new repeat invalid :
  foldl (pull_step cfg env)
        (t, c, if b then (new, S repeat, invalid)
               else (new, repeat, S invalid)) items
  = let st := foldl (pull_step cfg env) (t, c, (new, repeat, invalid)) items in
    (st.1, if b then (st.2.1.1, S st.2.1.2, st.2.2)
           else (st.2.1.1, st.2.1.2, S st.2.2)).
Proof.
  revert t c new repeat invalid.
  induction items as [|[[u a] p] items IH]; intros t c new repeat invalid.
  - by destruct b.
  - destruct b; simpl; destruct (address_ok cfg u);
      try destruct (select (has_pid p) t);
      first [ apply (IH _ _ (S new) repeat invalid)
            | apply (IH _ _ new (S repeat) invalid)
            | apply (IH _ _ new repeat (S invalid)) ].
Qed.

(** An item whose pid is in the table [db], anywhere in the list: the
    loop ends on the same table and clock as without it, with one more
    repeat or one more invalid item. *)
Lemma pull_fold_known_item cfg env db before after u a p :
  p ∈ pid <$> db →
  foldl (pull_step cfg env) (db, 0%nat, (0, 0, 0)%nat)
        (before ++ (u, a, p) :: after)
  = let st := foldl (pull_step cfg env) (db, 0%nat, (0, 0, 0)%nat)
                    (before ++ after) in
    (st.1, if address_ok cfg u then (st.2.1.1, S st.2.1.2, st.2.2)
           else (st.2.1.1, st.2.1.2, S st.2.2)).
Proof.
  intros Hp. rewrite !foldl_app. cbn [foldl].
  destruct (pull_fold_extends cfg env before (db, 0%nat, (0, 0, 0)%nat))
    as (added & Heq).
  destruct (foldl (pull_step cfg env) (db, 0%nat, (0, 0, 0)%nat) before)
    as [[t1 c1] [[n1 r1] i1]].
  simpl in Heq. subst t1.
  assert (pull_step cfg env (db ++ added, c1, (n1, r1, i1)) (u, a, p)
          = (db ++ added, c1,
             if address_ok cfg u then (n1, S r1, i1) else (n1, r1, S i1)))
    as ->.
  { simpl. destruct (address_ok cfg u); [|done].
    destruct (select (has_pid p) (db ++ added)) eqn:Hsel; [|done].
    apply has_pid_known in Hsel; [done|].
    rewrite fmap_app. apply elem_of_app. by left. }
  apply pull_fold_bump.
Qed.

(** C6, as the code has it.  For an external id that is already in the
    table (pids being unique, as the column is) and whatever list a real
    run of [pull_payouts] receives: an item with that id in the list,
    wherever it stands, makes no difference to the table the run leaves
    nor to its result, and in a run that logs its counters it adds
    exactly one to the repeats when its address passes the version
    check, and one to the invalid items when it does not; and after any
    number of pulls, of whatever lists, the table still holds exactly one
    row with that id. *)
Theorem pull_existing_id_is_idempotent
    cfg env db before after u a p pulls :
  NoDup (pid <$> db) →
  p ∈ pid <$> db →
  Forall (λ x, inv_action x = PullPayouts) pulls →
  store_after (entry cfg (offering env (before ++ (u, a, p) :: after))
                     PullPayouts false db)
  = store_after (entry cfg (offering env (before ++ after))
                       PullPayouts false db)
  ∧ returned (entry cfg (offering env (before ++ (u, a, p) :: after))
                    PullPayouts false db)
    = returned (entry cfg (offering env (before ++ after))
                      PullPayouts false db)
  ∧ (∀ new repeat invalid,
       pull_summary (journal_of (entry cfg (offering env (before ++ after))
                                       PullPayouts false db))
       = Some (new, repeat, invalid) →
       pull_summary
         (journal_of (entry cfg (offering env (before ++ (u, a, p) :: after))
                            PullPayouts false db))
       = Some (if address_ok cfg u then (new, S repeat, invalid)
               else (new, repeat, S invalid)))
  ∧ length (rows_with p (run pulls db)) = 1%nat.
Proof.
  intros Hnd Hp Hpulls.
  set (with_it := before ++ (u, a, p) :: after).
  set (without := before ++ after).
  assert (get_payouts (offering env with_it) = Ok with_it) as Hget2
    by reflexivity.
  assert (get_payouts (offering env without) = Ok without) as Hget1
    by reflexivity.
  pose proof (pull_fold_known_item cfg env db before after u a p Hp) as Hfold.
  fold with_it without in Hfold. cbv zeta in Hfold.
  assert (pull_fits cfg (offering env with_it) db with_it
          = pull_fits cfg (offering env without) db without) as Hfits.
  { unfold pull_fits.
    change (pull_step cfg (offering env with_it)) with (pull_step cfg env).
    change (pull_step cfg (offering env without)) with (pull_step cfg env).
    by rewrite Hfold. }
  assert (length (rows_with p (run pulls db)) = 1%nat) as Hone.
  { rewrite (rows_with_pulled p db); [|by apply run_pulls_onto|done].
    by apply rows_with_unique. }
  destruct (pull_fits cfg (offering env without) db without) eqn:Hfits1.
  - rewrite (pull_payouts_run _ _ _ _ Hget2 Hfits),
      (pull_payouts_run _ _ _ _ Hget1 Hfits1).
    change (pull_step cfg (offering env with_it)) with (pull_step cfg env).
    change (pull_step cfg (offering env without)) with (pull_step cfg env).
    rewrite Hfold.
    unfold store_after, returned, journal_of, pull_summary. simpl.
    repeat split; try done.
    intros new repeat invalid [= <- <- <-].
    by destruct (address_ok cfg u).
  - destruct (pull_payouts_overflow _ _ _ _ Hget2 Hfits) as (c2 & ->).
    destruct (pull_payouts_overflow _ _ _ _ Hget1 Hfits1) as (c1 & ->).
    unfold store_after, returned, journal_of, pull_summary. simpl.
    repeat split; try done.
Qed.

(** C6, as stated, fails: "ext-1" is in the table, the remote offers it
    again with an address that does not pass the version check, and the
    run counts it as invalid, not as a repeat. *)
Lemma pull_bad_address_not_counted_duplicate :
  ("ext-1"%string ∈ pid <$> demo_db)
  ∧ get_payouts env_offers_bad_address
    = Ok [("xyz"%string, 500000000, "ext-1"%string)]
  ∧ pull_summary (journal_of (entry demo_cfg env_offers_bad_address
                                    PullPayouts false demo_db))
    = Some (0, 0, 1)%nat.
Proof. split; [left|]. by vm_compute. Qed.

(** C7.  A group of two paid records that the remote accepts, run: one
    push, then one commit per record; after the first commit the file has
    the first record associated and the second not. *)
Theorem associate_commits_each_record :
  journal_of (entry demo_cfg env_send_ok AssociateAll false demo_paid_db)
  = [ UpdatePayouts "tx-1" ["ext-1"%string; "ext-2"%string] (Ok true);
      Commit [ assoc_row env_send_ok 0
                 (set_txid "tx-1" (new_payout "ext-1" "1ABC" 500000000 0%nat));
               set_txid "tx-1" (new_payout "ext-2" "1ABC" 250000000 1%nat) ];
      Commit [ assoc_row env_send_ok 0
                 (set_txid "tx-1" (new_payout "ext-1" "1ABC" 500000000 0%nat));
               assoc_row env_send_ok 1
                 (set_txid "tx-1" (new_payout "ext-2" "1ABC" 250000000 1%nat)) ] ].
Proof. by vm_compute. Qed.

(** C8.  Whatever commands run, in whatever processes: if [associated]
    implies a txid on every stored row before, it does so after; and a
    row whose txid is set keeps that txid. *)
Theorem invariants_preserved xs db :
  coherent db →
  coherent (run xs db)
  ∧ ∀ i r, db !! i = Some r → txid r ≠ None →
      ∃ r', run xs db !! i = Some r' ∧ txid r' = txid r.
Proof.
  intros Hdb. split; [by apply run_coherent|].
  intros i r. apply run_keeps_txid.
Qed.

(** C9, as the code has it.  The fee dict pushed by [confirm_trans] has an
    entry for a txid exactly when, for one of the unconfirmed objects with
    that txid, the wallet's lookup succeeded and reported a fee while the
    object carried a 'fee' key with nothing in it (null, zero, false or
    empty); an object without the key gets no entry.  The entry is the
    reported fee in satoshi. *)
Theorem confirm_fee_map cfg env simulate db tids fees ans :
  ConfirmTransactions tids fees ans
    ∈ journal_of (entry cfg env ConfirmTrans simulate db) →
  ∃ res,
    get_unconfirmed env = Ok res
    ∧ (∀ t v, fees !! t = Some v →
         ∃ n obj trans_data d,
           objects res !! n = Some obj ∧ obj_txid obj = t
           ∧ gettransaction env n t = Ok trans_data
           ∧ fee trans_data = Some (WDecimal d)
           ∧ fee_unpopulated obj ∧ v = satoshi d)
    ∧ (∀ n obj trans_data,
         objects res !! n = Some obj →
         gettransaction env n (obj_txid obj) = Ok trans_data →
         is_Some (fee trans_data) → fee_unpopulated obj →
         is_Some (fees !! obj_txid obj)).
Proof.
  unfold journal_of, entry, call, command, confirm_trans, boot, poke_rpc.
  unfold_monad. simpl.
  destruct (getinfo env) as [[]|[]]; simpl; intros Hin; try by inv_elem Hin.
  destruct (get_unconfirmed env) as [res|e]; simpl in Hin;
    [|by inv_elem Hin].
  destruct (success res); simpl in Hin; [|by inv_elem Hin].
  destruct (fold_each (imap pair (objects res)) ([], ∅)
              (confirm_one cfg env) _) as [[[tids' fees']|e|c] w'] eqn:Hloop;
    simpl in Hin.
  2, 3: apply confirm_loop_journal in Hloop as (evs & Hj & Hevs);
        rewrite Hj in Hin; simpl in Hin; inv_elem Hin;
        by apply not_lookup_in in Hin.
  apply confirm_loop in Hloop as ((evs & Hj & Hevs) & Hval & _ & Hall).
  simpl in *.
  assert (tids = tids' ∧ fees = fees') as [-> ->].
  { destruct (negb (bool_decide (tids' = [])) || negb (bool_decide (fees' = ∅)));
      simpl in Hin.
    - destruct (confirm_transactions env tids' fees') as [[]|e]; simpl in Hin;
        rewrite Hj in Hin; simpl in Hin; inv_elem Hin;
        apply elem_of_app in Hin as [Hin|Hin];
        try (by apply not_lookup_in in Hin); by inv_elem Hin.
    - rewrite Hj in Hin. simpl in Hin. inv_elem Hin.
      by apply not_lookup_in in Hin. }
  exists res. split; [done|]. split.
  - intros t v Hv. destruct (Hval t v Hv) as [Hold|Hnew].
    + by rewrite lookup_empty in Hold.
    + destruct Hnew as (n & obj & td & d & Hobj & Hrest).
      exists n, obj, td, d. split; [|done].
      apply elem_of_lookup_imap in Hobj as (n' & obj' & [= -> ->] & Hobj).
      done.
  - intros n obj td Hobj. apply Hall.
    apply elem_of_lookup_imap. eauto.
Qed.

(** C9, as stated, fails: the wallet reports a fee for "tx-1" and the
    remote's object has no fee value, having no 'fee' key at all; the
    fee dict pushed is empty. *)
Lemma confirm_skips_object_without_fee_key :
  get_unconfirmed env_no_fee_key
  = Ok {| success := true;
          objects := [ {| obj_txid := "tx-1"; obj_fee := None |} ] |}
  ∧ gettransaction env_no_fee_key 0 "tx-1" = Ok demo_lookup
  ∧ is_Some (fee demo_lookup)
  ∧ journal_of (entry demo_cfg env_no_fee_key ConfirmTrans false [])
    = [ GetInfo (Ok tt);
        GetUnconfirmed (get_unconfirmed env_no_fee_key);
        GetTransaction "tx-1" (Ok demo_lookup);
        ConfirmTransactions ["tx-1"%string] ∅ (Ok true) ].
Proof. repeat split; try by vm_compute. by eexists. Qed.

(** C10.  [reset_all_locked] touches nothing but the [locked] flag: the
    table keeps its length, every row keeps its pid, user, amount, txid,
    [associated] and all four times, a row that was unlocked is the same
    row, and after a real run every row is unlocked (under [--simulate]
    the process exits before the update and nothing changes). *)
Theorem reset_all_locked_frame cfg env simulate db :
  length (store_after (entry cfg env ResetAllLocked simulate db))
    = length db
  ∧ ∀ i r, db !! i = Some r →
      ∃ r', store_after (entry cfg env ResetAllLocked simulate db) !! i
              = Some r'
            ∧ pid r' = pid r ∧ user r' = user r ∧ amount r' = amount r
            ∧ txid r' = txid r ∧ associated r' = associated r
            ∧ lock_time r' = lock_time r ∧ paid_time r' = paid_time r
            ∧ assoc_time r' = assoc_time r ∧ pull_time r' = pull_time r
            ∧ locked r' = (if simulate then locked r else false)
            ∧ (locked r = false → r' = r).
Proof.
  rewrite reset_all_locked_store. destruct simulate.
  - split; [done|]. intros i r Hi. exists r. by repeat split.
  - split; [by rewrite length_fmap|]. intros i r Hi.
    rewrite list_lookup_fmap, Hi. simpl. eexists. split; [done|].
    destruct (locked r) eqn:Hl; simpl; repeat split; try done.
Qed.

(** ** The theorems at work on the sample data *)

Ltac find_event :=
  repeat first [ apply list_elem_of_here | apply list_elem_of_further ].

Lemma payout_ambiguous_failure_witness :
  send_failed
    (journal_of (entry demo_cfg env_send_fails_changed DoPayout false
                       demo_db)) = true
  ∧ balance_reads
      (journal_of (entry demo_cfg env_send_fails_changed DoPayout false
                         demo_db)) = [2000000000; 1250000000]
  ∧ 1250000000 ≠ 2000000000
  ∧ Forall (λ x, inv_action x ≠ ResetAllLocked) demo_later
  ∧ returned (entry demo_cfg env_send_fails_changed DoPayout false demo_db)
    = Returns PyFalse.
Proof.
  assert (send_failed
            (journal_of (entry demo_cfg env_send_fails_changed DoPayout false
                               demo_db)) = true) as H1
    by (vm_compute; reflexivity).
  assert (balance_reads
            (journal_of (entry demo_cfg env_send_fails_changed DoPayout false
                               demo_db)) = [2000000000; 1250000000]) as H2
    by (vm_compute; reflexivity).
  assert (1250000000 ≠ 2000000000) as H3 by lia.
  assert (Forall (λ x, inv_action x ≠ ResetAllLocked) demo_later) as H4
    by (repeat constructor; discriminate).
  split; [exact H1|]. split; [exact H2|]. split; [exact H3|].
  split; [exact H4|].
  exact (proj1 (payout_ambiguous_failure_stays_locked
                  demo_cfg env_send_fails_changed false demo_db
                  2000000000 1250000000 demo_later H1 H2 H3 H4)).
Defined.

Lemma payout_insufficient_funds_witness :
  head (balance_reads
          (journal_of (entry demo_cfg env_low_balance DoPayout false
                             demo_db))) = Some 500000000
  ∧ 500000000 < sum_values (user_payout_amounts demo_db)
  ∧ sends (journal_of (entry demo_cfg env_low_balance DoPayout false
                             demo_db)) = []
  ∧ returned (entry demo_cfg env_low_balance DoPayout false demo_db)
    = Returns PyFalse.
Proof.
  assert (head (balance_reads
                  (journal_of (entry demo_cfg env_low_balance DoPayout false
                                     demo_db))) = Some 500000000) as H1
    by (vm_compute; reflexivity).
  assert (500000000 < sum_values (user_payout_amounts demo_db)) as H2
    by (vm_compute; reflexivity).
  pose proof (payout_insufficient_funds demo_cfg env_low_balance false
                demo_db 500000000 H1 H2) as (Hsends & Hret & _).
  split; [exact H1|]. split; [exact H2|]. split; [exact Hsends|exact Hret].
Defined.

Lemma payout_success_recorded_witness :
  SendMany (recipients (user_payout_amounts demo_db)) (Ok "tx-1"%string)
    ∈ journal_of (entry demo_cfg env_send_ok DoPayout false demo_db)
  ∧ returned (entry demo_cfg env_send_ok DoPayout false demo_db)
    = Returns (PyStr "tx-1").
Proof.
  assert (SendMany (recipients (user_payout_amounts demo_db))
                   (Ok "tx-1"%string)
            ∈ journal_of (entry demo_cfg env_send_ok DoPayout false demo_db))
    as H1 by (vm_compute; find_event).
  split; [assumption|].
  exact (proj1 (payout_success_recorded demo_cfg env_send_ok false demo_db
                  _ _ H1)).
Defined.

Lemma pull_existing_id_witness :
  NoDup (pid <$> demo_db)
  ∧ "ext-1"%string ∈ pid <$> demo_db
  ∧ Forall (λ x, inv_action x = PullPayouts) demo_pulls
  ∧ pull_summary
      (journal_of
         (entry demo_cfg
            (offering env_send_ok
               [("1ABC"%string, 250000000, "ext-2"%string);
                ("1DEF"%string, 100000000, "ext-3"%string)])
            PullPayouts false demo_db))
    = Some (1, 1, 0)%nat
  ∧ pull_summary
      (journal_of
         (entry demo_cfg
            (offering env_send_ok
               [("1ABC"%string, 250000000, "ext-2"%string);
                ("1ABC"%string, 500000000, "ext-1"%string);
                ("1DEF"%string, 100000000, "ext-3"%string)])
            PullPayouts false demo_db))
    = Some (1, 2, 0)%nat
  ∧ store_after
      (entry demo_cfg
         (offering env_send_ok
            [("1ABC"%string, 250000000, "ext-2"%string);
             ("1ABC"%string, 500000000, "ext-1"%string);
             ("1DEF"%string, 100000000, "ext-3"%string)])
         PullPayouts false demo_db)
    = store_after
        (entry demo_cfg
           (offering env_send_ok
              [("1ABC"%string, 250000000, "ext-2"%string);
               ("1DEF"%string, 100000000, "ext-3"%string)])
           PullPayouts false demo_db)
  ∧ length (rows_with "ext-1" (run demo_pulls demo_db)) = 1%nat.
Proof.
  assert (NoDup (pid <$> demo_db)) as H1
    by (apply (@bool_decide_unpack (NoDup (pid <$> demo_db)) _);
        vm_compute; exact I).
  assert ("ext-1"%string ∈ pid <$> demo_db) as H2
    by (vm_compute; find_event).
  assert (Forall (λ x, inv_action x = PullPayouts) demo_pulls) as H3
    by (repeat constructor).
  assert (pull_summary
            (journal_of
               (entry demo_cfg
                  (offering env_send_ok
                     [("1ABC"%string, 250000000, "ext-2"%string);
                      ("1DEF"%string, 100000000, "ext-3"%string)])
                  PullPayouts false demo_db))
          = Some (1, 1, 0)%nat) as H4
    by (vm_compute; reflexivity).
  pose proof (pull_existing_id_is_idempotent demo_cfg env_send_ok demo_db
                [("1ABC"%string, 250000000, "ext-2"%string)]
                [("1DEF"%string, 100000000, "ext-3"%string)]
                "1ABC" 500000000 "ext-1" demo_pulls H1 H2 H3)
    as (Hs & _ & Hc & Hl).
  split; [exact H1|]. split; [exact H2|]. split; [exact H3|].
  split; [exact H4|]. split; [exact (Hc _ _ _ H4)|].
  split; [exact Hs|exact Hl].
Defined.

Lemma invariants_preserved_witness :
  coherent demo_paid_db
  ∧ coherent (run demo_later demo_paid_db).
Proof.
  assert (coherent demo_paid_db) as H1.
  { intros r Hr Ha. unfold demo_paid_db in Hr.
    apply elem_of_cons in Hr as [->|Hr]; [discriminate|].
    apply elem_of_cons in Hr as [->|Hr]; [discriminate|].
    by apply elem_of_nil in Hr. }
  split; [assumption|].
  exact (proj1 (invariants_preserved demo_later demo_paid_db H1)).
Defined.

Lemma confirm_fee_map_witness :
  ConfirmTransactions ["tx-1"%string] {["tx-1"%string := -10000]} (Ok true)
    ∈ journal_of (entry demo_cfg env_empty_fee ConfirmTrans false [])
  ∧ ∃ res,
      get_unconfirmed env_empty_fee = Ok res
      ∧ (∀ t v, ({["tx-1"%string := -10000]} : gmap string Z) !! t = Some v →
           ∃ n obj trans_data d,
             objects res !! n = Some obj ∧ obj_txid obj = t
             ∧ gettransaction env_empty_fee n t = Ok trans_data
             ∧ fee trans_data = Some (WDecimal d)
             ∧ fee_unpopulated obj ∧ v = satoshi d)
      ∧ (∀ n obj trans_data,
           objects res !! n = Some obj →
           gettransaction env_empty_fee n (obj_txid obj) = Ok trans_data →
           is_Some (fee trans_data) → fee_unpopulated obj →
           is_Some (({["tx-1"%string := -10000]} : gmap string Z)
                      !! obj_txid obj)).
Proof.
  assert (ConfirmTransactions ["tx-1"%string] {["tx-1"%string := -10000]}
                              (Ok true)
            ∈ journal_of (entry demo_cfg env_empty_fee ConfirmTrans false []))
    as H1 by (vm_compute; find_event).
  split; [assumption|].
  exact (confirm_fee_map demo_cfg env_empty_fee false [] _ _ _ H1).
Defined.

Lemma reset_all_locked_frame_witness :
  demo_locked_db !! 0%nat
  = Some (lock_row env_send_ok 0 (new_payout "ext-1" "1ABC" 500000000 0%nat))
  ∧ ∃ r', store_after (entry demo_cfg env_send_ok ResetAllLocked false
                             demo_locked_db) !! 0%nat = Some r'
          ∧ locked r' = false
          ∧ lock_time r' = Some 0%nat.
Proof.
  assert (demo_locked_db !! 0%nat
          = Some (lock_row env_send_ok 0
                    (new_payout "ext-1" "1ABC" 500000000 0%nat))) as H1
    by reflexivity.
  split; [assumption|].
  destruct (proj2 (reset_all_locked_frame demo_cfg env_send_ok false
                     demo_locked_db) 0%nat _ H1)
    as (r' & Hr' & _ & _ & _ & _ & _ & Hlt & _ & _ & _ & Hl & _).
  exists r'. split; [exact Hr'|]. split; [exact Hl|exact Hlt].
Defined.

(** * Further properties of the commands *)

(** ** [payout] *)

Lemma select_none P t :
  (∀ i r, t !! i = Some r → P r = false) → select P t = [].
Proof.
  intros H. destruct (select P t) as [|[i r] os] eqn:Hsel; [done|].
  assert ((i, r) ∈ select P t) as Hin by (rewrite Hsel; left).
  apply elem_of_select in Hin as [Hi HP]. rewrite (H i r Hi) in HP. done.
Qed.

Lemma select_rows P t : (select P t).*2 = filter (λ r, P r = true) t.
Proof.
  unfold select.
  assert (∀ n, (filter (λ o : nat * Payout, P o.2 = true)
                  (imap (λ i, pair (n + i)%nat) t)).*2
               = filter (λ r, P r = true) t) as H; [|apply (H 0%nat)].
  induction t as [|r t IH]; intros n; [done|].
  rewrite imap_cons, !filter_cons. cbn [snd].
  rewrite (imap_ext _ (λ i, pair (S n + i)%nat) t)
    by (intros i y _; simpl; f_equal; lia).
  destruct (decide (P r = true)); rewrite ?fmap_cons; cbn [snd];
    by rewrite IH.
Qed.

(** X1.  With the wallet alive and no row that is unpaid and unlocked,
    [payout] returns [True] having asked the wallet nothing but
    [getinfo], and leaves the table as it was. *)
Theorem payout_nothing_to_pay cfg env simulate db :
  getinfo env = Ok tt →
  (∀ r, r ∈ db → txid r ≠ None ∨ locked r = true) →
  entry cfg env DoPayout simulate db
  = (Returns PyTrue,
     {| durable := db; session := db; clock := 0;
        journal := [GetInfo (Ok tt)] |}).
Proof.
  intros Hgi Hnone.
  assert (batch db = []) as Hb.
  { apply select_none. intros i r Hi.
    destruct (unpaid_unlocked r) eqn:Hu; [|done].
    apply unpaid_unlocked_true in Hu as [Htx Hl].
    destruct (Hnone r) as [H|H]; [by eapply list_elem_of_lookup_2|done|].
    congruence. }
  unfold entry, call, command, payout, boot, poke_rpc. unfold_monad. simpl.
  rewrite Hgi. simpl. change (select unpaid_unlocked db) with (batch db).
  by rewrite Hb.
Qed.

(** X2.  When [getinfo] fails, for whatever reason, neither [payout] nor
    [confirm_trans] goes any further: no other call is made, nothing is
    written, and the command line gets [False]. *)
Theorem wallet_down_stops_command cfg env simulate db e :
  getinfo env = Fails e →
  entry cfg env DoPayout simulate db
  = (Returns PyFalse,
     {| durable := db; session := db; clock := 0;
        journal := [GetInfo (Fails e)] |})
  ∧ entry cfg env ConfirmTrans simulate db
    = (Returns PyFalse,
       {| durable := db; session := db; clock := 0;
          journal := [GetInfo (Fails e)] |}).
Proof.
  intros Hgi.
  unfold entry, call, command, payout, confirm_trans, boot, poke_rpc.
  unfold_monad. simpl. rewrite Hgi. by destruct e.
Qed.

Lemma before_send_commits_lock j1 recip r j2 :
  sends j1 = [] →
  before_send (j1 ++ SendMany recip r :: j2) = j1.
Proof.
  induction j1 as [|ev j1 IH]; intros Hs; [done|].
  destruct ev; simpl in *; try (by rewrite IH); done.
Qed.

(** X3.  [payout] calls [sendmany] only after it has committed the lock:
    when the call is made, the file already holds every record of the
    batch with [locked = True], its lock time, and no txid, and that is
    the only commit so far. *)
Theorem payout_lock_committed_before_send cfg env simulate db recip r :
  SendMany recip r ∈ journal_of (entry cfg env DoPayout simulate db) →
  ∃ t, commits (before_send (journal_of (entry cfg env DoPayout simulate db)))
       = [t]
       ∧ ∀ k o, batch db !! k = Some o →
           ∃ row, t !! o.1 = Some row
                  ∧ locked row = true
                  ∧ lock_time row = Some (utcnow env k)
                  ∧ txid row = None.
Proof.
  remember (entry cfg env DoPayout simulate db) as res eqn:Hr.
  intros Hsend. payout_cases Hr; subst res;
    unfold journal_of in *; simpl in *; inv_elem Hsend.
  all: eexists; split; [reflexivity|].
  all: intros k p Hk; destruct (batch_lookup _ _ _ Hk) as [Hp Hu].
  all: apply unpaid_unlocked_true in Hu as [Htx Hl].
  all: rewrite (batch_update_lookup _ _ _ _ _ _ Hk), Hp; simpl; eauto.
Qed.

(** X4.  One run of [payout] calls [sendmany] at most once. *)
Theorem payout_sends_at_most_once cfg env simulate db :
  (length (sends (journal_of (entry cfg env DoPayout simulate db))) ≤ 1)%nat.
Proof.
  remember (entry cfg env DoPayout simulate db) as res eqn:Hr.
  payout_cases Hr; subst res; unfold journal_of; simpl; lia.
Qed.

(** X5.  Under [--simulate], [payout] never unlocks the wallet, never sets
    the fee and never sends; and unless the operator answers "y" it
    commits nothing. *)
Theorem payout_simulate_moves_no_funds cfg env db :
  existsb is_wallet_write (journal_of (entry cfg env DoPayout true db))
    = false
  ∧ (raw_input env = "y"%string
     ∨ store_after (entry cfg env DoPayout true db) = db
       ∧ commits (journal_of (entry cfg env DoPayout true db)) = []).
Proof.
  remember (entry cfg env DoPayout true db) as res eqn:Hr.
  payout_cases Hr; subst res; unfold journal_of, store_after; simpl;
    (split; [done|]); try (by right).
  left. by apply String.eqb_eq, negb_false_iff.
Qed.

(** X6.  Under [--simulate] with the answer "y", [payout] returns the
    fake txid and commits it on every record of the batch, unlocked and
    with a paid time; the lock itself was rolled back, so the lock time
    is the one the record had. *)
Theorem payout_simulate_accepted cfg env simulate db :
  RawInput "y" ∈ journal_of (entry cfg env DoPayout simulate db) →
  simulate = true
  ∧ returned (entry cfg env DoPayout simulate db) = Returns (PyStr fake_txid)
  ∧ ∀ k o, batch db !! k = Some o →
      ∃ row, store_after (entry cfg env DoPayout simulate db) !! o.1
               = Some row
             ∧ txid row = Some fake_txid
             ∧ locked row = false
             ∧ lock_time row = lock_time o.2
             ∧ paid_time row = Some (utcnow env (length (batch db) + k)%nat).
Proof.
  remember (entry cfg env DoPayout simulate db) as res eqn:Hr.
  intros Hin. payout_cases Hr; subst res;
    unfold journal_of, returned, store_after in *; simpl in *; inv_elem Hin.
  all: try match goal with
           | E : negb (?x =? "y")%string = true, H : "y"%string = ?x |- _ =>
               rewrite <- H, String.eqb_refl in E; discriminate E
           end.
  all: split; [done|]; split; [done|].
  all: intros k p Hk; destruct (batch_lookup _ _ _ Hk) as [Hp Hu].
  all: rewrite (batch_update_lookup _ _ _ _ _ _ Hk), Hp; simpl.
  all: eexists; split; [reflexivity|]; by repeat split.
Qed.

(** X7.  A [sendmany] that fails with anything but CoinRPCException (a
    timeout, say) is not handled by [payout]: the balance is not read
    again, the batch stays locked in the file, and [call] turns the
    exception into [False]. *)
Theorem payout_unhandled_send_failure cfg env simulate db recip e :
  SendMany recip (Fails e) ∈ journal_of (entry cfg env DoPayout simulate db) →
  e ≠ CoinRPCException →
  returned (entry cfg env DoPayout simulate db) = Returns PyFalse
  ∧ length (balance_reads
              (journal_of (entry cfg env DoPayout simulate db))) = 1%nat
  ∧ ∀ k o, batch db !! k = Some o →
      ∃ row, store_after (entry cfg env DoPayout simulate db) !! o.1
               = Some row
             ∧ locked row = true ∧ txid row = None.
Proof.
  remember (entry cfg env DoPayout simulate db) as res eqn:Hr.
  intros Hin Hne. payout_cases Hr; subst res;
    unfold journal_of, returned, store_after in *; simpl in *; inv_elem Hin.
  all: try match goal with
           | E : is_CoinRPCException ?x = true, N : ?x ≠ CoinRPCException
             |- _ => by destruct x
           end.
  all: split; [done|]; split; [done|].
  all: intros k p Hk; destruct (batch_lookup _ _ _ Hk) as [Hp Hu].
  all: apply unpaid_unlocked_true in Hu as [Htx Hl].
  all: rewrite (batch_update_lookup _ _ _ _ _ _ Hk), Hp; simpl; eauto.
Qed.

(** X8.  If the wallet cannot be asked its balance, [payout] has written
    nothing: the locks were only in the session, no send is made, and the
    command line gets [False]. *)
Theorem payout_balance_unreadable cfg env simulate db e :
  GetBalance (Fails e) ∈ journal_of (entry cfg env DoPayout simulate db) →
  balance_reads (journal_of (entry cfg env DoPayout simulate db)) = [] →
  returned (entry cfg env DoPayout simulate db) = Returns PyFalse
  ∧ store_after (entry cfg env DoPayout simulate db) = db
  ∧ sends (journal_of (entry cfg env DoPayout simulate db)) = [].
Proof.
  remember (entry cfg env DoPayout simulate db) as res eqn:Hr.
  intros Hin Hreads. payout_cases Hr; subst res;
    unfold journal_of, returned, store_after in *; simpl in *;
    try discriminate Hreads; inv_elem Hin.
  all: done.
Qed.

(** X9.  [total_out], the amount the balance is compared with, is the sum
    of the amounts of the rows that are unpaid and unlocked. *)
Theorem payout_total_is_sum_of_eligible db :
  sum_values (user_payout_amounts db)
  = zsum (amount <$> filter (λ r, unpaid_unlocked r = true) db).
Proof.
  rewrite total_out_is_sum. unfold batch. by rewrite select_rows.
Qed.

(** X10.  Once [payout] has called [sendmany], whatever came of the call,
    the file holds no row that is unpaid and unlocked: a second [payout]
    has nothing to pay until new rows are pulled or the locks are
    reset. *)
Theorem payout_leaves_nothing_eligible cfg env simulate db recip r :
  SendMany recip r ∈ journal_of (entry cfg env DoPayout simulate db) →
  batch (store_after (entry cfg env DoPayout simulate db)) = [].
Proof.
  intros Hsend. apply select_none. intros i row' Hi'.
  destruct (db !! i) as [row|] eqn:Hi.
  2: { apply lookup_ge_None in Hi. apply lookup_lt_Some in Hi'.
       rewrite payout_length in Hi'. lia. }
  destruct (batch_cases db i row Hi) as [[Hu Hni]|[Hu [k Hk]]].
  - destruct (payout_rows cfg env simulate db i row Hi)
      as (r1 & Hr1 & _ & Hsame).
    rewrite Hi' in Hr1. injection Hr1 as <-. by rewrite (Hsame Hu).
  - revert Hsend Hi'.
    remember (entry cfg env DoPayout simulate db) as res eqn:Hr.
    intros Hsend Hi'. payout_cases Hr; subst res;
      unfold journal_of, store_after in *; simpl in *; inv_elem Hsend.
    all: rewrite ?(batch_update_lookup _ _ _ _ _ _ Hk) in Hi';
      simpl in Hi'; rewrite Hi in Hi'; simpl in Hi'.
    all: injection Hi' as <-; unfold unpaid_unlocked; simpl.
    all: try done.
    all: apply andb_false_r.
Qed.

(** ** [pull_payouts] *)

Lemma pull_step_counts cfg env t c cnt item :
  let st := pull_step cfg env (t, c, cnt) item in
  (st.2.1.1 + st.2.1.2 + st.2.2 = S (cnt.1.1 + cnt.1.2 + cnt.2)
   ∧ length st.1.1 + cnt.1.1 = length t + st.2.1.1)%nat.
Proof.
  destruct cnt as [[new repeat] invalid], item as [[u a] p]. simpl.
  destruct (address_ok cfg u); simpl; [|lia].
  destruct (select (has_pid p) t); simpl; rewrite ?length_app; simpl; lia.
Qed.

Lemma pull_fold_counts cfg env items st :
  let st' := foldl (pull_step cfg env) st items in
  (st'.2.1.1 + st'.2.1.2 + st'.2.2
   = length items + (st.2.1.1 + st.2.1.2 + st.2.2)
   ∧ length st'.1.1 + st.2.1.1 = length st.1.1 + st'.2.1.1)%nat.
Proof.
  revert st. induction items as [|item items IH]; intros [[t c] cnt];
    [simpl; lia|].
  simpl foldl. specialize (IH (pull_step cfg env (t, c, cnt) item)).
  pose proof (pull_step_counts cfg env t c cnt item) as Hstep.
  simpl in *. lia.
Qed.

Lemma pull_step_pids cfg env t c cnt item :
  pid <$> t ⊆ pid <$> (pull_step cfg env (t, c, cnt) item).1.1
  ∧ (address_ok cfg item.1.1 = true →
     item.2 ∈ pid <$> (pull_step cfg env (t, c, cnt) item).1.1).
Proof.
  destruct cnt as [[new repeat] invalid], item as [[u a] p]. simpl.
  destruct (address_ok cfg u); simpl; [|done].
  destruct (select (has_pid p) t) eqn:Hsel; simpl.
  - rewrite fmap_app. split.
    + intros q Hq. apply elem_of_app. by left.
    + intros _. apply elem_of_app. right. simpl. left.
  - split; [done|]. intros _. by eapply has_pid_present.
Qed.

Lemma pull_fold_pids cfg env items st :
  pid <$> st.1.1 ⊆ pid <$> (foldl (pull_step cfg env) st items).1.1
  ∧ ∀ item, item ∈ items → address_ok cfg item.1.1 = true →
      item.2 ∈ pid <$> (foldl (pull_step cfg env) st items).1.1.
Proof.
  revert st. induction items as [|item items IH]; intros [[t c] cnt].
  - split; [done|]. intros item Hin. by apply elem_of_nil in Hin.
  - simpl foldl.
    destruct (IH (pull_step cfg env (t, c, cnt) item)) as [Hsub Hall].
    destruct (pull_step_pids cfg env t c cnt item) as [Hsub1 Hitem].
    split; [by etrans|].
    intros item' Hin Hok. apply elem_of_cons in Hin as [->|Hin].
    + by apply Hsub, Hitem.
    + by apply Hall.
Qed.

Lemma pull_fold_known cfg env items t c cnt :
  (∀ item, item ∈ items → address_ok cfg item.1.1 = true →
     item.2 ∈ pid <$> t) →
  (foldl (pull_step cfg env) (t, c, cnt) items).1 = (t, c)
  ∧ (foldl (pull_step cfg env) (t, c, cnt) items).2.1.1 = cnt.1.1.
Proof.
  revert cnt. induction items as [|[[u a] p] items IH];
    intros [[new repeat] invalid] Hknown; [done|].
  simpl foldl.
  assert (∀ item, item ∈ items → address_ok cfg item.1.1 = true →
            item.2 ∈ pid <$> t) as Hrest.
  { intros item Hin. apply Hknown. by right. }
  simpl. destruct (address_ok cfg u) eqn:Hok.
  - destruct (select (has_pid p) t) eqn:Hsel.
    + apply has_pid_absent in Hsel. exfalso. apply Hsel.
      apply (Hknown (u, a, p)); [left|done].
    + by apply (IH (new, S repeat, invalid)).
  - by apply (IH (new, repeat, S invalid)).
Qed.

Lemma pull_fold_offered cfg env items t0 st :
  (∃ added, st.1.1 = t0 ++ added
     ∧ ∀ row, row ∈ added →
         ∃ u a p n, (u, a, p) ∈ items ∧ address_ok cfg u = true
                    ∧ row = new_payout p u a (utcnow env n)) →
  ∀ items', items' ⊆ items →
  ∃ added, (foldl (pull_step cfg env) st items').1.1 = t0 ++ added
     ∧ ∀ row, row ∈ added →
         ∃ u a p n, (u, a, p) ∈ items ∧ address_ok cfg u = true
                    ∧ row = new_payout p u a (utcnow env n).
Proof.
  intros Hst items'. revert st Hst.
  induction items' as [|[[u a] p] items' IH];
    intros [[t c] [[new repeat] invalid]] Hst Hsub; [done|].
  simpl foldl. apply IH; [|intros x Hx; apply Hsub; by right].
  simpl in *. destruct (address_ok cfg u) eqn:Hok; [|done].
  destruct (select (has_pid p) t); [|done]. simpl.
  destruct Hst as (added & -> & Hadded).
  exists (added ++ [new_payout p u a (utcnow env c)]).
  split; [by rewrite app_assoc|].
  intros row Hrow. apply elem_of_app in Hrow as [Hrow|Hrow]; [by apply Hadded|].
  apply list_elem_of_singleton in Hrow as ->.
  exists u, a, p, c. split; [|done]. apply Hsub. left.
Qed.

Lemma forallb_false_elem {A} (f : A → bool) (l : list A) :
  forallb f l = false → ∃ x, x ∈ l ∧ f x = false.
Proof.
  induction l as [|x l IH]; [done|]. simpl.
  destruct (f x) eqn:Hx; simpl.
  - intros (y & Hy & Hfy)%IH. exists y. split; [by right|done].
  - intros _. exists x. split; [left|done].
Qed.

Lemma forallb_true_elem {A} (f : A → bool) (l : list A) :
  (∀ x, x ∈ l → f x = true) → forallb f l = true.
Proof.
  induction l as [|x l IH]; [done|]. intros H. simpl.
  rewrite (H x) by left. apply IH. intros y Hy. apply H. by right.
Qed.

(** The rows a real run adds, as [pull_fits] reads them. *)
Lemma pull_added_rows cfg env db items :
  ∃ added,
    (foldl (pull_step cfg env) (db, 0%nat, (0, 0, 0)%nat) items).1.1
    = db ++ added
    ∧ pull_fits cfg env db items
      = forallb (λ r, fits_bigint (amount r)) added
    ∧ ∀ row, row ∈ added →
        ∃ u a p n, (u, a, p) ∈ items ∧ address_ok cfg u = true
                   ∧ row = new_payout p u a (utcnow env n).
Proof.
  destruct (pull_fold_offered cfg env items db (db, 0%nat, (0, 0, 0)%nat))
    with (items' := items) as (added & Heq & Hadded); [|done|].
  { exists []. rewrite app_nil_r. split; [done|].
    intros row Hrow. by apply elem_of_nil in Hrow. }
  exists added. split; [done|]. split; [|done].
  unfold pull_fits. by rewrite Heq, drop_app_length.
Qed.

(** Amounts that all fit the column make no flush fail. *)
Lemma pull_fits_in_range cfg env db items :
  Forall (λ item : string * Z * string, fits_bigint item.1.2 = true) items →
  pull_fits cfg env db items = true.
Proof.
  intros Hrange. destruct (pull_added_rows cfg env db items)
    as (added & _ & -> & Hadded).
  apply forallb_true_elem. intros row Hrow.
  destruct (Hadded row Hrow) as (u & a & p & n & Hin & _ & ->). simpl.
  rewrite Forall_forall in Hrange. apply (Hrange (u, a, p) Hin).
Qed.

(** A flush that fails is due to an offered item with a valid address. *)
Lemma pull_overflow_item cfg env db items :
  pull_fits cfg env db items = false →
  ∃ u a p, (u, a, p) ∈ items ∧ address_ok cfg u = true
           ∧ fits_bigint a = false.
Proof.
  destruct (pull_added_rows cfg env db items) as (added & _ & -> & Hadded).
  intros (row & Hrow & Hfit)%forallb_false_elem.
  destruct (Hadded row Hrow) as (u & a & p & n & Hin & Hok & ->).
  by exists u, a, p.
Qed.

(** Which rows the loop adds does not depend on the clock: two runs on
    tables with the same pids and amounts end on such tables. *)
Lemma pull_fold_env cfg env env' items t t' c c' cnt :
  pid <$> t = pid <$> t' → amount <$> t = amount <$> t' →
  pid <$> (foldl (pull_step cfg env) (t, c, cnt) items).1.1
  = pid <$> (foldl (pull_step cfg env') (t', c', cnt) items).1.1
  ∧ amount <$> (foldl (pull_step cfg env) (t, c, cnt) items).1.1
    = amount <$> (foldl (pull_step cfg env') (t', c', cnt) items).1.1.
Proof.
  revert t t' c c' cnt.
  induction items as [|[[u a] p] items IH];
    intros t t' c c' [[new repeat] invalid] Hpid Hamount; [done|].
  simpl. destruct (address_ok cfg u); [|by apply IH].
  destruct (select (has_pid p) t) eqn:Hsel,
           (select (has_pid p) t') eqn:Hsel'.
  - apply IH; rewrite !fmap_app; simpl; congruence.
  - apply has_pid_absent in Hsel. apply has_pid_present in Hsel'.
    congruence.
  - apply has_pid_present in Hsel. apply has_pid_absent in Hsel'.
    congruence.
  - by apply IH.
Qed.

Lemma forallb_fits_amounts (l : list Payout) :
  forallb (λ r, fits_bigint (amount r)) l = forallb fits_bigint (amount <$> l).
Proof. induction l as [|r l IH]; [done|]. simpl. by rewrite IH. Qed.

Lemma pull_fits_env cfg env env' db items :
  pull_fits cfg env db items = pull_fits cfg env' db items.
Proof.
  unfold pull_fits. rewrite !forallb_fits_amounts, !fmap_drop.
  by destruct (pull_fold_env cfg env env' items db db 0%nat 0%nat
                 (0, 0, 0)%nat eq_refl eq_refl) as [_ ->].
Qed.

(** X11.  A real run of [pull_payouts] on a list whose amounts all fit
    the 64-bit column returns [True] and accounts for every item it is
    offered: the three counters it logs add up to the length of the list,
    and the table grows by exactly the number counted as new. *)
Theorem pull_counts_every_item cfg env db items :
  get_payouts env = Ok items →
  Forall (λ item : string * Z * string, fits_bigint item.1.2 = true) items →
  returned (entry cfg env PullPayouts false db) = Returns PyTrue
  ∧ ∃ new repeat invalid,
      pull_summary (journal_of (entry cfg env PullPayouts false db))
        = Some (new, repeat, invalid)
      ∧ (new + repeat + invalid = length items)%nat
      ∧ length (store_after (entry cfg env PullPayouts false db))
        = (length db + new)%nat.
Proof.
  intros Hget Hrange.
  rewrite (pull_payouts_run _ _ _ _ Hget
             (pull_fits_in_range cfg env db items Hrange)).
  unfold returned, store_after, journal_of, pull_summary. simpl.
  split; [done|].
  pose proof (pull_fold_counts cfg env items (db, 0%nat, (0, 0, 0)%nat)) as H.
  simpl in H. eexists _, _, _. split; [reflexivity|]. lia.
Qed.

(** X12.  A real run of [pull_payouts] that received the list ends in
    one of two ways.  Either it returns [True], and then every offered
    item whose address passes the version check has its pid in the
    table.  Or an offered item with a valid address has an amount that
    does not fit the 64-bit column: the flush fails, [call] returns
    [False], the table is as it was and no counters are logged. *)
Theorem pull_stores_every_valid_item cfg env db items :
  get_payouts env = Ok items →
  (returned (entry cfg env PullPayouts false db) = Returns PyTrue
   ∧ ∀ u a p, (u, a, p) ∈ items → address_ok cfg u = true →
       p ∈ pid <$> store_after (entry cfg env PullPayouts false db))
  ∨ (returned (entry cfg env PullPayouts false db) = Returns PyFalse
     ∧ store_after (entry cfg env PullPayouts false db) = db
     ∧ pull_summary (journal_of (entry cfg env PullPayouts false db)) = None
     ∧ ∃ u a p, (u, a, p) ∈ items ∧ address_ok cfg u = true
                ∧ fits_bigint a = false).
Proof.
  intros Hget. destruct (pull_fits cfg env db items) eqn:Hfits.
  - left. rewrite (pull_payouts_run _ _ _ _ Hget Hfits).
    unfold returned, store_after. simpl. split; [done|].
    intros u a p Hin Hok.
    by apply (proj2 (pull_fold_pids cfg env items (db, 0%nat, (0, 0, 0)%nat))
                (u, a, p)).
  - right. destruct (pull_payouts_overflow _ _ _ _ Hget Hfits) as (c & ->).
    repeat split; try done. by apply (pull_overflow_item cfg env db).
Qed.

(** X13.  Pulling the same list again is a no-op: the second real run
    leaves the table of the first run as it is, ends as the first did
    and counts nothing as new; after a first run that returned [True]
    it does log its counters. *)
Theorem pull_same_list_twice cfg env env' db items :
  get_payouts env = Ok items →
  get_payouts env' = Ok items →
  store_after (entry cfg env' PullPayouts false
                 (store_after (entry cfg env PullPayouts false db)))
  = store_after (entry cfg env PullPayouts false db)
  ∧ returned (entry cfg env' PullPayouts false
                (store_after (entry cfg env PullPayouts false db)))
    = returned (entry cfg env PullPayouts false db)
  ∧ (∀ new repeat invalid,
       pull_summary
         (journal_of (entry cfg env' PullPayouts false
                        (store_after (entry cfg env PullPayouts false db))))
       = Some (new, repeat, invalid) → new = 0%nat)
  ∧ (returned (entry cfg env PullPayouts false db) = Returns PyTrue →
     ∃ repeat invalid,
       pull_summary
         (journal_of (entry cfg env' PullPayouts false
                        (store_after (entry cfg env PullPayouts false db))))
       = Some (0%nat, repeat, invalid)).
Proof.
  intros Hget Hget'. destruct (pull_fits cfg env db items) eqn:Hfits.
  - set (db1 := (foldl (pull_step cfg env) (db, 0%nat, (0, 0, 0)%nat)
                       items).1.1).
    assert (store_after (entry cfg env PullPayouts false db) = db1) as ->
      by by rewrite (pull_payouts_run _ _ _ _ Hget Hfits).
    assert (returned (entry cfg env PullPayouts false db) = Returns PyTrue)
      as -> by by rewrite (pull_payouts_run _ _ _ _ Hget Hfits).
    assert (∀ item, item ∈ items → address_ok cfg item.1.1 = true →
              item.2 ∈ pid <$> db1) as Hknown.
    { apply (pull_fold_pids cfg env items (db, 0%nat, (0, 0, 0)%nat)). }
    destruct (pull_fold_known cfg env' items db1 0%nat (0, 0, 0)%nat Hknown)
      as [Htab Hnew].
    assert (pull_fits cfg env' db1 items = true) as Hfits'.
    { unfold pull_fits. by rewrite Htab, drop_all. }
    rewrite (pull_payouts_run _ _ _ _ Hget' Hfits').
    unfold store_after, returned, journal_of, pull_summary. simpl.
    rewrite Htab, Hnew. simpl.
    split; [done|]. split; [done|].
    split; [by intros new repeat invalid [= <- _ _]|]. eauto.
  - assert (store_after (entry cfg env PullPayouts false db) = db) as ->
      by by destruct (pull_payouts_overflow _ _ _ _ Hget Hfits) as (c & ->).
    assert (returned (entry cfg env PullPayouts false db) = Returns PyFalse)
      as -> by by destruct (pull_payouts_overflow _ _ _ _ Hget Hfits)
                    as (c & ->).
    rewrite (pull_fits_env cfg env env') in Hfits.
    destruct (pull_payouts_overflow _ _ _ _ Hget' Hfits) as (c' & ->).
    unfold store_after, returned, journal_of, pull_summary. simpl.
    repeat split; try done.
Qed.

(** X14.  [pull_payouts] keeps the pids of the table distinct, also when
    the offered list names a pid twice. *)
Theorem pull_keeps_pids_distinct cfg env simulate db :
  NoDup (pid <$> db) →
  NoDup (pid <$> store_after (entry cfg env PullPayouts simulate db)).
Proof.
  intros Hnd.
  destruct (pull_payouts_store cfg env simulate db)
    as (added & -> & _ & Hnew & Hnd').
  rewrite fmap_app. apply NoDup_app. repeat split; [done| |done].
  intros q Hq Hq'. apply list_elem_of_fmap in Hq' as (r & -> & Hr).
  by apply (Hnew r Hr).
Qed.

(** X15.  A real run of [pull_payouts] only appends: the rows that were
    in the table are left as they were, and every row it adds is one of
    the offered items, with an address that passes the version check,
    stored unpaid, unlocked and unassociated with its pull time. *)
Theorem pull_only_appends_offered_rows cfg env db items :
  get_payouts env = Ok items →
  ∃ added,
    store_after (entry cfg env PullPayouts false db) = db ++ added
    ∧ ∀ row, row ∈ added →
        ∃ u a p n, (u, a, p) ∈ items ∧ address_ok cfg u = true
                   ∧ row = new_payout p u a (utcnow env n).
Proof.
  intros Hget. destruct (pull_fits cfg env db items) eqn:Hfits.
  - rewrite (pull_payouts_run _ _ _ _ Hget Hfits). unfold store_after. simpl.
    destruct (pull_added_rows cfg env db items) as (added & Heq & _ & Hadded).
    by exists added.
  - destruct (pull_payouts_overflow _ _ _ _ Hget Hfits) as (c & ->).
    exists []. unfold store_after. simpl. rewrite app_nil_r. split; [done|].
    intros row Hrow. by apply elem_of_nil in Hrow.
Qed.

(** X16.  When the remote's payout list cannot be fetched,
    [pull_payouts] stops with nothing written and the command line gets
    [False]; under [--simulate] the list is fetched but nothing is
    inserted or committed, and the counters logged are all zero. *)
Theorem pull_without_effect cfg env db :
  (∀ e, get_payouts env = Fails e →
     ∀ simulate,
       entry cfg env PullPayouts simulate db
       = (Returns PyFalse,
          {| durable := db; session := db; clock := 0;
             journal := [GetPayouts (Fails e)] |}))
  ∧ (∀ items, get_payouts env = Ok items →
       entry cfg env PullPayouts true db
       = (Returns PyTrue,
          {| durable := db; session := db; clock := 0;
             journal := [GetPayouts (Ok items); PullSummary 0 0 0] |})).
Proof.
  split.
  - intros e He simulate. by apply pull_payouts_unfetched.
  - intros items Hit. by apply pull_payouts_simulated.
Qed.

(** ** [confirm_trans] *)

Lemma confirm_loop_tids cfg env items acc w acc' w' :
  fold_each items acc (confirm_one cfg env) w = (Returns acc', w') →
  ∀ t, t ∈ acc'.1
       ↔ t ∈ acc.1
         ∨ ∃ n obj trans_data,
             (n, obj) ∈ items ∧ obj_txid obj = t
             ∧ gettransaction env n t = Ok trans_data
             ∧ confirmations trans_data > trans_confirmations cfg.
Proof.
  revert acc w. induction items as [|[n obj] items IH]; intros [tids fees] w.
  - intros [= <- <-] t. split; [auto|].
    intros [?|(n & obj & td & Hin & _)]; [done|].
    by apply elem_of_nil in Hin.
  - unfold fold_each; fold (@fold_each (nat * remote_tx)
                                       (list string * gmap string Z)).
    unfold mbind, M_bind, bind at 1. rewrite confirm_one_run. simpl.
    assert (∀ tids1 fees1 w1 (Q : Prop),
      (∀ t, t ∈ tids1 ↔ t ∈ tids ∨ (Q ∧ t = obj_txid obj)) →
      (Q ↔ ∃ td, gettransaction env n (obj_txid obj) = Ok td
                 ∧ confirmations td > trans_confirmations cfg) →
      fold_each items (tids1, fees1) (confirm_one cfg env) w1
        = (Returns acc', w') →
      ∀ t, t ∈ acc'.1
           ↔ t ∈ tids
             ∨ ∃ n0 obj0 td,
                 (n0, obj0) ∈ (n, obj) :: items ∧ obj_txid obj0 = t
                 ∧ gettransaction env n0 t = Ok td
                 ∧ confirmations td > trans_confirmations cfg) as Hnext.
    { intros tids1 fees1 w1 Q Htids HQ Hrun t.
      rewrite (IH _ _ Hrun t). simpl. rewrite Htids, HQ. split.
      - intros [[?|[(td & Hget & Hc) ->]]|(n0 & obj0 & td & Hin & Hrest)].
        + by left.
        + right. exists n, obj, td. split; [left|done].
        + right. exists n0, obj0, td. split; [by right|done].
      - intros [?|(n0 & obj0 & td & Hin & Ht & Hget & Hc)]; [by left; left|].
        apply elem_of_cons in Hin as [[= -> ->]|Hin].
        + left. right. subst t. split; [|done]. eauto.
        + right. exists n0, obj0, td. done. }
    destruct (gettransaction env n (obj_txid obj)) as [td|e] eqn:Hget.
    + assert (∀ t, t ∈ (if confirmations td >? trans_confirmations cfg
                        then tids ++ [obj_txid obj] else tids)
                   ↔ t ∈ tids
                     ∨ (confirmations td > trans_confirmations cfg)
                       ∧ t = obj_txid obj) as Htids.
      { intros t. destruct (Z.gtb_spec (confirmations td)
                              (trans_confirmations cfg)) as [Hgt|Hle].
        - rewrite elem_of_app, list_elem_of_singleton. split.
          + intros [?| ->]; [by left|]. right. split; [lia|done].
          + intros [?|[_ ->]]; auto.
        - split; [auto|]. intros [?|[? _]]; [done|lia]. }
      assert (confirmations td > trans_confirmations cfg
              ↔ ∃ td0, Ok td = Ok td0
                       ∧ confirmations td0 > trans_confirmations cfg) as HQ.
      { split; [eauto|]. by intros (td0 & [= <-] & ?). }
      destruct (wants_fee td obj).
      * destruct (fee td) as [[d|z]|]; try done.
        by apply (Hnext _ _ _ _ Htids HQ).
      * by apply (Hnext _ _ _ _ Htids HQ).
    + apply (Hnext _ _ _ False).
      * intros t. split; [auto|]. intros [?|[HF _]]; [done|destruct HF].
      * split; [done|]. by intros (td0 & ? & _).
Qed.

(** X17.  What [confirm_trans] pushes as confirmed: a txid is in the list
    exactly when, for one of the unconfirmed objects with that txid, the
    wallet's lookup succeeded and reported strictly more confirmations
    than [trans_confirmations]; and a push is made only with a txid or a
    fee in it. *)
Theorem confirm_pushes_deep_transactions
    cfg env simulate db tids fees ans :
  ConfirmTransactions tids fees ans
    ∈ journal_of (entry cfg env ConfirmTrans simulate db) →
  (tids ≠ [] ∨ fees ≠ ∅)
  ∧ ∃ res,
      get_unconfirmed env = Ok res
      ∧ ∀ t, t ∈ tids
             ↔ ∃ n obj trans_data,
                 objects res !! n = Some obj ∧ obj_txid obj = t
                 ∧ gettransaction env n t = Ok trans_data
                 ∧ confirmations trans_data > trans_confirmations cfg.
Proof.
  unfold journal_of, entry, call, command, confirm_trans, boot, poke_rpc.
  unfold_monad. simpl.
  destruct (getinfo env) as [[]|[]]; simpl; intros Hin; try by inv_elem Hin.
  destruct (get_unconfirmed env) as [res|e]; simpl in Hin;
    [|by inv_elem Hin].
  destruct (success res); simpl in Hin; [|by inv_elem Hin].
  destruct (fold_each (imap pair (objects res)) ([], ∅)
              (confirm_one cfg env) _) as [[[tids' fees']|e|c] w'] eqn:Hloop;
    simpl in Hin.
  2, 3: apply confirm_loop_journal in Hloop as (evs & Hj & Hevs);
        rewrite Hj in Hin; simpl in Hin; inv_elem Hin;
        by apply not_lookup_in in Hin.
  pose proof (confirm_loop_tids _ _ _ _ _ _ _ Hloop) as Htids.
  apply confirm_loop_journal in Hloop as (evs & Hj & Hevs).
  simpl in *.
  assert (tids = tids' ∧ fees = fees' ∧ (tids' ≠ [] ∨ fees' ≠ ∅))
    as (-> & -> & Hne).
  { destruct (negb (bool_decide (tids' = [])) || negb (bool_decide (fees' = ∅)))
      eqn:Hcond; simpl in Hin.
    - apply orb_true_iff in Hcond.
      assert (tids' ≠ [] ∨ fees' ≠ ∅) as Hne.
      { destruct Hcond as [H|H]; apply negb_true_iff, bool_decide_eq_false in H;
          auto. }
      destruct (confirm_transactions env tids' fees') as [[]|e]; simpl in Hin;
        rewrite Hj in Hin; simpl in Hin; inv_elem Hin;
        apply elem_of_app in Hin as [Hin|Hin];
        try (by apply not_lookup_in in Hin); by inv_elem Hin.
    - rewrite Hj in Hin. simpl in Hin. inv_elem Hin.
      by apply not_lookup_in in Hin. }
  split; [done|]. exists res. split; [done|].
  intros t. rewrite (Htids t). simpl. split.
  - intros [Hnil|(n & obj & td & Hobj & Hrest)]; [by apply elem_of_nil in Hnil|].
    apply elem_of_lookup_imap in Hobj as (n' & obj' & [= -> ->] & Hobj).
    eauto 10.
  - intros (n & obj & td & Hobj & Hrest). right. exists n, obj, td.
    split; [|done]. apply elem_of_lookup_imap. eauto.
Qed.

Lemma lookups_only evs :
  Forall is_lookup evs →
  commits evs = [] ∧ confirm_pushes evs = []
  ∧ existsb is_wallet_write evs = false ∧ sends evs = [].
Proof.
  induction 1 as [|ev evs (t & r & ->) _ (IH1 & IH2 & IH3 & IH4)]; [done|].
  repeat split; assumption.
Qed.

Lemma confirm_loop_no_exit cfg env items acc w c w' :
  fold_each items acc (confirm_one cfg env) w ≠ (Exits c, w').
Proof.
  revert acc w. induction items as [|[n obj] items IH]; intros [tids fees] w;
    [done|].
  unfold fold_each; fold (@fold_each (nat * remote_tx)
                                     (list string * gmap string Z)).
  unfold mbind, M_bind, bind at 1. rewrite confirm_one_run. simpl.
  destruct (gettransaction env n (obj_txid obj)) as [td|e]; [|apply IH].
  destruct (wants_fee td obj); [|apply IH].
  destruct (fee td) as [[d|z]|]; [apply IH|done..].
Qed.

(** The shape of every run of [confirm_trans]: the two opening calls, the
    lookups, and at most one push at the end, which alone can make the
    result [True]. *)
Lemma confirm_trans_shape cfg env simulate db :
  ∃ pre evs post ret,
    journal_of (entry cfg env ConfirmTrans simulate db) = pre ++ evs ++ post
    ∧ returned (entry cfg env ConfirmTrans simulate db) = Returns ret
    ∧ (pre = [GetInfo (getinfo env)]
       ∨ pre = [GetInfo (getinfo env); GetUnconfirmed (get_unconfirmed env)])
    ∧ Forall is_lookup evs
    ∧ (post = [] ∧ ret ≠ PyTrue
       ∨ ∃ tids fees ans,
           post = [ConfirmTransactions tids fees ans]
           ∧ ret = match ans with Ok true => PyTrue | _ => PyFalse end).
Proof.
  unfold journal_of, returned, entry, call, command, confirm_trans, boot,
    poke_rpc.
  unfold_monad. simpl.
  destruct (getinfo env) as [[]|e0] eqn:Hgi; simpl.
  2: { exists [GetInfo (Fails e0)], [], [], PyFalse.
       destruct e0; simpl; repeat split; auto. }
  destruct (get_unconfirmed env) as [res|e] eqn:Hgu; simpl.
  2: { exists [GetInfo (Ok ()); GetUnconfirmed (Fails e)], [], [], PyFalse.
       repeat split; auto. }
  destruct (success res); simpl.
  2: { exists [GetInfo (Ok ()); GetUnconfirmed (Ok res)], [], [], PyNone.
       repeat split; auto. }
  destruct (fold_each (imap pair (objects res)) ([], ∅)
              (confirm_one cfg env) _) as [[[tids fees]|e|c] w'] eqn:Hloop;
    [| |by apply confirm_loop_no_exit in Hloop];
    apply confirm_loop_journal in Hloop as (evs & Hj & Hevs); simpl in *.
  - destruct (negb (bool_decide (tids = [])) || negb (bool_decide (fees = ∅)));
      simpl.
    + exists [GetInfo (Ok ()); GetUnconfirmed (Ok res)], evs,
        [ConfirmTransactions tids fees (confirm_transactions env tids fees)],
        (match confirm_transactions env tids fees with
         | Ok true => PyTrue | _ => PyFalse end).
      destruct (confirm_transactions env tids fees) as [[]|e]; simpl;
        rewrite Hj; simpl; rewrite <- ?app_assoc;
        repeat split; eauto 10.
    + exists [GetInfo (Ok ()); GetUnconfirmed (Ok res)], evs, [], PyNone.
      rewrite Hj, app_nil_r. repeat split; auto.
  - exists [GetInfo (Ok ()); GetUnconfirmed (Ok res)], evs, [], PyFalse.
    rewrite Hj, app_nil_r. repeat split; auto.
Qed.

Lemma omap_app_events {A} (f : event → option A) (j1 j2 : list event) :
  omap f (j1 ++ j2) = omap f j1 ++ omap f j2.
Proof. apply omap_app. Qed.

(** X18.  [confirm_trans] returns [True] exactly when it pushed and the
    remote answered the push with a true result; it pushes at most
    once. *)
Theorem confirm_true_iff_push_accepted cfg env simulate db :
  (returned (entry cfg env ConfirmTrans simulate db) = Returns PyTrue
   ↔ ∃ tids fees,
       confirm_pushes (journal_of (entry cfg env ConfirmTrans simulate db))
       = [(tids, fees, Ok true)])
  ∧ (length (confirm_pushes
               (journal_of (entry cfg env ConfirmTrans simulate db))) ≤ 1)%nat.
Proof.
  destruct (confirm_trans_shape cfg env simulate db)
    as (pre & evs & post & ret & -> & -> & Hpre & Hevs & Hpost).
  destruct (lookups_only evs Hevs) as (_ & Hp & _ & _).
  unfold confirm_pushes in *. rewrite !omap_app_events, Hp.
  assert (omap (λ ev, match ev with
                      | ConfirmTransactions tids fees r => Some (tids, fees, r)
                      | _ => None
                      end) pre = []) as -> by (by destruct Hpre as [-> | ->]).
  simpl. destruct Hpost as [[-> Hret]|(tids & fees & ans & -> & ->)]; simpl.
  - split; [|lia]. split; [congruence|]. by intros (? & ? & ?).
  - split; [|lia]. destruct ans as [[]|e]; split; try done; eauto.
    + by intros (? & ? & [= _ _ ?]).
    + by intros (? & ? & [= _ _ ?]).
Qed.

(** X19.  [confirm_trans] only reads the table and never pays: no row is
    changed, nothing is committed, and the wallet is asked neither to
    unlock, nor to set a fee, nor to send. *)
Theorem confirm_trans_reads_only cfg env simulate db :
  store_after (entry cfg env ConfirmTrans simulate db) = db
  ∧ commits (journal_of (entry cfg env ConfirmTrans simulate db)) = []
  ∧ existsb is_wallet_write
      (journal_of (entry cfg env ConfirmTrans simulate db)) = false.
Proof.
  split; [apply confirm_trans_store|].
  destruct (confirm_trans_shape cfg env simulate db)
    as (pre & evs & post & ret & -> & _ & Hpre & Hevs & Hpost).
  destruct (lookups_only evs Hevs) as (Hc & _ & Hw & _).
  unfold commits in *. rewrite !omap_app_events, !existsb_app, Hc, Hw.
  destruct Hpre as [-> | ->];
    destruct Hpost as [[-> _]|(tids & fees & ans & -> & _)]; done.
Qed.

Lemma confirm_loop_asserts cfg env items acc w n obj trans_data z :
  (n, obj) ∈ items →
  gettransaction env n (obj_txid obj) = Ok trans_data →
  fee trans_data = Some (WInt z) →
  fee_unpopulated obj →
  ∃ w', fold_each items acc (confirm_one cfg env) w
        = (Raises AssertionError, w').
Proof.
  intros Hin Hget Hfee Hun. revert acc w.
  induction items as [|[n0 obj0] items IH]; intros [tids fees] w;
    [by apply elem_of_nil in Hin|].
  unfold fold_each; fold (@fold_each (nat * remote_tx)
                                     (list string * gmap string Z)).
  unfold mbind, M_bind, bind at 1. rewrite confirm_one_run. simpl.
  apply elem_of_cons in Hin as [[= <- <-]|Hin].
  - rewrite Hget.
    assert (wants_fee trans_data obj = true) as ->.
    { apply wants_fee_spec. split; [by rewrite Hfee|done]. }
    rewrite Hfee. eauto.
  - destruct (gettransaction env n0 (obj_txid obj0)) as [td|e]; [|by apply IH].
    destruct (wants_fee td obj0); [|by apply IH].
    destruct (fee td) as [[d|z0]|]; [by apply IH|eauto..].
Qed.

(** X20.  The assertion on the fee's type stops the whole command: if the
    wallet reports the fee of one wanted transaction as an integer, not
    a decimal, [confirm_trans] pushes nothing, also not the
    confirmations it had found, and the command line gets [False]. *)
Theorem confirm_integer_fee_aborts
    cfg env simulate db res n obj trans_data z :
  getinfo env = Ok tt →
  get_unconfirmed env = Ok res →
  success res = true →
  objects res !! n = Some obj →
  gettransaction env n (obj_txid obj) = Ok trans_data →
  fee trans_data = Some (WInt z) →
  fee_unpopulated obj →
  returned (entry cfg env ConfirmTrans simulate db) = Returns PyFalse
  ∧ confirm_pushes (journal_of (entry cfg env ConfirmTrans simulate db)) = [].
Proof.
  intros Hgi Hgu Hs Hobj Hget Hfee Hun.
  unfold journal_of, returned, entry, call, command, confirm_trans, boot,
    poke_rpc.
  unfold_monad. simpl. rewrite Hgi. simpl. rewrite Hgu. simpl.
  rewrite Hs. simpl.
  match goal with
  | |- context [fold_each ?items ?acc ?body ?w] =>
      destruct (confirm_loop_asserts cfg env items acc w n obj trans_data z)
        as [w' Hloop]; [by apply elem_of_lookup_imap; eauto|done..|];
      pose proof Hloop as Hj;
      apply confirm_loop_journal in Hj as (evs & Hj & Hevs);
      rewrite Hloop
  end.
  simpl in *. split; [done|]. rewrite Hj.
  destruct (lookups_only evs Hevs) as (_ & Hp & _ & _).
  exact Hp.
Qed.

Lemma confirm_loop_lookups cfg env items acc w :
  (∀ n t trans_data z,
     gettransaction env n t = Ok trans_data → fee trans_data ≠ Some (WInt z)) →
  ∃ acc' w',
    fold_each items acc (confirm_one cfg env) w = (Returns acc', w')
    ∧ journal w'
      = journal w
        ++ ((λ item : nat * remote_tx,
               GetTransaction (obj_txid item.2)
                 (gettransaction env item.1 (obj_txid item.2))) <$> items).
Proof.
  intros Hdec. revert acc w.
  induction items as [|[n obj] items IH]; intros [tids fees] w.
  - eexists _, _. split; [reflexivity|]. simpl. by rewrite app_nil_r.
  - unfold fold_each; fold (@fold_each (nat * remote_tx)
                                       (list string * gmap string Z)).
    unfold mbind, M_bind, bind at 1. rewrite confirm_one_run. simpl.
    assert (∀ acc1 d s c,
      ∃ acc' w',
        fold_each items acc1 (confirm_one cfg env)
          {| durable := d; session := s; clock := c;
             journal := journal w ++
               [GetTransaction (obj_txid obj)
                  (gettransaction env n (obj_txid obj))] |}
        = (Returns acc', w')
        ∧ journal w'
          = journal w
            ++ GetTransaction (obj_txid obj)
                 (gettransaction env n (obj_txid obj))
               :: ((λ item : nat * remote_tx,
                      GetTransaction (obj_txid item.2)
                        (gettransaction env item.1 (obj_txid item.2)))
                   <$> items)) as Hnext.
    { intros acc1 d s c.
      destruct (IH acc1 {| durable := d; session := s; clock := c;
                           journal := journal w ++
                             [GetTransaction (obj_txid obj)
                                (gettransaction env n (obj_txid obj))] |})
        as (acc' & w' & Hrun & Hj).
      exists acc', w'. split; [done|]. rewrite Hj. simpl.
      by rewrite <- app_assoc. }
    destruct (gettransaction env n (obj_txid obj)) as [td|e] eqn:Hget;
      [|apply Hnext].
    destruct (wants_fee td obj) eqn:Hw; [|apply Hnext].
    destruct (fee td) as [[d|z]|] eqn:Hfee; [apply Hnext| |].
    + by destruct (Hdec _ _ _ z Hget).
    + apply wants_fee_spec in Hw as [[? Hf] _]. congruence.
Qed.

(** X21.  A lookup that fails does not stop [confirm_trans]: as long as
    the wallet reports fees as decimals, every unconfirmed object is
    looked up, once and in the remote's order, whatever the earlier
    lookups answered. *)
Theorem confirm_looks_up_every_transaction cfg env simulate db res :
  getinfo env = Ok tt →
  get_unconfirmed env = Ok res →
  success res = true →
  (∀ n t trans_data z,
     gettransaction env n t = Ok trans_data → fee trans_data ≠ Some (WInt z)) →
  lookups (journal_of (entry cfg env ConfirmTrans simulate db))
  = imap (λ n obj, (obj_txid obj, gettransaction env n (obj_txid obj)))
         (objects res).
Proof.
  intros Hgi Hgu Hs Hdec.
  unfold journal_of, entry, call, command, confirm_trans, boot, poke_rpc.
  unfold_monad. simpl. rewrite Hgi. simpl. rewrite Hgu. simpl.
  rewrite Hs. simpl.
  match goal with
  | |- context [fold_each ?items ?acc ?body ?w] =>
      destruct (confirm_loop_lookups cfg env items acc w Hdec)
        as ([tids fees] & w' & Hloop & Hj);
      rewrite Hloop
  end.
  simpl in *.
  assert (lookups (journal w')
          = imap (λ n obj, (obj_txid obj, gettransaction env n (obj_txid obj)))
                 (objects res)) as Hl.
  { rewrite Hj. unfold lookups. simpl.
    generalize (objects res). intros l.
    assert (∀ k, omap (λ ev, match ev with
                             | GetTransaction t r => Some (t, r)
                             | _ => None
                             end)
                   ((λ item : nat * remote_tx,
                       GetTransaction (obj_txid item.2)
                         (gettransaction env item.1 (obj_txid item.2)))
                    <$> imap (λ i, pair (k + i)%nat) l)
                 = imap (λ i obj, (obj_txid obj,
                                   gettransaction env (k + i)%nat
                                     (obj_txid obj))) l) as H;
      [|apply (H 0%nat)].
    induction l as [|obj l IH]; intros k; [done|].
    rewrite !imap_cons, fmap_cons. simpl. rewrite Nat.add_0_r. f_equal.
    rewrite (imap_ext _ (λ i, pair (S k + i)%nat) l)
      by (intros; simpl; f_equal; lia).
    rewrite IH. apply imap_ext. intros i x _. simpl. do 3 f_equal; lia. }
  destruct (negb (bool_decide (tids = [])) || negb (bool_decide (fees = ∅)));
    simpl; [|done].
  destruct (confirm_transactions env tids fees) as [[]|e]; simpl;
    unfold lookups in *; rewrite omap_app_events, Hl; simpl;
    by rewrite app_nil_r.
Qed.

(** ** [associate_all] *)

Lemma keeps_for_each {A} (xs : list A) body :
  (∀ x, keeps_tables (body x)) → keeps_tables (for_each xs body).
Proof.
  intros Hbody. induction xs as [|x xs IH]; [apply keeps_ret|].
  apply keeps_bind; [apply Hbody|]. intros _. apply IH.
Qed.

Lemma keeps_ask_bind {A B} (r : reply A) ev (f : A → M B) :
  (∀ a, r = Ok a → keeps_tables (f a)) → keeps_tables (ask r ev ≫= f).
Proof.
  intros Hf w. unfold ask. unfold_monad. simpl.
  destruct r as [a|e]; simpl; [|done].
  exact (Hf a eq_refl {| durable := durable w; session := session w;
                         clock := clock w;
                         journal := journal w ++ [ev (Ok a)] |}).
Qed.

(** X22.  Unless the remote accepts a push, [associate_all] changes
    nothing: with every answer a refusal or a failure, and under
    [--simulate], the table is as it was, in the file and in the
    session. *)
Theorem associate_without_acceptance cfg env simulate db :
  simulate = true ∨ (∀ t pids, update_payouts env t pids ≠ Ok true) →
  store_after (entry cfg env AssociateAll simulate db) = db
  ∧ session (entry cfg env AssociateAll simulate db).2 = db.
Proof.
  intros Hno.
  assert (keeps_tables (associate_all env simulate)) as Hkeeps.
  { unfold associate_all. apply keeps_bind; [done|]. intros payouts.
    apply keeps_bind; [|intros; apply keeps_ret].
    apply keeps_for_each. intros [t os].
    destruct simulate; [apply keeps_ret|].
    destruct Hno as [?|Hno]; [done|].
    apply keeps_bind; [|intros; apply keeps_ret].
    unfold associate. apply keeps_ask_bind.
    intros [|] Hans; [by apply Hno in Hans|apply keeps_ret]. }
  destruct (Hkeeps (boot db)) as [Hd Hs].
  unfold store_after, entry, call. simpl.
  destruct (associate_all env simulate (boot db)) as [[?|?|?] ?]; done.
Qed.

Lemma marked_step env db done w o :
  marked db done w → (o.1 < length db)%nat →
  ∃ w', mark_associated env o w = (Returns tt, w')
        ∧ marked db (o.1 :: done) w'.
Proof.
  intros (Heq & Hlen & Hrows & Hdone) Ho. destruct w as [d s c j].
  unfold mark_associated. unfold_monad. simpl in *.
  eexists. split; [reflexivity|]. rewrite list_alter_alter_eq.
  split; [done|]. simpl. split; [by rewrite length_alter|]. split.
  - intros i r Hi. destruct (Hrows i r Hi) as (r' & Hi' & Htx & Ha).
    destruct (decide (o.1 = i)) as [->|Hne].
    + rewrite list_lookup_alter_eq, Hi'. simpl. eexists. split; [done|]. done.
    + rewrite list_lookup_alter_ne by done. eauto.
  - intros i Hi. destruct (decide (o.1 = i)) as [<-|Hne].
    + rewrite list_lookup_alter_eq.
      destruct (lookup_lt_is_Some_2 s o.1) as [r Hr]; [lia|].
      rewrite Hr. simpl. eauto.
    + rewrite list_lookup_alter_ne by done. apply Hdone.
      apply elem_of_cons in Hi as [?|?]; [congruence|done].
Qed.

Lemma marked_mono db done done' w :
  marked db done w → (∀ i, i ∈ done' → i ∈ done) → marked db done' w.
Proof. intros (? & ? & ? & Hd) Hsub. repeat split; auto. Qed.

Lemma marked_loop env db os done w :
  marked db done w → Forall (λ o : nat * Payout, (o.1 < length db)%nat) os →
  ∃ w', for_each os (mark_associated env) w = (Returns tt, w')
        ∧ marked db (os.*1 ++ done) w'.
Proof.
  intros Hw Hos. revert done w Hw.
  induction Hos as [|o os Ho Hos IH]; intros done w Hw; [by exists w|].
  destruct (marked_step env db done w o Hw Ho) as (w1 & Hrun1 & Hw1).
  destruct (IH _ _ Hw1) as (w2 & Hrun2 & Hw2).
  exists w2. split.
  - unfold for_each; fold (@for_each (nat * Payout)).
    unfold mbind, M_bind, bind at 1. by rewrite Hrun1.
  - eapply marked_mono; [exact Hw2|]. intros i Hi.
    rewrite fmap_cons in Hi. apply elem_of_cons in Hi as [->|Hi].
    + apply elem_of_app. right. left.
    + apply elem_of_app in Hi as [?|?]; apply elem_of_app; [by left|].
      right. by right.
Qed.

Lemma marked_emit db done w ev :
  marked db done w →
  marked db done {| durable := durable w; session := session w;
                    clock := clock w; journal := journal w ++ [ev] |}.
Proof. done. Qed.

Lemma marked_groups env db (gs : list (string * list (nat * Payout))) done w :
  (∀ t pids, update_payouts env t pids = Ok true) →
  marked db done w →
  Forall (λ g, Forall (λ o : nat * Payout, (o.1 < length db)%nat) g.2) gs →
  ∃ w', for_each gs (λ '(txid, payouts),
                       associate env txid payouts ;; mret tt) w
        = (Returns tt, w')
        ∧ marked db (mjoin ((λ g, g.2.*1) <$> gs) ++ done) w'.
Proof.
  intros Hyes Hw Hgs. revert done w Hw.
  induction Hgs as [|[t os] gs Hg Hgs IH]; intros done w Hw; [by exists w|].
  simpl in Hg.
  destruct (marked_loop env db os done _
              (marked_emit db done w
                 (UpdatePayouts t ((λ p : nat * Payout, pid p.2) <$> os)
                    (Ok true)) Hw) Hg)
    as (w1 & Hrun1 & Hw1).
  destruct (IH _ _ Hw1) as (w2 & Hrun2 & Hw2).
  exists w2. split.
  - unfold for_each; fold (@for_each (string * list (nat * Payout))).
    unfold associate, ask. unfold_monad. simpl. rewrite Hyes. simpl.
    rewrite Hrun1. exact Hrun2.
  - eapply marked_mono; [exact Hw2|]. intros i Hi.
    rewrite fmap_cons in Hi. simpl in Hi. rewrite <- app_assoc in Hi.
    apply elem_of_app in Hi as [Hi|Hi]; apply elem_of_app.
    + right. apply elem_of_app. by left.
    + apply elem_of_app in Hi as [?|?]; [by left|].
      right. apply elem_of_app. by right.
Qed.

(** Every object grouped is in the group of its txid. *)
Lemma group_by_txid_complete (l : list (nat * Payout)) o t :
  o ∈ l → txid o.2 = Some t →
  ∃ os, group_by_txid l !! t = Some os ∧ o ∈ os.
Proof.
  intros Hin Htx. unfold group_by_txid.
  assert (∀ l' (g : gmap string (list (nat * Payout))),
    (o ∈ l' ∨ ∃ os, g !! t = Some os ∧ o ∈ os) →
    ∃ os, foldl (λ txids payout,
                   match txid payout.2 with
                   | Some t => append_to t payout txids
                   | None => txids
                   end) g l' !! t = Some os ∧ o ∈ os) as H.
  { induction l' as [|x l' IH]; intros g Hor.
    - destruct Hor as [Hin'|?]; [by apply elem_of_nil in Hin'|done].
    - simpl. apply IH.
      destruct Hor as [Hin'|(os & Hg & Ho)].
      + apply elem_of_cons in Hin' as [<-|Hin']; [|by left].
        right. rewrite Htx. unfold append_to. rewrite lookup_insert_eq.
        eexists. split; [done|]. apply elem_of_app. right. left.
      + right. destruct (txid x.2) as [tx|]; [|eauto].
        unfold append_to. destruct (decide (tx = t)) as [->|Hne].
        * rewrite lookup_insert_eq, Hg. simpl. eexists. split; [done|].
          apply elem_of_app. by left.
        * rewrite lookup_insert_ne by done. eauto. }
  apply H. by left.
Qed.

(** With a remote that accepts every push, a real run of [associate_all]
    ends, with nothing pending, in a table where every row that has a
    txid is associated. *)
Lemma associate_all_closes env db :
  (∀ t pids, update_payouts env t pids = Ok true) →
  ∃ w', associate_all env false (boot db) = (Returns PyNone, w')
        ∧ durable w' = session w'
        ∧ ∀ row, row ∈ durable w' → txid row ≠ None → associated row = true.
Proof.
  intros Hyes. unfold associate_all. unfold_monad. simpl.
  set (sel := select unassociated_paid db).
  assert (marked db [] (boot db)) as Hboot.
  { repeat split; try done.
    - intros i r Hi. eauto.
    - intros i Hi. by apply elem_of_nil in Hi. }
  destruct (marked_groups env db (map_to_list (group_by_txid sel)) [] (boot db)
              Hyes Hboot) as (w' & Hrun & Heq & Hlen & Hrows & Hdone).
  { apply Forall_forall. intros [t os] Hin. apply elem_of_map_to_list in Hin.
    apply Forall_forall. intros [i r] Ho. simpl.
    apply (group_by_txid_elem sel t os (i, r) Hin) in Ho.
    apply elem_of_select in Ho as [Hi _]. by apply lookup_lt_Some in Hi. }
  exists w'. split.
  { match goal with
    | |- context [for_each ?gs ?body (boot db)] =>
        change (for_each gs body (boot db))
          with (for_each gs (λ '(txid, payouts),
                               associate env txid payouts ;; mret tt) (boot db))
    end.
    unfold_monad. by rewrite Hrun. }
  split; [done|]. rewrite Heq. intros row Hrow Htx.
  apply list_elem_of_lookup_1 in Hrow as [i Hi'].
  destruct (lookup_lt_is_Some_2 db i) as [r Hi].
  { apply lookup_lt_Some in Hi'. lia. }
  destruct (Hrows i r Hi) as (r' & Hr' & Htx' & Ha).
  rewrite Hi' in Hr'. injection Hr' as <-.
  destruct (associated r) eqn:Har; [by apply Ha|].
  destruct (txid r) as [t|] eqn:Htr; [|congruence].
  assert ((i, r) ∈ sel) as Hsel.
  { apply elem_of_select. split; [done|]. unfold unassociated_paid.
    rewrite Har, Htr. done. }
  destruct (group_by_txid_complete sel (i, r) t Hsel Htr) as (os & Hg & Ho).
  destruct (Hdone i) as (r2 & Hr2 & Ha2); [|congruence].
  rewrite app_nil_r. apply list_elem_of_join. exists (os.*1). split.
  - apply list_elem_of_fmap. by exists (i, r).
  - apply list_elem_of_fmap. exists (t, os). split; [done|].
    by apply elem_of_map_to_list.
Qed.

(** X23.  When the remote accepts every push, a real run of
    [associate_all] closes the books: in the committed table every row
    that has a txid is associated. *)
Theorem associate_all_accepted_closes_paid cfg env db :
  (∀ t pids, update_payouts env t pids = Ok true) →
  returned (entry cfg env AssociateAll false db) = Returns PyNone
  ∧ ∀ row, row ∈ store_after (entry cfg env AssociateAll false db) →
      txid row ≠ None → associated row = true.
Proof.
  intros Hyes. destruct (associate_all_closes env db Hyes)
    as (w' & Hrun & _ & Hall).
  unfold returned, store_after, entry, call. simpl. by rewrite Hrun.
Qed.

(** X24.  After a run in which the remote accepted every push, a second
    [associate_all] finds nothing to do: it pushes nothing and leaves
    the table as it is. *)
Theorem associate_all_twice cfg env env' simulate db :
  (∀ t pids, update_payouts env t pids = Ok true) →
  entry cfg env' AssociateAll simulate
    (store_after (entry cfg env AssociateAll false db))
  = (Returns PyNone,
     boot (store_after (entry cfg env AssociateAll false db))).
Proof.
  intros Hyes. destruct (associate_all_closes env db Hyes)
    as (w' & Hrun & _ & Hall).
  assert (store_after (entry cfg env AssociateAll false db) = durable w')
    as -> by (unfold store_after, entry, call; simpl; by rewrite Hrun).
  assert (select unassociated_paid (durable w') = []) as Hsel.
  { apply select_none. intros i r Hi. unfold unassociated_paid.
    destruct (associated r) eqn:Ha; [done|]. simpl.
    case_bool_decide as Htx; [done|].
    rewrite (Hall r) in Ha; [done| |done]. by eapply list_elem_of_lookup_2. }
  unfold entry, call, command, associate_all. unfold_monad. simpl.
  rewrite Hsel. unfold group_by_txid. simpl. by rewrite map_to_list_empty.
Qed.

Lemma filter_fmap_snd (Q : Payout → Prop) `{∀ r, Decision (Q r)}
    (l : list (nat * Payout)) :
  (filter (λ o : nat * Payout, Q o.2) l).*2 = filter Q l.*2.
Proof.
  induction l as [|[i r] l IH]; [done|].
  rewrite fmap_cons, !filter_cons. simpl.
  destruct (decide (Q r)); rewrite ?fmap_cons; simpl; by rewrite IH.
Qed.

(** The group of a txid is the sublist of the objects with that txid. *)
Lemma group_by_txid_lookup (l : list (nat * Payout)) t os :
  group_by_txid l !! t = Some os →
  os = filter (λ o : nat * Payout, txid o.2 = Some t) l ∧ os ≠ [].
Proof.
  unfold group_by_txid.
  assert (∀ l' (g : gmap string (list (nat * Payout))) os,
    foldl (λ txids payout,
             match txid payout.2 with
             | Some t => append_to t payout txids
             | None => txids
             end) g l' !! t = Some os →
    (os = default [] (g !! t)
          ++ filter (λ o : nat * Payout, txid o.2 = Some t) l')
    ∧ (g !! t = None → filter (λ o : nat * Payout, txid o.2 = Some t) l' ≠ []))
    as H.
  { induction l' as [|x l' IH]; intros g os'; simpl.
    - intros Hg. rewrite Hg. simpl. rewrite app_nil_r. split; [done|].
      congruence.
    - intros Hf. apply IH in Hf as [Hos Hne]. rewrite filter_cons.
      destruct (txid x.2) as [tx|] eqn:Htx.
      + unfold append_to in *. destruct (decide (tx = t)) as [->|Hneq].
        * rewrite lookup_insert_eq in Hos. simpl in Hos.
          rewrite decide_True by done. split; [|done].
          by rewrite Hos, <- app_assoc.
        * rewrite lookup_insert_ne in Hos, Hne by done.
          rewrite decide_False by congruence. done.
      + rewrite decide_False by congruence. done. }
  intros Hg. destruct (H l ∅ os Hg) as [Hos Hne].
  rewrite lookup_empty in Hos, Hne. simpl in Hos. split; [done|].
  rewrite Hos. by apply Hne.
Qed.

Lemma mark_loop_journal env os w :
  ∃ w' cs, for_each os (mark_associated env) w = (Returns tt, w')
           ∧ journal w' = journal w ++ cs
           ∧ association_pushes cs = [].
Proof.
  revert w. induction os as [|o os IH]; intros w.
  - exists w, []. by rewrite app_nil_r.
  - unfold for_each; fold (@for_each (nat * Payout)).
    unfold mbind, M_bind, bind at 1. unfold mark_associated at 1.
    unfold_monad. simpl.
    match goal with
    | |- context [for_each os _ ?w1] =>
        destruct (IH w1) as (w' & cs & Hrun & Hj & Hcs)
    end.
    rewrite Hrun. simpl in Hj. eexists w', (_ :: cs).
    split; [done|]. split; [by rewrite Hj, <- app_assoc|]. done.
Qed.

Lemma associate_loop_pushes env (simulate : bool)
    (gs : list (string * list (nat * Payout))) (w : world) t pids ans :
  UpdatePayouts t pids ans
    ∈ journal (for_each gs (λ '(txid, payouts),
                              if simulate then mret tt
                              else associate env txid payouts ;; mret tt)
                 w).2 →
  UpdatePayouts t pids ans ∈ journal w
  ∨ ∃ os, (t, os) ∈ gs ∧ pids = (λ p : nat * Payout, pid p.2) <$> os.
Proof.
  revert w. induction gs as [|[t0 os0] gs IH]; intros w; [by left|].
  unfold for_each; fold (@for_each (string * list (nat * Payout))).
  unfold mbind, M_bind, bind at 1.
  assert (∀ w1,
    (UpdatePayouts t pids ans ∈ journal w1 →
     UpdatePayouts t pids ans ∈ journal w
     ∨ ∃ os, (t, os) ∈ (t0, os0) :: gs
             ∧ pids = (λ p : nat * Payout, pid p.2) <$> os) →
    UpdatePayouts t pids ans
      ∈ journal (for_each gs (λ '(txid, payouts),
                                if simulate then mret tt
                                else associate env txid payouts ;; mret tt)
                   w1).2 →
    UpdatePayouts t pids ans ∈ journal w
    ∨ ∃ os, (t, os) ∈ (t0, os0) :: gs
            ∧ pids = (λ p : nat * Payout, pid p.2) <$> os) as Hnext.
  { intros w1 Hw1 Hin. apply IH in Hin as [Hin|(os & Hos & ->)]; [auto|].
    right. exists os. split; [by right|done]. }
  assert (∀ j r,
    UpdatePayouts t pids ans
      ∈ journal w ++ UpdatePayouts t0 ((λ p : nat * Payout, pid p.2) <$> os0) r
                     :: j →
    association_pushes j = [] →
    UpdatePayouts t pids ans ∈ journal w
    ∨ ∃ os, (t, os) ∈ (t0, os0) :: gs
            ∧ pids = (λ p : nat * Payout, pid p.2) <$> os) as Hhere.
  { intros j r Hin Hj. apply elem_of_app in Hin as [?|Hin]; [by left|].
    apply elem_of_cons in Hin as [[= -> -> ->]|Hin].
    - right. exists os0. split; [left|done].
    - exfalso. clear -Hin Hj. induction j as [|ev j IHj];
        [by apply elem_of_nil in Hin|].
      apply elem_of_cons in Hin as [<-|Hin]; [done|].
      apply IHj; [done|]. by destruct ev. }
  destruct simulate; simpl; [apply Hnext; auto|].
  unfold associate, ask. unfold_monad. simpl.
  destruct (update_payouts env t0 _) as [[|]|e] eqn:Hans; simpl.
  - match goal with
    | |- context [for_each os0 _ ?w1] =>
        destruct (mark_loop_journal env os0 w1) as (w' & cs & Hrun & Hj & Hcs)
    end.
    rewrite Hrun. simpl in *. apply Hnext. rewrite Hj, <- app_assoc.
    intros Hin. by apply (Hhere cs (Ok true)).
  - apply Hnext. simpl. intros Hin. by apply (Hhere [] (Ok false)).
  - simpl. intros Hin. by apply (Hhere [] (Fails e)).
Qed.

(** X25.  What [associate_all] pushes for a txid: the pids of exactly the
    rows that carry that txid and are not yet associated, in table
    order, and never an empty list. *)
Theorem associate_pushes_the_unassociated_of_a_txid
    cfg env simulate db t pids ans :
  UpdatePayouts t pids ans
    ∈ journal_of (entry cfg env AssociateAll simulate db) →
  pids ≠ []
  ∧ pids = pid <$> filter (λ r, txid r = Some t)
                     (filter (λ r, unassociated_paid r = true) db).
Proof.
  unfold journal_of, entry. intros Hin.
  assert (UpdatePayouts t pids ans
            ∈ journal (associate_all env simulate (boot db)).2) as Hin'.
  { unfold call in Hin. simpl in Hin.
    by destruct (associate_all env simulate (boot db)) as [[?|?|?] ?]. }
  clear Hin. unfold associate_all in Hin'. unfold_monad. simpl in Hin'.
  match type of Hin' with
  | context [for_each ?gs ?body ?w] =>
      assert (UpdatePayouts t pids ans ∈ journal (for_each gs body w).2)
        as Hloop by (by destruct (for_each gs body w) as [[?|?|?] ?])
  end.
  clear Hin'.
  apply (associate_loop_pushes env simulate) in Hloop
    as [Hnil|(os & Hos & ->)]; [by apply elem_of_nil in Hnil|].
  apply elem_of_map_to_list, group_by_txid_lookup in Hos as [-> Hne].
  split.
  - intros Hnil. apply fmap_nil_inv in Hnil. done.
  - rewrite <- select_rows.
    rewrite <- (filter_fmap_snd (λ r, txid r = Some t)).
    by rewrite <- list_fmap_compose.
Qed.

(** ** [reset_all_locked], [call] and [entry] *)

(** X26.  After a real [reset_all_locked], the next [payout] takes every
    row without a txid into its batch, the ones that were locked
    included, and no row with a txid. *)
Theorem reset_exposes_every_unpaid_row cfg env db i :
  i ∈ (batch (store_after (entry cfg env ResetAllLocked false db))).*1
  ↔ ∃ r, db !! i = Some r ∧ txid r = None.
Proof.
  rewrite reset_all_locked_store. split.
  - intros Hin. apply list_elem_of_fmap in Hin as ([i' r'] & -> & Hin).
    apply elem_of_select in Hin as [Hi Hu]. simpl.
    rewrite list_lookup_fmap in Hi.
    destruct (db !! i') as [r|] eqn:Hr; [|done]. simpl in Hi.
    injection Hi as <-. exists r. split; [done|].
    apply unpaid_unlocked_true in Hu as [Htx _]. by destruct (locked r).
  - intros (r & Hi & Htx). apply list_elem_of_fmap.
    exists (i, if locked r then set_locked false r else r). split; [done|].
    apply elem_of_select. rewrite list_lookup_fmap, Hi. split; [done|].
    apply unpaid_unlocked_true. by destruct (locked r) eqn:Hl.
Qed.

Lemma associate_loop_no_exit env (simulate : bool)
    (gs : list (string * list (nat * Payout))) (w : world) c w' :
  for_each gs (λ '(txid, payouts),
                 if simulate then mret tt
                 else associate env txid payouts ;; mret tt) w
  ≠ (Exits c, w').
Proof.
  revert w. induction gs as [|[t0 os0] gs IH]; intros w; [done|].
  unfold for_each; fold (@for_each (string * list (nat * Payout))).
  unfold mbind, M_bind, bind at 1.
  destruct simulate; simpl; [apply IH|].
  unfold associate, ask. unfold_monad. simpl.
  destruct (update_payouts env t0 _) as [[|]|e]; simpl; [|apply IH|done].
  match goal with
  | |- context [for_each os0 _ ?w1] =>
      destruct (mark_loop_journal env os0 w1) as (w2 & cs & Hrun & _)
  end.
  rewrite Hrun. apply IH.
Qed.

(** X27.  No exception leaves [call]: a command run from the command
    line ends by returning, and the only one that ends the process
    itself is [reset_all_locked] under [--simulate], with exit code 0. *)
Theorem entry_never_raises cfg env a simulate db :
  (∀ e, returned (entry cfg env a simulate db) ≠ Raises e)
  ∧ (∀ c, returned (entry cfg env a simulate db) = Exits c →
       a = ResetAllLocked ∧ simulate = true ∧ c = 0).
Proof.
  split.
  - intros e. unfold returned, entry, call.
    by destruct (command cfg env a simulate (boot db)) as [[?|?|?] ?].
  - intros c. destruct a.
    + destruct (confirm_trans_shape cfg env simulate db)
        as (_ & _ & _ & ret & _ & -> & _). done.
    + remember (entry cfg env DoPayout simulate db) as res eqn:Hr.
      payout_cases Hr; subst res; done.
    + by destruct (pull_payouts_returned cfg env simulate db) as [->| ->].
    + destruct simulate; [by intros [= <-]|done].
    + done.
    + unfold returned, entry, call, command, associate_all. unfold_monad.
      simpl.
      match goal with
      | |- context [for_each ?gs ?body ?w] =>
          destruct (for_each gs body w) as [[?|?|c'] w'] eqn:Hloop; try done
      end.
      by apply associate_loop_no_exit in Hloop.
Qed.

(** ** The reports *)

Lemma listed_tabulate title q :
  Report.listed (Report._tabulate title q)
  = (λ p : nat * Payout, Report.tabulize p.2) <$> q.
Proof.
  unfold Report.listed, Report._tabulate.
  destruct q; simpl; rewrite ?app_nil_r; done.
Qed.

Lemma listed_app out1 out2 :
  Report.listed (out1 ++ out2) = Report.listed out1 ++ Report.listed out2.
Proof. apply bind_app. Qed.

Lemma listed_select title P t :
  Report.listed (Report._tabulate title (select P t))
  = Report.tabulize <$> filter (λ r, P r = true) t.
Proof.
  rewrite listed_tabulate, <- select_rows, <- list_fmap_compose. done.
Qed.

(** Three filters that exclude one another split the filter of their
    union. *)
Lemma filter_split3 (P1 P2 P3 Q : Payout → bool) (t : list Payout) :
  (∀ r, Q r = true →
     (P1 r = true ∧ P2 r = false ∧ P3 r = false)
     ∨ (P1 r = false ∧ P2 r = true ∧ P3 r = false)
     ∨ (P1 r = false ∧ P2 r = false ∧ P3 r = true)) →
  (∀ r, Q r = false → P1 r = false ∧ P2 r = false ∧ P3 r = false) →
  filter (λ r, P1 r = true) t ++ filter (λ r, P2 r = true) t
    ++ filter (λ r, P3 r = true) t
  ≡ₚ filter (λ r, Q r = true) t.
Proof.
  intros Hin Hout. induction t as [|r t IH]; [done|].
  rewrite !filter_cons. destruct (Q r) eqn:HQ.
  - destruct (Hin r HQ) as [(-> & -> & ->)|[(-> & -> & ->)|(-> & -> & ->)]];
      simpl; rewrite <- IH.
    + done.
    + by rewrite <- Permutation_middle.
    + by rewrite app_assoc, <- Permutation_middle, <- app_assoc.
  - destruct (Hout r HQ) as (-> & -> & ->). simpl. done.
Qed.

(** X28.  [dump_incomplete] with all its tables lists every row whose
    payout is not over (no txid yet, or a txid that is not associated)
    exactly once, and no row that is paid and associated. *)
Theorem dump_incomplete_lists_open_rows_once t :
  Report.listed (Report.dump_incomplete true true true t)
  ≡ₚ Report.tabulize <$> filter (λ r, negb (closed r) = true) t.
Proof.
  unfold Report.dump_incomplete, Report.unpaid_locked, Report.paid_unassoc,
    Report.unpaid_unlocked.
  rewrite !listed_app, !listed_select, <- !fmap_app.
  apply fmap_Permutation, filter_split3.
  - intros r. unfold closed, Report.is_unpaid_locked, unassociated_paid,
      unpaid_unlocked.
    destruct (bool_decide (txid r = None)), (associated r), (locked r);
      simpl; intros; try done; auto.
  - intros r. unfold closed, Report.is_unpaid_locked, unassociated_paid,
      unpaid_unlocked.
    destruct (bool_decide (txid r = None)), (associated r), (locked r);
      simpl; intros; try done; auto.
Qed.

(** ** [_set_config] *)

(** The loop over [required_conf]: it reports the missing keys in turn
    and raises the flag at the first. *)
Lemma set_config_loop (config : gmap string Config.value) reqs
    (st : list string * bool) :
  foldl (λ (st : list string * bool) req,
           if bool_decide (config !! req = None)
           then (st.1 ++ [req +:+ " is a required configuration variable"],
                 true)
           else st) st reqs
  = (st.1 ++ ((λ k, k +:+ " is a required configuration variable")
              <$> filter (λ k, config !! k = None) reqs),
     match filter (λ k, config !! k = None) reqs with
     | [] => st.2
     | _ => true
     end).
Proof.
  revert st. induction reqs as [|req reqs IH]; intros [out err]; simpl.
  - by rewrite app_nil_r.
  - rewrite IH, filter_cons. case_bool_decide as Hreq; simpl.
    + rewrite decide_True by done. simpl. rewrite <- app_assoc. simpl.
      by destruct (filter _ reqs).
    + by rewrite decide_False by done.
Qed.

(** Of the required keys, the merged configuration can only lack those
    without a default. *)
Lemma set_config_missing base (kwargs : gmap string Config.value) :
  filter (λ k, Config.update (Config.defaults base) kwargs !! k = None)
    Config.required_conf
  = filter (λ k, kwargs !! k = None)
      ["currency_code"; "rpc_signature"; "rpc_url"]%string.
Proof.
  unfold Config.required_conf, Config.update.
  assert (∀ k v, Config.defaults base !! k = Some v →
            (kwargs ∪ Config.defaults base) !! k ≠ None) as Hdef.
  { intros k v Hk. rewrite lookup_union, Hk. by destruct (kwargs !! k). }
  assert (∀ k, Config.defaults base !! k = None →
            (kwargs ∪ Config.defaults base) !! k = kwargs !! k) as Hno.
  { intros k Hk. rewrite lookup_union, Hk. by destruct (kwargs !! k). }
  rewrite (filter_cons _ "coinserv"%string), decide_False
    by by eapply Hdef.
  rewrite (filter_cons _ "valid_address_versions"%string), decide_False
    by by eapply Hdef.
  rewrite !filter_cons, !filter_nil.
  by rewrite !Hno by done.
Qed.

(** X29.  [_set_config] stops the process, with code 1, exactly when
    [currency_code], [rpc_signature] or [rpc_url] is not given, and names
    those of the three that are missing, in that order; [coinserv] and
    [valid_address_versions], although listed as required, are never
    reported, since the defaults supply them.  Otherwise every key holds
    the given value, or its default when none is given. *)
Theorem set_config_reports_missing_keys base kwargs :
  (Config._set_config base kwargs).1
  = (λ k, k +:+ " is a required configuration variable")
    <$> filter (λ k, kwargs !! k = None)
          ["currency_code"; "rpc_signature"; "rpc_url"]%string
  ∧ ((Config._set_config base kwargs).2 = Config.Exit 1
     ↔ ∃ k, k ∈ ["currency_code"; "rpc_signature"; "rpc_url"]%string
            ∧ kwargs !! k = None)
  ∧ ((∀ k, k ∈ ["currency_code"; "rpc_signature"; "rpc_url"]%string →
           is_Some (kwargs !! k)) →
     ∃ config, (Config._set_config base kwargs).2 = Config.Configured config
       ∧ ∀ k, config !! k = match kwargs !! k with
                            | Some v => Some v
                            | None => Config.defaults base !! k
                            end).
Proof.
  unfold Config._set_config.
  rewrite set_config_loop, set_config_missing.
  set (needed := ["currency_code"; "rpc_signature"; "rpc_url"]%string).
  simpl.
  split; [done|]. split; [split|].
  - destruct (filter _ needed) as [|k l] eqn:Hf; [done|]. intros _.
    assert (k ∈ filter (λ k, kwargs !! k = None) needed) as Hin
      by (rewrite Hf; by left).
    apply list_elem_of_filter in Hin as [Hn Hk]. by exists k.
  - intros (k & Hk & Hn).
    assert (k ∈ filter (λ k, kwargs !! k = None) needed) as Hin
      by by apply list_elem_of_filter.
    by destruct (filter _ needed); [apply elem_of_nil in Hin|].
  - intros Hall. destruct (filter _ needed) as [|k l] eqn:Hf.
    + eexists. split; [done|]. intros k. unfold Config.update.
      rewrite lookup_union. by destruct (kwargs !! k), (_ !! k).
    + assert (k ∈ filter (λ k, kwargs !! k = None) needed) as Hin
        by (rewrite Hf; by left).
      apply list_elem_of_filter in Hin as [Hn Hk].
      destruct (Hall k Hk) as [v Hv]. congruence.
Qed.

(** ** From [payout] to [associate_all] *)

(** X30.  A batch that [payout] sent in the transaction [t] is closed by
    the next real [associate_all] that the remote accepts: each of its
    rows then carries the txid [t], is unlocked and associated, and is
    still the obligation it was. *)
Theorem paid_batch_closed_by_associate_all
    cfg env env' simulate db recip t k o :
  SendMany recip (Ok t) ∈ journal_of (entry cfg env DoPayout simulate db) →
  (∀ t' pids, update_payouts env' t' pids = Ok true) →
  batch db !! k = Some o →
  ∃ r', store_after
          (entry cfg env' AssociateAll false
             (store_after (entry cfg env DoPayout simulate db)))
          !! o.1 = Some r'
        ∧ txid r' = Some t ∧ locked r' = false ∧ associated r' = true
        ∧ pid r' = pid o.2 ∧ user r' = user o.2 ∧ amount r' = amount o.2.
Proof.
  intros Hsend Hyes Hk.
  destruct (batch_lookup _ _ _ Hk) as [Hp _].
  assert (∃ r1, store_after (entry cfg env DoPayout simulate db) !! o.1
                = Some r1
                ∧ txid r1 = Some t ∧ locked r1 = false
                ∧ pid r1 = pid o.2 ∧ user r1 = user o.2
                ∧ amount r1 = amount o.2) as (r1 & Hr1 & Htx & Hl & Hsame).
  { remember (entry cfg env DoPayout simulate db) as res eqn:Hr.
    payout_cases Hr; subst res;
      unfold journal_of, store_after in *; simpl in *; inv_elem Hsend.
    all: rewrite !(batch_update_lookup _ _ _ _ _ _ Hk).
    all: rewrite Hp; simpl; eauto 10. }
  set (paid := store_after (entry cfg env DoPayout simulate db)) in *.
  destruct (associate_all_closes env' paid Hyes) as (w' & Hrun & _ & Hall).
  destruct (associate_all_inv env' false paid) as [[_ Hrows] _].
  destruct (Hrows _ _ Hr1) as (r' & Hr' & Hcase).
  assert (store_after (entry cfg env' AssociateAll false paid)
          = durable (associate_all env' false (boot paid)).2) as ->.
  { unfold store_after, entry. by rewrite call_durable. }
  exists r'. split; [done|].
  assert (txid r' = Some t ∧ locked r' = false
          ∧ pid r' = pid o.2 ∧ user r' = user o.2 ∧ amount r' = amount o.2)
    as (Htx' & Hl' & Hsame').
  { by destruct Hcase as [->|(_ & n & ->)]. }
  repeat split; try done; try tauto.
  apply Hall; [|congruence].
  rewrite Hrun in Hr'. by eapply list_elem_of_lookup_2.
Qed.

(** ** The further properties at work on the sample data *)

Lemma payout_nothing_to_pay_witness :
  getinfo env_send_ok = Ok tt
  ∧ (∀ r, r ∈ demo_paid_db → txid r ≠ None ∨ locked r = true)
  ∧ entry demo_cfg env_send_ok DoPayout false demo_paid_db
    = (Returns PyTrue,
       {| durable := demo_paid_db; session := demo_paid_db; clock := 0;
          journal := [GetInfo (Ok tt)] |}).
Proof.
  assert (getinfo env_send_ok = Ok tt) as H1 by reflexivity.
  assert (∀ r, r ∈ demo_paid_db → txid r ≠ None ∨ locked r = true) as H2.
  { intros r Hr. left.
    apply elem_of_cons in Hr as [->|Hr]; [discriminate|].
    apply elem_of_cons in Hr as [->|Hr]; [discriminate|].
    by apply elem_of_nil in Hr. }
  split; [exact H1|]. split; [exact H2|].
  exact (payout_nothing_to_pay demo_cfg env_send_ok false demo_paid_db H1 H2).
Defined.

Lemma wallet_down_stops_command_witness :
  getinfo env_wallet_down = Fails CoinRPCException
  ∧ entry demo_cfg env_wallet_down DoPayout false demo_db
    = (Returns PyFalse,
       {| durable := demo_db; session := demo_db; clock := 0;
          journal := [GetInfo (Fails CoinRPCException)] |}).
Proof.
  assert (getinfo env_wallet_down = Fails CoinRPCException) as H1
    by reflexivity.
  split; [exact H1|].
  exact (proj1 (wallet_down_stops_command demo_cfg env_wallet_down false
                  demo_db _ H1)).
Defined.

Lemma payout_lock_committed_before_send_witness :
  SendMany (recipients (user_payout_amounts demo_db)) (Ok "tx-1"%string)
    ∈ journal_of (entry demo_cfg env_send_ok DoPayout false demo_db)
  ∧ ∃ t, commits (before_send
                    (journal_of (entry demo_cfg env_send_ok DoPayout false
                                       demo_db))) = [t]
         ∧ ∀ k o, batch demo_db !! k = Some o →
             ∃ row, t !! o.1 = Some row
                    ∧ locked row = true
                    ∧ lock_time row = Some (utcnow env_send_ok k)
                    ∧ txid row = None.
Proof.
  assert (SendMany (recipients (user_payout_amounts demo_db))
                   (Ok "tx-1"%string)
            ∈ journal_of (entry demo_cfg env_send_ok DoPayout false demo_db))
    as H1 by (vm_compute; find_event).
  split; [exact H1|].
  exact (payout_lock_committed_before_send demo_cfg env_send_ok false demo_db
           _ _ H1).
Defined.

Lemma payout_simulate_accepted_witness :
  RawInput "y"
    ∈ journal_of (entry demo_cfg env_simulate_yes DoPayout true demo_db)
  ∧ returned (entry demo_cfg env_simulate_yes DoPayout true demo_db)
    = Returns (PyStr fake_txid).
Proof.
  assert (RawInput "y"
            ∈ journal_of (entry demo_cfg env_simulate_yes DoPayout true
                                demo_db))
    as H1 by (vm_compute; find_event).
  split; [exact H1|].
  exact (proj1 (proj2 (payout_simulate_accepted demo_cfg env_simulate_yes
                         true demo_db H1))).
Defined.

Lemma payout_unhandled_send_failure_witness :
  SendMany (recipients (user_payout_amounts demo_db)) (Fails OtherException)
    ∈ journal_of (entry demo_cfg env_send_times_out DoPayout false demo_db)
  ∧ OtherException ≠ CoinRPCException
  ∧ returned (entry demo_cfg env_send_times_out DoPayout false demo_db)
    = Returns PyFalse
  ∧ length (balance_reads
              (journal_of (entry demo_cfg env_send_times_out DoPayout false
                                 demo_db))) = 1%nat.
Proof.
  assert (SendMany (recipients (user_payout_amounts demo_db))
                   (Fails OtherException)
            ∈ journal_of (entry demo_cfg env_send_times_out DoPayout false
                                demo_db))
    as H1 by (vm_compute; find_event).
  assert (OtherException ≠ CoinRPCException) as H2 by discriminate.
  split; [exact H1|]. split; [exact H2|].
  pose proof (payout_unhandled_send_failure demo_cfg env_send_times_out false
                demo_db _ _ H1 H2) as (Hr & Hb & _).
  split; [exact Hr|exact Hb].
Defined.

Lemma payout_balance_unreadable_witness :
  GetBalance (Fails CoinRPCException)
    ∈ journal_of (entry demo_cfg env_balance_unreadable DoPayout false demo_db)
  ∧ balance_reads
      (journal_of (entry demo_cfg env_balance_unreadable DoPayout false
                         demo_db)) = []
  ∧ returned (entry demo_cfg env_balance_unreadable DoPayout false demo_db)
    = Returns PyFalse
  ∧ store_after (entry demo_cfg env_balance_unreadable DoPayout false demo_db)
    = demo_db
  ∧ sends (journal_of (entry demo_cfg env_balance_unreadable DoPayout false
                             demo_db)) = [].
Proof.
  assert (GetBalance (Fails CoinRPCException)
            ∈ journal_of (entry demo_cfg env_balance_unreadable DoPayout
                                false demo_db))
    as H1 by (vm_compute; find_event).
  assert (balance_reads
            (journal_of (entry demo_cfg env_balance_unreadable DoPayout false
                               demo_db)) = [])
    as H2 by (vm_compute; reflexivity).
  split; [exact H1|]. split; [exact H2|].
  exact (payout_balance_unreadable demo_cfg env_balance_unreadable false
           demo_db _ H1 H2).
Defined.

Lemma payout_leaves_nothing_eligible_witness :
  SendMany (recipients (user_payout_amounts demo_db)) (Ok "tx-1"%string)
    ∈ journal_of (entry demo_cfg env_send_ok DoPayout false demo_db)
  ∧ batch (store_after (entry demo_cfg env_send_ok DoPayout false demo_db))
    = [].
Proof.
  assert (SendMany (recipients (user_payout_amounts demo_db))
                   (Ok "tx-1"%string)
            ∈ journal_of (entry demo_cfg env_send_ok DoPayout false demo_db))
    as H1 by (vm_compute; find_event).
  split; [exact H1|].
  exact (payout_leaves_nothing_eligible demo_cfg env_send_ok false demo_db
           _ _ H1).
Defined.

Lemma pull_counts_every_item_witness :
  get_payouts env_offers_again
  = Ok [("1ABC"%string, 500000000, "ext-1"%string)]
  ∧ Forall (λ item : string * Z * string, fits_bigint item.1.2 = true)
      [("1ABC"%string, 500000000, "ext-1"%string)]
  ∧ returned (entry demo_cfg env_offers_again PullPayouts false demo_db)
    = Returns PyTrue
  ∧ ∃ new repeat invalid,
      pull_summary (journal_of (entry demo_cfg env_offers_again PullPayouts
                                      false demo_db))
        = Some (new, repeat, invalid)
      ∧ (new + repeat + invalid = 1)%nat
      ∧ length (store_after (entry demo_cfg env_offers_again PullPayouts false
                                   demo_db))
        = (length demo_db + new)%nat.
Proof.
  assert (get_payouts env_offers_again
          = Ok [("1ABC"%string, 500000000, "ext-1"%string)]) as H1
    by reflexivity.
  assert (Forall (λ item : string * Z * string, fits_bigint item.1.2 = true)
            [("1ABC"%string, 500000000, "ext-1"%string)]) as H2
    by (repeat constructor).
  split; [exact H1|]. split; [exact H2|].
  exact (pull_counts_every_item demo_cfg env_offers_again demo_db _ H1 H2).
Defined.

Lemma pull_stores_every_valid_item_witness :
  get_payouts env_offers_again
  = Ok [("1ABC"%string, 500000000, "ext-1"%string)]
  ∧ returned (entry demo_cfg env_offers_again PullPayouts false [])
    = Returns PyTrue
  ∧ ∀ u a p,
      (u, a, p) ∈ [("1ABC"%string, 500000000, "ext-1"%string)] →
      address_ok demo_cfg u = true →
      p ∈ pid <$> store_after (entry demo_cfg env_offers_again PullPayouts
                                     false []).
Proof.
  assert (get_payouts env_offers_again
          = Ok [("1ABC"%string, 500000000, "ext-1"%string)]) as H1
    by reflexivity.
  split; [exact H1|].
  destruct (pull_stores_every_valid_item demo_cfg env_offers_again [] _ H1)
    as [H|[H _]]; [exact H|].
  vm_compute in H. discriminate H.
Defined.

Lemma pull_same_list_twice_witness :
  get_payouts env_offers_again
  = Ok [("1ABC"%string, 500000000, "ext-1"%string)]
  ∧ store_after (entry demo_cfg env_offers_again PullPayouts false
                   (store_after (entry demo_cfg env_offers_again PullPayouts
                                       false [])))
    = store_after (entry demo_cfg env_offers_again PullPayouts false []).
Proof.
  assert (get_payouts env_offers_again
          = Ok [("1ABC"%string, 500000000, "ext-1"%string)]) as H1
    by reflexivity.
  split; [exact H1|].
  exact (proj1 (pull_same_list_twice demo_cfg env_offers_again
                  env_offers_again [] _ H1 H1)).
Defined.

Lemma pull_keeps_pids_distinct_witness :
  NoDup (pid <$> demo_db)
  ∧ NoDup (pid <$> store_after (entry demo_cfg env_offers_bad_address
                                      PullPayouts false demo_db)).
Proof.
  assert (NoDup (pid <$> demo_db)) as H1
    by (apply (@bool_decide_unpack (NoDup (pid <$> demo_db)) _);
        vm_compute; exact I).
  split; [exact H1|].
  exact (pull_keeps_pids_distinct demo_cfg env_offers_bad_address false
           demo_db H1).
Defined.

Lemma pull_only_appends_offered_rows_witness :
  get_payouts env_offers_again
  = Ok [("1ABC"%string, 500000000, "ext-1"%string)]
  ∧ ∃ added,
      store_after (entry demo_cfg env_offers_again PullPayouts false [])
      = [] ++ added
      ∧ ∀ row, row ∈ added →
          ∃ u a p n,
            (u, a, p) ∈ [("1ABC"%string, 500000000, "ext-1"%string)]
            ∧ address_ok demo_cfg u = true
            ∧ row = new_payout p u a (utcnow env_offers_again n).
Proof.
  assert (get_payouts env_offers_again
          = Ok [("1ABC"%string, 500000000, "ext-1"%string)]) as H1
    by reflexivity.
  split; [exact H1|].
  exact (pull_only_appends_offered_rows demo_cfg env_offers_again [] _ H1).
Defined.

Lemma pull_without_effect_witness :
  get_payouts env_offers_again
  = Ok [("1ABC"%string, 500000000, "ext-1"%string)]
  ∧ entry demo_cfg env_offers_again PullPayouts true []
    = (Returns PyTrue,
       {| durable := []; session := []; clock := 0;
          journal := [GetPayouts
                        (Ok [("1ABC"%string, 500000000, "ext-1"%string)]);
                      PullSummary 0 0 0] |}).
Proof.
  assert (get_payouts env_offers_again
          = Ok [("1ABC"%string, 500000000, "ext-1"%string)]) as H1
    by reflexivity.
  split; [exact H1|].
  exact (proj2 (pull_without_effect demo_cfg env_offers_again []) _ H1).
Defined.

Lemma confirm_pushes_deep_transactions_witness :
  ConfirmTransactions ["tx-1"%string] {["tx-1"%string := -10000]} (Ok true)
    ∈ journal_of (entry demo_cfg env_empty_fee ConfirmTrans false [])
  ∧ (["tx-1"%string] ≠ []
     ∨ ({["tx-1"%string := -10000]} : gmap string Z) ≠ ∅).
Proof.
  assert (ConfirmTransactions ["tx-1"%string] {["tx-1"%string := -10000]}
                              (Ok true)
            ∈ journal_of (entry demo_cfg env_empty_fee ConfirmTrans false []))
    as H1 by (vm_compute; find_event).
  split; [exact H1|].
  exact (proj1 (confirm_pushes_deep_transactions demo_cfg env_empty_fee false
                  [] _ _ _ H1)).
Defined.

Lemma confirm_integer_fee_aborts_witness :
  getinfo env_integer_fee = Ok tt
  ∧ get_unconfirmed env_integer_fee
    = Ok {| success := true;
            objects := [ {| obj_txid := "tx-1"; obj_fee := Some JNull |} ] |}
  ∧ gettransaction env_integer_fee 0 "tx-1"
    = Ok {| confirmations := 10; fee := Some (WInt 0) |}
  ∧ fee_unpopulated {| obj_txid := "tx-1"; obj_fee := Some JNull |}
  ∧ returned (entry demo_cfg env_integer_fee ConfirmTrans false [])
    = Returns PyFalse
  ∧ confirm_pushes
      (journal_of (entry demo_cfg env_integer_fee ConfirmTrans false [])) = [].
Proof.
  assert (getinfo env_integer_fee = Ok tt) as H1 by reflexivity.
  assert (get_unconfirmed env_integer_fee
          = Ok {| success := true;
                  objects := [ {| obj_txid := "tx-1";
                                  obj_fee := Some JNull |} ] |}) as H2
    by reflexivity.
  assert (gettransaction env_integer_fee 0 "tx-1"
          = Ok {| confirmations := 10; fee := Some (WInt 0) |}) as H3
    by reflexivity.
  assert (fee_unpopulated {| obj_txid := "tx-1"; obj_fee := Some JNull |})
    as H4 by (exists JNull; split; reflexivity).
  split; [exact H1|]. split; [exact H2|]. split; [exact H3|].
  split; [exact H4|].
  exact (confirm_integer_fee_aborts demo_cfg env_integer_fee false [] _
           0%nat _ _ 0 H1 H2 eq_refl eq_refl H3 eq_refl H4).
Defined.

Lemma confirm_looks_up_every_transaction_witness :
  getinfo env_empty_fee = Ok tt
  ∧ get_unconfirmed env_empty_fee
    = Ok {| success := true;
            objects := [ {| obj_txid := "tx-1"; obj_fee := Some JNull |} ] |}
  ∧ (∀ n t trans_data z,
       gettransaction env_empty_fee n t = Ok trans_data →
       fee trans_data ≠ Some (WInt z))
  ∧ lookups (journal_of (entry demo_cfg env_empty_fee ConfirmTrans false []))
    = [("tx-1"%string, Ok demo_lookup)].
Proof.
  assert (getinfo env_empty_fee = Ok tt) as H1 by reflexivity.
  assert (get_unconfirmed env_empty_fee
          = Ok {| success := true;
                  objects := [ {| obj_txid := "tx-1";
                                  obj_fee := Some JNull |} ] |}) as H2
    by reflexivity.
  assert (∀ n t trans_data z,
            gettransaction env_empty_fee n t = Ok trans_data →
            fee trans_data ≠ Some (WInt z)) as H3.
  { intros n t trans_data z H. injection H as <-. discriminate. }
  split; [exact H1|]. split; [exact H2|]. split; [exact H3|].
  exact (confirm_looks_up_every_transaction demo_cfg env_empty_fee false []
           _ H1 H2 eq_refl H3).
Defined.

Lemma associate_without_acceptance_witness :
  (false = true ∨ (∀ t pids, update_payouts env_refuses t pids ≠ Ok true))
  ∧ store_after (entry demo_cfg env_refuses AssociateAll false demo_paid_db)
    = demo_paid_db.
Proof.
  assert (false = true
          ∨ (∀ t pids, update_payouts env_refuses t pids ≠ Ok true)) as H1
    by (right; discriminate).
  split; [exact H1|].
  exact (proj1 (associate_without_acceptance demo_cfg env_refuses false
                  demo_paid_db H1)).
Defined.

Lemma associate_all_accepted_closes_paid_witness :
  (∀ t pids, update_payouts env_send_ok t pids = Ok true)
  ∧ returned (entry demo_cfg env_send_ok AssociateAll false demo_paid_db)
    = Returns PyNone
  ∧ ∀ row,
      row ∈ store_after (entry demo_cfg env_send_ok AssociateAll false
                               demo_paid_db) →
      txid row ≠ None → associated row = true.
Proof.
  assert (∀ t pids, update_payouts env_send_ok t pids = Ok true) as H1
    by reflexivity.
  split; [exact H1|].
  exact (associate_all_accepted_closes_paid demo_cfg env_send_ok demo_paid_db
           H1).
Defined.

Lemma associate_all_twice_witness :
  (∀ t pids, update_payouts env_send_ok t pids = Ok true)
  ∧ entry demo_cfg env_refuses AssociateAll false
      (store_after (entry demo_cfg env_send_ok AssociateAll false
                          demo_paid_db))
    = (Returns PyNone,
       boot (store_after (entry demo_cfg env_send_ok AssociateAll false
                                demo_paid_db))).
Proof.
  assert (∀ t pids, update_payouts env_send_ok t pids = Ok true) as H1
    by reflexivity.
  split; [exact H1|].
  exact (associate_all_twice demo_cfg env_send_ok env_refuses false
           demo_paid_db H1).
Defined.

Lemma associate_pushes_the_unassociated_of_a_txid_witness :
  UpdatePayouts "tx-1" ["ext-1"; "ext-2"]%string (Ok true)
    ∈ journal_of (entry demo_cfg env_send_ok AssociateAll false demo_paid_db)
  ∧ ["ext-1"; "ext-2"]%string
    = pid <$> filter (λ r, txid r = Some "tx-1"%string)
                (filter (λ r, unassociated_paid r = true) demo_paid_db).
Proof.
  assert (UpdatePayouts "tx-1" ["ext-1"; "ext-2"]%string (Ok true)
            ∈ journal_of (entry demo_cfg env_send_ok AssociateAll false
                                demo_paid_db))
    as H1 by (vm_compute; find_event).
  split; [exact H1|].
  exact (proj2 (associate_pushes_the_unassociated_of_a_txid demo_cfg
                  env_send_ok false demo_paid_db _ _ _ H1)).
Defined.

Lemma entry_never_raises_witness :
  returned (entry demo_cfg env_send_ok ResetAllLocked true demo_locked_db)
  = Exits 0
  ∧ ResetAllLocked = ResetAllLocked ∧ true = true ∧ 0 = 0.
Proof.
  assert (returned (entry demo_cfg env_send_ok ResetAllLocked true
                          demo_locked_db) = Exits 0) as H1
    by reflexivity.
  split; [exact H1|].
  exact (proj2 (entry_never_raises demo_cfg env_send_ok ResetAllLocked true
                  demo_locked_db) 0 H1).
Defined.

Lemma set_config_reports_missing_keys_witness :
  (∀ k, k ∈ ["currency_code"; "rpc_signature"; "rpc_url"]%string →
        is_Some (demo_kwargs !! k))
  ∧ ∃ config,
      (Config._set_config "/srv/rpc" demo_kwargs).2 = Config.Configured config
      ∧ ∀ k, config !! k = match demo_kwargs !! k with
                           | Some v => Some v
                           | None => Config.defaults "/srv/rpc" !! k
                           end.
Proof.
  assert (∀ k, k ∈ ["currency_code"; "rpc_signature"; "rpc_url"]%string →
               is_Some (demo_kwargs !! k)) as H1.
  { intros k Hk.
    apply elem_of_cons in Hk as [->|Hk]; [by eexists|].
    apply elem_of_cons in Hk as [->|Hk]; [by eexists|].
    apply elem_of_cons in Hk as [->|Hk]; [by eexists|].
    by apply elem_of_nil in Hk. }
  split; [exact H1|].
  exact (proj2 (proj2 (set_config_reports_missing_keys "/srv/rpc"
                         demo_kwargs)) H1).
Defined.

Lemma paid_batch_closed_by_associate_all_witness :
  SendMany (recipients (user_payout_amounts demo_db)) (Ok "tx-1"%string)
    ∈ journal_of (entry demo_cfg env_send_ok DoPayout false demo_db)
  ∧ (∀ t' pids, update_payouts env_send_ok t' pids = Ok true)
  ∧ batch demo_db !! 0%nat
    = Some (0%nat, new_payout "ext-1" "1ABC" 500000000 0%nat)
  ∧ ∃ r', store_after
            (entry demo_cfg env_send_ok AssociateAll false
               (store_after (entry demo_cfg env_send_ok DoPayout false
                                   demo_db)))
            !! 0%nat = Some r'
          ∧ txid r' = Some "tx-1"%string ∧ locked r' = false
          ∧ associated r' = true
          ∧ pid r' = "ext-1"%string ∧ user r' = "1ABC"%string
          ∧ amount r' = 500000000.
Proof.
  assert (SendMany (recipients (user_payout_amounts demo_db))
                   (Ok "tx-1"%string)
            ∈ journal_of (entry demo_cfg env_send_ok DoPayout false demo_db))
    as H1 by (vm_compute; find_event).
  assert (∀ t' pids, update_payouts env_send_ok t' pids = Ok true) as H2
    by reflexivity.
  assert (batch demo_db !! 0%nat
          = Some (0%nat, new_payout "ext-1" "1ABC" 500000000 0%nat)) as H3
    by reflexivity.
  split; [exact H1|]. split; [exact H2|]. split; [exact H3|].
  exact (paid_batch_closed_by_associate_all demo_cfg env_send_ok env_send_ok
           false demo_db _ _ 0%nat _ H1 H2 H3).
Defined.
